(** * Agente M365 Corporativo: the response-to-filesystem pipeline

    A shallow embedding of [m365-agente/extension.js] (the host side:
    [handleCopilotRequest], [processAndWriteFiles]) and of
    [m365-agente/webview/script.js] (the chat surface: [sendMessage] and the
    message listener), followed by the properties of the specification that
    were checked against them. *)

From Stdlib Require Import String Ascii NArith ZArith List Lia Bool.
From Stdlib Require Import DecimalString.
From stdpp Require Import base tactics option list gmap.

Import ListNotations.
Set Warnings "-register-all".
Local Open Scope N_scope.
Local Open Scope list_scope.

(** ** JavaScript strings

    A JavaScript string is a sequence of UTF-16 code units.  A code unit is
    an [N] below 65536; the functions below only ever compare code units, so
    no wrap-around arithmetic is involved. *)

Module Text.

Abbreviation text := (list N).

(** Source literals are written as Rocq strings, which hold the UTF-8 bytes
    of the literal; [utf16] decodes them into the code units that the
    JavaScript engine sees. *)
Fixpoint utf8_units (bs : list N) : text :=
  match bs with
  | [] => []
  | b0 :: r0 =>
    if b0 <? 128 then b0 :: utf8_units r0
    else if b0 <? 224 then
      match r0 with
      | b1 :: r1 =>
        N.lor (N.shiftl (N.land b0 31) 6) (N.land b1 63) :: utf8_units r1
      | [] => [65533]
      end
    else if b0 <? 240 then
      match r0 with
      | b1 :: b2 :: r2 =>
        N.lor (N.shiftl (N.land b0 15) 12)
              (N.lor (N.shiftl (N.land b1 63) 6) (N.land b2 63))
          :: utf8_units r2
      | _ => [65533]
      end
    else
      match r0 with
      | b1 :: b2 :: b3 :: r3 =>
        let cp := N.lor (N.shiftl (N.land b0 7) 18)
                   (N.lor (N.shiftl (N.land b1 63) 12)
                     (N.lor (N.shiftl (N.land b2 63) 6) (N.land b3 63))) in
        let v := cp - 65536 in
        (55296 + N.shiftr v 10) :: (56320 + N.land v 1023) :: utf8_units r3
      | _ => [65533]
      end
  end.

Definition utf16 (s : string) : text :=
  utf8_units (map N_of_ascii (list_ascii_of_string s)).

(** Code units named by the source. *)
Definition LF : N := 10.
Definition CR : N := 13.
Definition BACKTICK : N := 96.
Definition SLASH : N := 47.

(** [\w] without the [u] and [i] flags: [[A-Za-z0-9_]]. *)
Definition is_word (c : N) : bool :=
  ((65 <=? c) && (c <=? 90)) || ((97 <=? c) && (c <=? 122))
  || ((48 <=? c) && (c <=? 57)) || (c =? 95).

(** ECMAScript LineTerminator: LF, CR, LS, PS. *)
Definition is_line_terminator (c : N) : bool :=
  (c =? 10) || (c =? 13) || (c =? 8232) || (c =? 8233).

(** [\s], which is also the set removed by [String.prototype.trim]:
    WhiteSpace and LineTerminator. *)
Definition is_space (c : N) : bool :=
  ((9 <=? c) && (c <=? 13)) || (c =? 32) || (c =? 160) || (c =? 5760)
  || ((8192 <=? c) && (c <=? 8202)) || (c =? 8232) || (c =? 8233)
  || (c =? 8239) || (c =? 8287) || (c =? 12288) || (c =? 65279).

(** [.] without the [s] flag: anything but a line terminator. *)
Definition is_dot (c : N) : bool := negb (is_line_terminator c).

(** [[\s\S]]: every code unit. *)
Definition is_any (c : N) : bool := is_space c || negb (is_space c).

Fixpoint trimStart (x : text) : text :=
  match x with
  | c :: y => if is_space c then trimStart y else x
  | [] => []
  end.

Definition trimEnd (x : text) : text := rev (trimStart (rev x)).

(** [String.prototype.trim]. *)
Definition trim (x : text) : text := trimEnd (trimStart x).

Fixpoint text_eqb (x y : text) : bool :=
  match x, y with
  | [], [] => true
  | a :: x', b :: y' => (a =? b) && text_eqb x' y'
  | _, _ => false
  end.

(** [strip_prefix l x] is [Some y] when [x = l ++ y]. *)
Fixpoint strip_prefix (l x : text) : option text :=
  match l with
  | [] => Some x
  | a :: l' =>
    match x with
    | b :: x' => if a =? b then strip_prefix l' x' else None
    | [] => None
    end
  end.

(** Surrogates: U+D800 to U+DBFF lead a pair, U+DC00 to U+DFFF end it. *)
Definition is_high_surrogate (c : N) : bool :=
  (55296 <=? c) && negb (56320 <=? c).
Definition is_low_surrogate (c : N) : bool :=
  (56320 <=? c) && negb (57344 <=? c).

(** U+FFFD. *)
Definition REPLACEMENT : N := 65533.

(** [String.prototype.toWellFormed]: a surrogate without its partner
    becomes U+FFFD.  This is the text that the bytes of
    [Buffer.from(x, 'utf8')] are read back as: the encoder writes U+FFFD
    for a surrogate that stands alone, and nothing else is lost. *)
Fixpoint toWellFormed (x : text) : text :=
  match x with
  | [] => []
  | c :: y =>
    if is_high_surrogate c then
      match y with
      | d :: z =>
        if is_low_surrogate d then c :: d :: toWellFormed z
        else REPLACEMENT :: toWellFormed y
      | [] => [REPLACEMENT]
      end
    else if is_low_surrogate c then REPLACEMENT :: toWellFormed y
    else c :: toWellFormed y
  end.


(** Decimal rendering of an integer, as [Number.prototype.toString] gives
    for integral values. *)
Definition decimal (z : Z) : text :=
  utf16 (NilZero.string_of_int (Z.to_int z)).

End Text.
Import Text.

(** ** A backtracking matcher for the regular expressions of the source

    The constructs are those that occur in [codeBlockRegex]: literal runs,
    a character class, a class under [*] (greedy) or [*?] (lazy),
    concatenation and numbered capture groups.  Matching follows the
    ECMAScript backtracking order: the continuation [k] stands for the rest
    of the pattern, a greedy star offers the longest run first, a lazy one
    the shortest, and the first alternative on which the continuation
    succeeds is the match. *)

Module Regex.

Inductive regex : Type :=
| Lit (l : text)
| Class (p : N -> bool)
| Star (greedy : bool) (p : N -> bool)
| Seq (r1 r2 : regex)
| Group (i : nat) (r : regex).

(** Captures, most recent first. *)
Definition caps := list (nat * text).

Fixpoint capture (i : nat) (c : caps) : text :=
  match c with
  | [] => []
  | (j, s) :: c' => if Nat.eqb i j then s else capture i c'
  end.

Section Matcher.
Context {R : Type}.

Fixpoint star_greedy (p : N -> bool) (x : text) (k : text -> option R)
  : option R :=
  match x with
  | a :: y =>
    if p a then
      match star_greedy p y k with
      | Some r => Some r
      | None => k x
      end
    else k x
  | [] => k x
  end.

Fixpoint star_lazy (p : N -> bool) (x : text) (k : text -> option R)
  : option R :=
  match k x with
  | Some r => Some r
  | None =>
    match x with
    | a :: y => if p a then star_lazy p y k else None
    | [] => None
    end
  end.

Fixpoint rmatch (r : regex) (x : text) (c : caps)
         (k : text -> caps -> option R) : option R :=
  match r with
  | Lit l =>
    match strip_prefix l x with
    | Some y => k y c
    | None => None
    end
  | Class p =>
    match x with
    | a :: y => if p a then k y c else None
    | [] => None
    end
  | Star true p => star_greedy p x (fun y => k y c)
  | Star false p => star_lazy p x (fun y => k y c)
  | Seq r1 r2 => rmatch r1 x c (fun y c' => rmatch r2 y c' k)
  | Group i r' =>
    rmatch r' x c
      (fun y c' => k y ((i, take (length x - length y) x) :: c'))
  end.
End Matcher.

(** One attempt at the head of [x]: the captures and what follows the
    match. *)
Definition match_here (r : regex) (x : text) : option (caps * text) :=
  rmatch r x [] (fun y c => Some (c, y)).

(** [RegExp.prototype.exec] on a global regular expression.  The [lastIndex]
    of the regex object is represented by the suffix [x] of the subject that
    starts there: the attempt is made at [lastIndex], then one code unit
    further, and so on to the end of the subject.  On success the suffix
    after the match is the new [lastIndex]; [None] is JavaScript's [null]. *)
Fixpoint exec (r : regex) (x : text) : option (caps * text) :=
  match match_here r x with
  | Some m => Some m
  | None =>
    match x with
    | _ :: y => exec r y
    | [] => None
    end
  end.

End Regex.
Import Regex.

Declare Scope regex_scope.
Delimit Scope regex_scope with re.
Infix "+++" := Seq (at level 60, right associativity) : regex_scope.

(** [/```[\w]*\s*\n\/\/ FILE: (.*?)\n([\s\S]*?)\n```/g] *)
Definition codeBlockRegex : regex :=
  (Lit (utf16 "```") +++ Star true is_word +++ Star true is_space
   +++ Lit [LF] +++ Lit (utf16 "// FILE: ")
   +++ Group 1 (Star false is_dot) +++ Lit [LF]
   +++ Group 2 (Star false is_any) +++ Lit [LF] +++ Lit (utf16 "```"))%re.


(** ** JSON values

    What [response.json()] resolves to.  Numbers are restricted to integers;
    nothing below depends on a fractional value. *)

Module Json.

Inductive Json : Type :=
| JNull
| JBool (b : bool)
| JNum (z : Z)
| JStr (s : text)
| JArr (items : list Json)
| JObj (props : list (text * Json)).

Fixpoint assoc (key : text) (props : list (text * Json)) : option Json :=
  match props with
  | [] => None
  | (k, v) :: props' => if text_eqb key k then Some v else assoc key props'
  end.

(** [v.key] for a [v] that is not [null]; [None] is [undefined].  The keys
    read by the source ([value], [error], [message]) are no properties of
    strings, numbers, booleans or arrays. *)
Definition get_prop (v : Json) (key : text) : option Json :=
  match v with
  | JObj props => assoc key props
  | _ => None
  end.

(** ToBoolean. *)
Definition truthy (v : option Json) : bool :=
  match v with
  | None => false
  | Some JNull => false
  | Some (JBool b) => b
  | Some (JNum z) => negb (Z.eqb z 0)
  | Some (JStr s) => negb (text_eqb s [])
  | Some (JArr _) => true
  | Some (JObj _) => true
  end.

(** ToString, where the conversion returns.  It is exact on strings, on
    [null], on booleans, on integers of fewer than twenty-two digits and on
    arrays of these; an object is printed as [Object.prototype.toString]
    prints it.  An object that has a member [toString] of its own, for
    which the conversion throws, is not told apart: what depends on the
    text of an answer is stated for answers that are strings. *)
Fixpoint toString (v : Json) : text :=
  match v with
  | JNull => utf16 "null"
  | JBool true => utf16 "true"
  | JBool false => utf16 "false"
  | JNum z => decimal z
  | JStr s => s
  | JArr items =>
    (fix join (l : list Json) : text :=
       match l with
       | [] => []
       | a :: l' =>
         match a with JNull => [] | _ => toString a end
         ++ match l' with [] => [] | _ :: _ => 44 :: join l' end
       end) items
  | JObj _ => utf16 "[object Object]"
  end.

End Json.
Import Json.

(** ** The host: the part of the VS Code API that the extension calls

    [vscode.Uri.joinPath], [vscode.workspace.fs.createDirectory] and
    [vscode.workspace.fs.writeFile] belong to the editor, not to this
    repository.  They are an interface here; a file-system call returns the
    file system it leaves behind and, when its promise is rejected, the
    [message] of the error.  [Buffer.from(content, 'utf8')] is folded into
    [writeFile], and [readFile] gives back the text of a file: its bytes,
    read as UTF-8. *)

Class Host : Type := {
  Uri : Type;
  FS : Type;
  joinPath : Uri -> text -> Uri;
  createDirectory : Uri -> FS -> FS * option text;
  writeFile : Uri -> text -> FS -> FS * option text;
  readFile : FS -> Uri -> option text
}.

(** What a file system is assumed to do: a write that succeeds is read back
    as the text that its bytes hold, which is the text written unless a
    surrogate stands alone in it ([toWellFormed]), and no call disturbs the
    content of a file it does not write. *)
Class HostLaws (H : Host) : Prop := {
  createDirectory_read : forall d fs u,
    readFile (fst (createDirectory d fs)) u = readFile fs u;
  writeFile_read : forall u c fs,
    snd (writeFile u c fs) = None ->
    readFile (fst (writeFile u c fs)) u = Some (toWellFormed c);
  writeFile_read_other : forall u' c fs u,
    u <> u' -> readFile (fst (writeFile u' c fs)) u = readFile fs u
}.

(** Messages posted to the webview with [this._panel.webview.postMessage]. *)
Inductive UiMessage : Type :=
| StreamResponse (text : Json)
| ShowError (text : text)
| EndStream
| AddSystemMessage (text : text).

(** Notifications raised through [vscode.window]. *)
Inductive Notification : Type :=
| Information (message : text)
| Warning (message : text)
| Error (message : text).

(** The request given to [fetch]. *)
Record Request : Type := {
  url : text;
  method : text;
  authorization : text;
  contentType : text;
  prompt : text
}.

(** [response.json()]: rejected, or a value. *)
Inductive Body : Type :=
| BodyRejected (message : text)
| BodyJson (v : Json).

(** [await fetch(...)]: rejected, or a response. *)
Inductive FetchOutcome : Type :=
| FetchRejected (message : text)
| Response (ok : bool) (status : Z) (body : Body).

Section Extension.
Context {H : Host}.

(** What the extension observes and changes: the workspace file system,
    the messages posted to the panel (oldest first) and the notifications
    shown.  The panel is live for the whole request. *)
Record World : Type := {
  fs : FS;
  posted : list UiMessage;
  shown : list Notification
}.

(** What the awaited calls of one request resolve to:
    [vscode.authentication.getSession] ([None] when it rejects), [fetch],
    and [vscode.workspace.workspaceFolders] ([None] for [undefined]). *)
Record Env : Type := {
  session : option text;
  fetch : Request -> FetchOutcome;
  workspaceFolders : option (list Uri)
}.

(** *** Effects: state and exceptions *)

Inductive Completion (A : Type) : Type :=
| Normal (a : A)
| Throw (message : text).
Global Arguments Normal {A} a.
Global Arguments Throw {A} message.

Definition Eff (A : Type) : Type := World -> Completion A * World.

Definition ret {A} (a : A) : Eff A := fun w => (Normal a, w).

Definition throw {A} (message : text) : Eff A := fun w => (Throw message, w).

Definition bind {A B} (m : Eff A) (k : A -> Eff B) : Eff B :=
  fun w =>
    match m w with
    | (Normal a, w') => k a w'
    | (Throw e, w') => (Throw e, w')
    end.

(** [try { m } catch (err) { handler err.message }] *)
Definition try_catch {A} (m : Eff A) (handler : text -> Eff A) : Eff A :=
  fun w =>
    match m w with
    | (Normal a, w') => (Normal a, w')
    | (Throw e, w') => handler e w'
    end.

(** [try { m } finally { f }]: [f] runs on every exit; when it completes
    normally the completion of [m] stands. *)
Definition finally {A} (m : Eff A) (f : Eff unit) : Eff A :=
  fun w =>
    match m w with
    | (c, w') =>
      match f w' with
      | (Normal _, w'') => (c, w'')
      | (Throw e, w'') => (Throw e, w'')
      end
    end.

Definition postMessage (m : UiMessage) : Eff unit :=
  fun w => (Normal tt,
            {| fs := fs w; posted := posted w ++ [m]; shown := shown w |}).

Definition show (n : Notification) : Eff unit :=
  fun w => (Normal tt,
            {| fs := fs w; posted := posted w; shown := shown w ++ [n] |}).

(** A file-system call of the host, awaited: a rejection is thrown. *)
Definition fs_call (op : FS -> FS * option text) : Eff unit :=
  fun w =>
    match op (fs w) with
    | (fs', r) =>
      (match r with None => Normal tt | Some e => Throw e end,
       {| fs := fs'; posted := posted w; shown := shown w |})
    end.

End Extension.

Declare Scope eff_scope.
Delimit Scope eff_scope with eff.
Notation "x <- m ;; k" := (bind m (fun x => k))
  (at level 100, m at next level, k at level 200, right associativity)
  : eff_scope.
Notation "m ;; k" := (bind m (fun _ => k))
  (at level 100, k at level 200, right associativity) : eff_scope.

(** ** extension.js *)

Definition COPILOT_SCOPE : text := utf16 "Copilot.ReadWrite.All".

Definition ARCHITECT_PROMPT : text := utf16
"Você é um Arquiteto de Software sênior especialista em soluções Microsoft.
Sua tarefa é analisar a solicitação do usuário, criar um plano de alto nível, sugerir tecnologias do ecossistema Microsoft (Azure, .NET, etc.), definir a estrutura de arquivos e pastas e as interações entre os componentes.
NÃO ESCREVA CÓDIGO. Sua resposta deve ser clara, estruturada e em português.".

Definition CODER_PROMPT : text := utf16
"Você é um Programador expert. Sua tarefa é receber uma solicitação e implementá-la.
Você tem permissão para criar e modificar arquivos no workspace do usuário.
Para criar ou modificar um arquivo, use o seguinte formato de bloco de código, incluindo o comentário com o caminho completo do arquivo:

```linguagem
// FILE: caminho/completo/do/arquivo.ext
[código completo do arquivo aqui]
```

Responda em português e adicione todos os blocos de código necessários para completar a tarefa.".

Definition NO_RESPONSE : text := utf16 "Nenhuma resposta recebida.".

Definition ERROR_PREFIX : text :=
  utf16 "Erro ao se comunicar com o M365 Copilot: ".

Definition AUTHENTICATION_FAILED : text := utf16 "Authentication failed".

(** The [message] of the TypeError that V8 raises on a property read of
    [null] or [undefined]. *)
Definition type_error (of_what key : string) : text :=
  utf16 ("Cannot read properties of " ++ of_what ++ " (reading '" ++ key ++ "')").

Section ExtensionCode.
Context {H : Host}.
Local Open Scope eff_scope.

Definition getAccessToken (env : Env) : Eff text :=
  match session env with
  | Some accessToken => ret accessToken
  | None =>
    show (Error (utf16 "Falha na autenticação com a conta Microsoft. Verifique se você está logado e tem as permissões necessárias.")) ;;
    throw AUTHENTICATION_FAILED
  end.

(** [await response.json()] *)
Definition json (b : Body) : Eff Json :=
  match b with
  | BodyRejected e => throw e
  | BodyJson v => ret v
  end.

(** [errorBody.error?.message || 'Erro desconhecido'], as the template
    literal renders it. *)
Definition error_message (errorBody : Json) : Eff text :=
  match errorBody with
  | JNull => throw (type_error "null" "error")
  | _ =>
    let message :=
      match get_prop errorBody (utf16 "error") with
      | None | Some JNull => None
      | Some e => get_prop e (utf16 "message")
      end in
    ret (match message with
         | Some m => if truthy message then toString m
                     else utf16 "Erro desconhecido"
         | None => utf16 "Erro desconhecido"
         end)
  end.

(** [result.value || "Nenhuma resposta recebida."] *)
Definition value_or_default (result : Json) : Eff Json :=
  match result with
  | JNull => throw (type_error "null" "value")
  | _ =>
    let value := get_prop result (utf16 "value") in
    ret (match value with
         | Some v => if truthy value then v else JStr NO_RESPONSE
         | None => JStr NO_RESPONSE
         end)
  end.

(** The body of the [while] loop of [processAndWriteFiles] for one match
    [m]: the new value of [filesWritten]. *)
Definition write_match (rootPath : Uri) (m : caps) (filesWritten : N)
  : Eff N :=
  let filePath := trim (capture 1 m) in
  let fileContent := trim (capture 2 m) in
  try_catch
    (let absolutePath := joinPath rootPath filePath in
     fs_call (createDirectory (joinPath absolutePath (utf16 ".."))) ;;
     fs_call (writeFile absolutePath fileContent) ;;
     show (Information (utf16 "Arquivo salvo: " ++ filePath)) ;;
     ret (filesWritten + 1))
    (fun message =>
       show (Error (utf16 "Falha ao salvar o arquivo " ++ filePath
                    ++ utf16 ": " ++ message)) ;;
       ret filesWritten).

(** [while ((match = codeBlockRegex.exec(responseText)) !== null) {...}].
    [x] is what remains of [responseText] from the [lastIndex] of the
    regex on.  Each match takes at least one code unit, so [fuel] above
    the length of [x] is never used up (see [write_loop_fuel]). *)
Fixpoint write_loop (fuel : nat) (rootPath : Uri) (x : text)
         (filesWritten : N) : Eff N :=
  match fuel with
  | O => ret filesWritten
  | S fuel' =>
    match exec codeBlockRegex x with
    | None => ret filesWritten
    | Some (m, rest) =>
      n <- write_match rootPath m filesWritten ;;
      write_loop fuel' rootPath rest n
    end
  end.

Definition processAndWriteFiles (env : Env) (responseText : Json)
  : Eff unit :=
  match workspaceFolders env with
  | None =>
    show (Warning (utf16 "Abra um projeto (pasta) para que o agente possa criar arquivos."))
  | Some [] => throw (type_error "undefined" "uri")
  | Some (rootPath :: _) =>
    let subject := toString responseText in
    filesWritten <- write_loop (S (length subject)) rootPath subject 0 ;;
    if 0 <? filesWritten then
      postMessage (AddSystemMessage
        (decimal (Z.of_N filesWritten)
         ++ utf16 " arquivo(s) foram criados/modificados no seu projeto."))
    else ret tt
  end.

(** The request that [fetch] is given. *)
Definition copilot_request (accessToken agent userPrompt : text) : Request :=
  let systemPrompt :=
    if text_eqb agent (utf16 "architect") then ARCHITECT_PROMPT
    else CODER_PROMPT in
  let apiUrl := utf16 "https://graph.microsoft.com/beta/me/copilot/generate" in
  {| url := apiUrl;
     method := utf16 "POST";
     authorization := utf16 "Bearer " ++ accessToken;
     contentType := utf16 "application/json";
     prompt := systemPrompt ++ [LF; LF] ++ userPrompt |}.

(** The [try] block of [handleCopilotRequest]. *)
Definition request (env : Env) (userPrompt agent : text) : Eff unit :=
  accessToken <- getAccessToken env ;;
  match fetch env (copilot_request accessToken agent userPrompt) with
  | FetchRejected e => throw e
  | Response ok status body =>
    if negb ok then
      errorBody <- json body ;;
      detail <- error_message errorBody ;;
      throw (utf16 "API Error " ++ decimal status ++ utf16 ": " ++ detail)
    else
      result <- json body ;;
      copilotResponse <- value_or_default result ;;
      postMessage (StreamResponse copilotResponse) ;;
      if text_eqb agent (utf16 "coder") then
        processAndWriteFiles env copilotResponse
      else ret tt
  end.

(** Its [catch] block. *)
Definition report (message : text) : Eff unit :=
  let errorMessage := ERROR_PREFIX ++ message in
  show (Error errorMessage) ;;
  postMessage (ShowError errorMessage).

(** [try { ... } catch (err) { ... } finally { postMessage endStream }] *)
Definition handleCopilotRequest (env : Env) (userPrompt agent : text)
  : Eff unit :=
  finally (try_catch (request env userPrompt agent) report)
          (postMessage EndStream).

End ExtensionCode.

(** ** webview/script.js

    The chat surface.  The state is what the script reads and writes: the
    value of the prompt textarea and of the agent selector, the [disabled]
    flag of the send button, [currentBotMessageElement] and the chat log.
    An element of the log is its kind and its text; how the text is laid
    out ([innerHTML], [formatLastBotMessage]) is left out, it touches none
    of the other fields. *)

Module Webview.

Inductive Kind : Type := user | bot | system.

(** A message given to [vscode.postMessage]; the script sends only
    [sendMessageToCopilot]. *)
Record Submission : Type := { sub_text : text; sub_agent : text }.

Record Ui : Type := {
  promptValue : text;
  agentValue : text;
  sendDisabled : bool;
  currentBotMessageElement : option nat;
  messages : list (Kind * text);
  outbox : list Submission
}.

(** [addMessage(text, type)]: the new log and the index of the element. *)
Definition addMessage (t : text) (k : Kind) (ui : Ui) : Ui * nat :=
  ({| promptValue := promptValue ui; agentValue := agentValue ui;
      sendDisabled := sendDisabled ui;
      currentBotMessageElement := currentBotMessageElement ui;
      messages := messages ui ++ [(k, t)]; outbox := outbox ui |},
   length (messages ui)).

Definition sendMessage (ui : Ui) : Ui :=
  let t := promptValue ui in
  if text_eqb (trim t) [] then ui
  else
    let agent := agentValue ui in
    let ui1 := fst (addMessage t user ui) in
    let ui2 :=
      {| promptValue := []; agentValue := agentValue ui1;
         sendDisabled := true;
         currentBotMessageElement := currentBotMessageElement ui1;
         messages := messages ui1;
         outbox := outbox ui1 ++ [{| sub_text := t; sub_agent := agent |}] |} in
    let (ui3, el) := addMessage [] bot ui2 in
    {| promptValue := promptValue ui3; agentValue := agentValue ui3;
       sendDisabled := sendDisabled ui3;
       currentBotMessageElement := Some el;
       messages := messages ui3; outbox := outbox ui3 |}.

(** What the user does to the page. *)
Inductive DomEvent : Type :=
| Input (value : text)            (* edits the textarea *)
| Select (agent : text)           (* picks an agent *)
| Click                           (* clicks the send button *)
| Keydown (key : text) (shiftKey : bool).

Definition ENTER : text := utf16 "Enter".

(** The listeners registered with [addEventListener].  A disabled button
    dispatches no [click]; the [keydown] listener of the textarea calls
    [sendMessage] whatever the state of the button. *)
Definition on_dom (e : DomEvent) (ui : Ui) : Ui :=
  match e with
  | Input v =>
    {| promptValue := v; agentValue := agentValue ui;
       sendDisabled := sendDisabled ui;
       currentBotMessageElement := currentBotMessageElement ui;
       messages := messages ui; outbox := outbox ui |}
  | Select a =>
    {| promptValue := promptValue ui; agentValue := a;
       sendDisabled := sendDisabled ui;
       currentBotMessageElement := currentBotMessageElement ui;
       messages := messages ui; outbox := outbox ui |}
  | Click => if sendDisabled ui then ui else sendMessage ui
  | Keydown key shiftKey =>
    if text_eqb key ENTER && negb shiftKey then sendMessage ui else ui
  end.

(** The [message] listener of the window.  An element of the log is the
    string that the script gave it: [innerHTML += message.text] is read as
    appending the text.  That is what the element holds when the HTML
    parser reads the text as itself ([Format.plain_text]); markup in an
    answer is outside the model. *)
Definition on_message (m : UiMessage) (ui : Ui) : Ui :=
  match m with
  | StreamResponse t =>
    match currentBotMessageElement ui with
    | Some el =>
      {| promptValue := promptValue ui; agentValue := agentValue ui;
         sendDisabled := sendDisabled ui;
         currentBotMessageElement := currentBotMessageElement ui;
         messages :=
           alter (fun e => (fst e, snd e ++ toString t)) el (messages ui);
         outbox := outbox ui |}
    | None => ui
    end
  | EndStream =>
    {| promptValue := promptValue ui; agentValue := agentValue ui;
       sendDisabled := false;
       currentBotMessageElement := None;
       messages := messages ui; outbox := outbox ui |}
  | ShowError t =>
    let ui1 := fst (addMessage (utf16 "ERRO: " ++ t) system ui) in
    {| promptValue := promptValue ui1; agentValue := agentValue ui1;
       sendDisabled := false;
       currentBotMessageElement := currentBotMessageElement ui1;
       messages := messages ui1; outbox := outbox ui1 |}
  | AddSystemMessage t => fst (addMessage t system ui)
  end.

(** The page as the extension's HTML creates it: empty prompt, the coder
    agent selected, the button enabled. *)
Definition initial : Ui :=
  {| promptValue := []; agentValue := utf16 "coder"; sendDisabled := false;
     currentBotMessageElement := None; messages := []; outbox := [] |}.

End Webview.

(** ** One session: the panel and its webview

    [CorporateCopilotPanel]'s constructor registers
    [async message => { if (message.command === 'sendMessageToCopilot')
    await this.handleCopilotRequest(message.text, message.agent) }]:
    every submission received starts a [handleCopilotRequest], whose remote
    call stays pending until the environment resolves it.  [pending] holds
    the requests whose call has been started and has not completed yet. *)

Module Session.
Import Webview.

Section Session.
Context {H : Host}.

Record State : Type := {
  ui : Ui;
  pending : list Submission;
  world : World
}.

Inductive Event : Type :=
| Dom (e : DomEvent)
| Complete (env : Env).    (* the oldest pending request runs to its end *)

(** The submissions posted by the page since [before]. *)
Definition sent_since (before after : Ui) : list Submission :=
  drop (length (outbox before)) (outbox after).

Definition step (ev : Event) (s : State) : State :=
  match ev with
  | Dom e =>
    let ui' := on_dom e (ui s) in
    {| ui := ui'; pending := pending s ++ sent_since (ui s) ui';
       world := world s |}
  | Complete env =>
    match pending s with
    | [] => s
    | r :: rest =>
      let w' := snd (handleCopilotRequest env (sub_text r) (sub_agent r)
                       (world s)) in
      let delivered := drop (length (posted (world s))) (posted w') in
      {| ui := fold_left (fun u m => on_message m u) delivered (ui s);
         pending := rest; world := w' |}
    end
  end.

Definition run (evs : list Event) (s : State) : State :=
  fold_left (fun s ev => step ev s) evs s.

Definition start (w : World) : State :=
  {| ui := initial; pending := []; world := w |}.

End Session.
End Session.

(** ** A POSIX host

    An instance of the host interface, after the editor's behaviour on a
    POSIX file system.  A [Uri] is the location a [file:] URI names: the
    segments of its absolute, normalized path.  [joinPath] is
    [path.posix.join]: the fragment is appended after a separator and the
    result normalized, so empty and [.] segments vanish and [..] removes the
    segment before it (at the top there is nothing to remove).  A trailing
    separator does not change the location and is dropped. *)

Module Posix.

Fixpoint split_on (sep : N) (x : text) : list text :=
  match x with
  | [] => [[]]
  | c :: y =>
    if c =? sep then [] :: split_on sep y
    else
      match split_on sep y with
      | s :: ss => (c :: s) :: ss
      | [] => [[c]]
      end
  end.

Definition DOT : text := utf16 ".".
Definition DOTDOT : text := utf16 "..".

(** One segment of [normalizeString]; [stack] is the path so far, last
    segment first. *)
Definition push_segment (stack : list text) (seg : text) : list text :=
  if text_eqb seg [] || text_eqb seg DOT then stack
  else if text_eqb seg DOTDOT then tail stack
  else seg :: stack.

Definition join (base : list text) (fragment : text) : list text :=
  rev (fold_left push_segment (split_on SLASH fragment) (rev base)).

Inductive Node : Type :=
| File (content : text)
| Dir.

Abbreviation Files := (gmap (list text) Node).

Definition is_file (n : option Node) : bool :=
  match n with Some (File _) => true | _ => false end.

(** The path itself and every directory above it, the root excepted. *)
Fixpoint ancestors (p : list text) : list (list text) :=
  match p with
  | [] => []
  | s :: p' => [s] :: map (cons s) (ancestors p')
  end.

(** [createDirectory] creates the missing directories on the way
    ([mkdirp]); it is rejected when a file is in the way. *)
Definition mkdirp (d : list text) (fs : Files) : Files * option text :=
  if existsb (fun p => is_file (fs !! p)) (ancestors d)
  then (fs, Some (utf16 "EEXIST: file already exists"))
  else (foldr (fun p m => <[p := Dir]> m) fs (ancestors d), None).

(** [writeFile] creates or overwrites, with the bytes of
    [Buffer.from(c, 'utf8')]: the file holds the text that they are read
    as.  It is rejected on a directory. *)
Definition write (u : list text) (c : text) (fs : Files)
  : Files * option text :=
  match fs !! u with
  | Some Dir => (fs, Some (utf16 "EISDIR: illegal operation on a directory"))
  | _ =>
    match u with
    | [] => (fs, Some (utf16 "EISDIR: illegal operation on a directory"))
    | _ => (<[u := File (toWellFormed c)]> fs, None)
    end
  end.

Definition read (fs : Files) (u : list text) : option text :=
  match fs !! u with
  | Some (File c) => Some c
  | _ => None
  end.

#[export] Instance host : Host := {|
  Uri := list text;
  FS := Files;
  joinPath := join;
  createDirectory := mkdirp;
  writeFile := write;
  readFile := read
|}.

(** A location is inside the workspace when the root's segments begin it. *)
Definition inside (root u : list text) : Prop := root `prefix_of` u.

(** The fragment has a parent-directory segment. *)
Definition has_parent_segment (fragment : text) : bool :=
  existsb (fun s => text_eqb s DOTDOT) (split_on SLASH fragment).


(** The text holds no separator. *)
Definition no_slash (x : text) : Prop :=
  forallb (fun c => negb (c =? SLASH)) x = true.

(** A name that is a segment of its own: no separator, not empty, not a
    dot segment. *)
Definition plain (name : text) : Prop :=
  no_slash name
  /\ text_eqb name [] = false
  /\ text_eqb name DOT = false
  /\ text_eqb name DOTDOT = false.

End Posix.

(** ** The specification's view: extraction and application

    [extract] lists the intents that the loop of [processAndWriteFiles]
    goes through, and [apply_intents] what it does with them; the loop is
    proved to be their composition in [write_loop_spec]. *)

Record FileWriteIntent : Type := {
  relativePath : text;
  content : text
}.

(** One per intent; [error] is the message of the rejection, if any. *)
Record FileWriteOutcome : Type := {
  path : text;
  error : option text
}.

Definition succeeded (o : FileWriteOutcome) : bool :=
  match error o with None => true | Some _ => false end.

Definition intent_of (m : caps) : FileWriteIntent :=
  {| relativePath := trim (capture 1 m); content := trim (capture 2 m) |}.

Fixpoint extract_loop (fuel : nat) (x : text) : list FileWriteIntent :=
  match fuel with
  | O => []
  | S fuel' =>
    match exec codeBlockRegex x with
    | None => []
    | Some (m, rest) => intent_of m :: extract_loop fuel' rest
    end
  end.

Definition extract (responseText : text) : list FileWriteIntent :=
  extract_loop (S (length responseText)) responseText.

Section Apply.
Context {H : Host}.

(** The two file-system calls made for one intent. *)
Definition write_intent (rootPath : Uri) (i : FileWriteIntent) (f : FS)
  : FS * FileWriteOutcome :=
  let absolutePath := joinPath rootPath (relativePath i) in
  match createDirectory (joinPath absolutePath (utf16 "..")) f with
  | (f1, Some e) => (f1, {| path := relativePath i; error := Some e |})
  | (f1, None) =>
    match writeFile absolutePath (content i) f1 with
    | (f2, r) => (f2, {| path := relativePath i; error := r |})
    end
  end.

Fixpoint apply_intents (rootPath : Uri) (intents : list FileWriteIntent)
         (f : FS) : FS * list FileWriteOutcome :=
  match intents with
  | [] => (f, [])
  | i :: intents' =>
    let (f1, o) := write_intent rootPath i f in
    let (f2, os) := apply_intents rootPath intents' f1 in
    (f2, o :: os)
  end.

(** The notification shown for an outcome. *)
Definition notification_of (o : FileWriteOutcome) : Notification :=
  match error o with
  | None => Information (utf16 "Arquivo salvo: " ++ path o)
  | Some e =>
    Error (utf16 "Falha ao salvar o arquivo " ++ path o ++ utf16 ": " ++ e)
  end.

Fixpoint count_succeeded (os : list FileWriteOutcome) : N :=
  match os with
  | [] => 0
  | o :: os' => (if succeeded o then 1 else 0) + count_succeeded os'
  end.

End Apply.

(** *** Well-formed blocks, as section 6 of the specification writes them

    A fence opening with a language tag, the marker line, the body, and the
    closing fence on a line of its own. *)

Record Block : Type := {
  lang : text;
  marker_arg : text;
  body : text
}.

Definition FENCE : text := utf16 "```".
Definition MARKER : text := utf16 "// FILE: ".

Definition render_block (b : Block) : text :=
  FENCE ++ lang b ++ [LF] ++ MARKER ++ marker_arg b ++ [LF]
  ++ body b ++ [LF] ++ FENCE.

(** A response: blocks, each after some prose, and closing prose. *)
Fixpoint render (parts : list (text * Block)) (closing : text) : text :=
  match parts with
  | [] => closing
  | (prose, b) :: parts' => prose ++ render_block b ++ render parts' closing
  end.

(** The intent that a well-formed block stands for. *)
Definition intent_of_block (b : Block) : FileWriteIntent :=
  {| relativePath := trim (marker_arg b); content := trim (body b) |}.

Definition render_intent (i : FileWriteIntent) : Block :=
  {| lang := []; marker_arg := relativePath i; body := content i |}.

(** [occurs p x]: [p] occurs in [x]. *)
Fixpoint occurs (p x : text) : bool :=
  match strip_prefix p x with
  | Some _ => true
  | None =>
    match x with
    | _ :: y => occurs p y
    | [] => false
    end
  end.

Definition well_formed (b : Block) : Prop :=
  forallb is_word (lang b) = true
  /\ forallb is_dot (marker_arg b) = true
  /\ occurs (LF :: FENCE) (body b) = false.

Definition no_backtick (x : text) : Prop :=
  forallb (fun c => negb (c =? BACKTICK)) x = true.

(** The specification's words for the content of an intent: the body
    "trimmed of leading/trailing blank lines".  A blank line is a run of
    white space other than line feeds, ended by a line feed. *)
Fixpoint skip_blank_line (x : text) : option text :=
  match x with
  | c :: y =>
    if c =? LF then Some y
    else if is_space c then skip_blank_line y
    else None
  | [] => None
  end.

Fixpoint drop_blank_lines (fuel : nat) (x : text) : text :=
  match fuel with
  | O => x
  | S fuel' =>
    match skip_blank_line x with
    | Some y => drop_blank_lines fuel' y
    | None => x
    end
  end.

Definition trim_blank_lines (x : text) : text :=
  let y := drop_blank_lines (length x) x in
  rev (drop_blank_lines (length y) (rev y)).

(** *** What the panel is told

    The aggregate notice that ends [processAndWriteFiles], as a function of
    the number of files written. *)
Definition files_notice (n : N) : list UiMessage :=
  if 0 <? n then
    [AddSystemMessage
       (decimal (Z.of_N n)
        ++ utf16 " arquivo(s) foram criados/modificados no seu projeto.")]
  else [].

(** The terminal event. *)
Definition is_end (m : UiMessage) : bool :=
  match m with EndStream => true | _ => false end.

(** The remote call of a request fails: [fetch] is rejected, or the
    response is not [ok] (401 or any other status outside 200-299). *)
Definition remote_call_fails (o : FetchOutcome) : Prop :=
  match o with
  | FetchRejected _ => True
  | Response ok _ _ => ok = false
  end.

(** *** Responses with other fences

    An intent that [trim] leaves as it is. *)
Definition trimmed (i : FileWriteIntent) : Prop :=
  trim (relativePath i) = relativePath i /\ trim (content i) = content i.

(** A block whose marker line is followed at once by the closing fence. *)
Definition render_bodiless (tag arg : text) : text :=
  FENCE ++ tag ++ [LF] ++ MARKER ++ arg ++ [LF] ++ FENCE.

(** What a response is made of besides prose: blocks with the marker line,
    and fenced blocks without one. *)
Inductive Fenced : Type :=
| Marked (b : Block)
| Unmarked (tag body : text).

Definition render_fenced (f : Fenced) : text :=
  match f with
  | Marked b => render_block b
  | Unmarked tag body => FENCE ++ tag ++ [LF] ++ body ++ [LF] ++ FENCE
  end.

(** Fenced blocks, each followed by prose. *)
Fixpoint render_items (items : list (Fenced * text)) : text :=
  match items with
  | [] => []
  | (f, prose) :: items' => render_fenced f ++ prose ++ render_items items'
  end.

Definition starts_with_LF (x : text) : bool :=
  match x with
  | c :: _ => c =? LF
  | [] => false
  end.

(** A marked block is well formed.  A block without marker has a tag of
    word characters and a body without backtick, and neither the body nor
    the prose after it, which begins a new line, holds the marker. *)
Definition item_ok (fp : Fenced * text) : Prop :=
  no_backtick (snd fp)
  /\ match fst fp with
     | Marked b => well_formed b
     | Unmarked tag body =>
       forallb is_word tag = true
       /\ no_backtick body
       /\ occurs MARKER body = false
       /\ starts_with_LF (snd fp) = true
       /\ occurs MARKER (snd fp) = false
     end.

Fixpoint intents_of (items : list (Fenced * text)) : list FileWriteIntent :=
  match items with
  | [] => []
  | (Marked b, _) :: items' => intent_of_block b :: intents_of items'
  | (Unmarked _ _, _) :: items' => intents_of items'
  end.

Section Traces.
Context {H : Host}.

(** [posts_no_end m]: [m] only adds to the posted messages, and never the
    terminal one. *)
Definition posts_no_end {A} (m : Eff A) : Prop :=
  forall w, exists msgs,
    posted (snd (m w)) = posted w ++ msgs /\ existsb is_end msgs = false.

(** [returns m]: [m] completes normally, it never throws. *)
Definition returns {A} (m : Eff A) : Prop :=
  forall w, exists a, fst (m w) = Normal a.

End Traces.

(** *** The page and the panel together *)

Module Guard.
Import Webview Session.

Section Guard.
Context {H : Host}.

(** The user types a request and clicks the button, then types another one
    and presses Enter before the first is answered. *)
Definition second_submission_by_enter : list Event :=
  [Dom (Input (utf16 "first")); Dom Click;
   Dom (Input (utf16 "second")); Dom (Keydown ENTER false)].

(** The button alone keeps the promise: while the user only edits, selects
    and clicks, a request is pending only while the button is disabled, and
    never more than one. *)
Definition guarded (s : State) : Prop :=
  (length (pending s) <= 1)%nat
  /\ (sendDisabled (ui s) = false -> pending s = []).

Definition no_keydown (ev : Event) : Prop :=
  match ev with
  | Dom (Keydown _ _) => False
  | _ => True
  end.

End Guard.
End Guard.

(** *** Concrete responses, requests and workspaces *)

Module Examples.
Import Posix.

Definition workspace : list text :=
  [utf16 "home"; utf16 "user"; utf16 "project"].

Definition empty_world : World :=
  {| fs := (∅ : Files); posted := []; shown := [] |}.

Definition coder_env (reply : FetchOutcome) : Env :=
  {| session := Some (utf16 "token");
     fetch := fun _ => reply;
     workspaceFolders := Some [workspace] |}.


Definition indented_block : Block :=
  {| lang := utf16 "py"; marker_arg := utf16 "a.py"; body := utf16 "  x = 1" |}.

Definition indented_intent : FileWriteIntent :=
  {| relativePath := utf16 "a.py"; content := utf16 "  x = 1" |}.

Definition two_blocks : list (text * Block) :=
  [(utf16 "Here it is:
",
    {| lang := utf16 "js"; marker_arg := utf16 "a/b.js";
       body := utf16 "console.log(1)" |});
   (utf16 "
and the second file:
",
    {| lang := []; marker_arg := utf16 " README.md ";
       body := utf16 "
# Title

" |})].

Definition blank_block : Block :=
  {| lang := utf16 "txt"; marker_arg := utf16 "empty.txt"; body := [] |}.

Definition unterminated_block : text := utf16
"```js
// FILE: a.js
let a = 1
".

Definition following_block : Block :=
  {| lang := utf16 "py"; marker_arg := utf16 "b.py";
     body := utf16 "print(1)" |}.

Definition mixed_response : list (Fenced * text) :=
  [(Unmarked (utf16 "sh") (utf16 "npm install"), utf16 "
Then create the file:
");
   (Marked following_block, [LF]);
   (Unmarked [] (utf16 "plain output"), [LF])].

Definition opening_prose : text := utf16 "Run this first:
".

Definition unauthorized : FetchOutcome :=
  Response false 401
    (BodyJson (JObj [(utf16 "error",
                      JObj [(utf16 "message", JStr (utf16 "Unauthorized"))])])).

Definition empty_value : Json := JObj [(utf16 "value", JStr [])].

Definition PROMPT : text := utf16 "crie um arquivo".

Definition CODER : text := utf16 "coder".

Definition TOKEN : text := utf16 "token".

(** The first scenario of the specification. *)
Definition scenario_response : text := utf16
"intro
```js
// FILE: a/b.js
console.log(1)
```
".





(** A file, then a path beneath that file, then another file: the second
    write is rejected, the third is made all the same. *)
Definition blocked_response : text := utf16
"```
// FILE: a
one
```
```
// FILE: a/b
two
```
```
// FILE: c
three
```".

(** The workspace with a file named [a] in it. *)
Definition occupied_world : World :=
  {| fs := ({[ workspace ++ [utf16 "a"] := File (utf16 "one") ]} : Files);
     posted := []; shown := [] |}.

(** Two files beneath that file. *)
Definition beneath_a_file : text := utf16
"```
// FILE: a/b
two
```
```
// FILE: a/c
three
```".

End Examples.

(** ** webview/script.js: [formatLastBotMessage]

    The function reads the text of the last bot element, rewrites the
    fenced blocks in it and writes the result back.  [formatContent] is the
    rewriting of the text.  In the log of [Webview.Ui] an element is the
    string that the script gave it: what the listener appends with
    [innerHTML +=], what [textContent] reads, and what [innerHTML] is set
    to are one text, as in [Webview.on_message].  They are one text in the
    page as well when the answer is a [plain_text]; how the browser parses
    markup is not part of the model. *)

Module Format.
Import Webview.

(** The regular expression of [formatLastBotMessage]: a fence, the group
    of word characters [\w] under a greedy star, a line feed, the lazy
    group of any characters, a line feed and a fence; flag [g]. *)
Definition formatRegex : regex :=
  (Lit (utf16 "```") +++ Group 1 (Star true is_word) +++ Lit [LF]
   +++ Group 2 (Star false is_any) +++ Lit [LF] +++ Lit (utf16 "```"))%re.

(** The first match at the head of [x] or after it, with the text passed
    over before the match. *)
Fixpoint search (r : regex) (x : text) : option (text * caps * text) :=
  match match_here r x with
  | Some (c, rest) => Some ([], c, rest)
  | None =>
    match x with
    | a :: y =>
      match search r y with
      | Some (skipped, c, rest) => Some (a :: skipped, c, rest)
      | None => None
      end
    | [] => None
    end
  end.

(** [String.prototype.replace] with a global regular expression and a
    replacer function: the text between the matches is kept, each match
    gives way to what the replacer returns.  The regular expression is one
    whose matches are never empty, as [formatRegex] is; [fuel] above the
    length of [x] is never used up. *)
Fixpoint replace_loop (fuel : nat) (r : regex) (replacer : caps -> text)
         (x : text) : text :=
  match fuel with
  | O => x
  | S fuel' =>
    match search r x with
    | None => x
    | Some (skipped, c, rest) =>
      skipped ++ replacer c ++ replace_loop fuel' r replacer rest
    end
  end.

Definition replace (r : regex) (replacer : caps -> text) (x : text) : text :=
  replace_loop (S (length x)) r replacer x.

(** [x.replace(/c/g, by)] for a single code unit [c] and a replacement
    without [$]. *)
Definition replace_unit (c : N) (by_ : text) (x : text) : text :=
  List.flat_map (fun a => if a =? c then by_ else [a]) x.

Definition LESS : N := 60.
Definition GREATER : N := 62.
Definition QUOTE : N := 34.

(** [code.replace(/</g, "&lt;").replace(/>/g, "&gt;")] *)
Definition escapeCode (code : text) : text :=
  replace_unit GREATER (utf16 "&gt;") (replace_unit LESS (utf16 "&lt;") code).

Definition AMPERSAND : N := 38.

(** A text that the HTML parser reads as itself: no [<] and no [&], which
    begin markup, no U+0000, which the parser drops, and no carriage
    return, which it turns into a line feed.  Given to [innerHTML], such a
    text is what [textContent] reads back. *)
Definition plain_text (x : text) : Prop :=
  forallb (fun c => negb (c =? LESS) && negb (c =? AMPERSAND)
                    && negb (c =? 0) && negb (c =? CR)) x = true.

(** Neither [<] nor [>]. *)
Definition no_angle (c : N) : bool := negb (c =? LESS) && negb (c =? GREATER).

(** The element written for a block with tag [lang] and the escaped,
    trimmed code [inner]. *)
Definition pre_code (lang inner : text) : text :=
  utf16 "<pre><code class=" ++ [QUOTE] ++ utf16 "language-" ++ lang
  ++ [QUOTE] ++ utf16 ">" ++ inner ++ utf16 "</code></pre>".

(** The replacer [(match, lang, code) => ...]. *)
Definition replacer (c : caps) : text :=
  let lang := capture 1 c in
  let code := capture 2 c in
  let escapedCode := escapeCode code in
  pre_code lang (trim escapedCode).

Definition formatContent (content : text) : text :=
  replace formatRegex replacer content.

(** The index of the last element of kind [bot], if any
    ([querySelectorAll('.bot-message')], last node). *)
Fixpoint last_bot (log : list (Kind * text)) : option nat :=
  match log with
  | [] => None
  | (k, _) :: log' =>
    match last_bot log' with
    | Some i => Some (S i)
    | None => match k with bot => Some O | _ => None end
    end
  end.

Definition formatLastBotMessage (ui : Ui) : Ui :=
  match last_bot (messages ui) with
  | None => ui
  | Some i =>
    {| promptValue := promptValue ui; agentValue := agentValue ui;
       sendDisabled := sendDisabled ui;
       currentBotMessageElement := currentBotMessageElement ui;
       messages :=
         alter (fun e => (fst e, formatContent (snd e))) i (messages ui);
       outbox := outbox ui |}
  end.

End Format.

(** ** webview/script.js: the [message] listener, with its formatting

    [Webview.on_message] leaves the log as it is on [endStream]; the
    listener of the script also calls [formatLastBotMessage] there, after
    it has enabled the button and dropped the current bot element. *)

Module Page.
Import Webview Session Format.

Definition on_message (m : UiMessage) (ui : Ui) : Ui :=
  match m with
  | EndStream => formatLastBotMessage (Webview.on_message EndStream ui)
  | _ => Webview.on_message m ui
  end.

(** A submission whose text [trim] does not empty. *)
Definition has_text (s : Submission) : Prop :=
  text_eqb (trim (sub_text s)) [] = false.

Section Page.
Context {H : Host}.

(** [Session.step] with this listener. *)
Definition step (ev : Event) (s : State) : State :=
  match ev with
  | Dom e =>
    let ui' := on_dom e (ui s) in
    {| ui := ui'; pending := pending s ++ sent_since (ui s) ui';
       world := world s |}
  | Complete env =>
    match pending s with
    | [] => s
    | r :: rest =>
      let w' := snd (handleCopilotRequest env (sub_text r) (sub_agent r)
                       (world s)) in
      let delivered := drop (length (posted (world s))) (posted w') in
      {| ui := fold_left (fun u m => on_message m u) delivered (ui s);
         pending := rest; world := w' |}
    end
  end.

Definition run (evs : list Event) (s : State) : State :=
  fold_left (fun s ev => step ev s) evs s.

End Page.
End Page.

(** ** extension.js: [getNonce]

    [draw i] is what [Math.floor(Math.random() * possible.length)] gives in
    the iteration [i] of the loop: the random number is the environment's,
    and only its integer outcome is kept. *)

Module Nonce.

Definition possible : text :=
  utf16 "ABCDEFGHIJKLMNOPQRSTUVWXYZabcdefghijklmnopqrstuvwxyz0123456789".

(** [s.charAt(i)]: the empty string beyond the end. *)
Definition charAt (i : nat) (s : text) : text :=
  match s !! i with
  | Some c => [c]
  | None => []
  end.

(** [for (let i = ...; i < 32; i++) text += possible.charAt(...)], with
    [n] iterations left. *)
Fixpoint nonce_loop (n i : nat) (draw : nat -> nat) (acc : text) : text :=
  match n with
  | O => acc
  | S n' => nonce_loop n' (S i) draw (acc ++ charAt (draw i) possible)
  end.

Definition getNonce (draw : nat -> nat) : text := nonce_loop 32 0 draw [].

(** A letter or a digit. *)
Definition is_alnum (c : N) : bool :=
  ((65 <=? c) && (c <=? 90)) || ((97 <=? c) && (c <=? 122))
  || ((48 <=? c) && (c <=? 57)).

End Nonce.

(** ** extension.js: [createOrShow], the constructor and [dispose]

    The panels that [vscode.window.createWebviewPanel] has made, in the
    order of their making, and [CorporateCopilotPanel.currentPanel].  A
    panel is the editor's object together with the [CorporateCopilotPanel]
    built around it: [listening] are the listeners registered on the panel
    and still active, [disposables] the [_disposables] array of the
    instance (last pushed last).  Of the editor this is assumed: a panel's
    [dispose] does nothing the second time, and the first time it fires the
    [onDidDispose] listeners before it returns; [reveal] on a disposed panel
    is an error, counted in [faults].  The HTML given to the webview by
    [_update] is left out. *)

Module Lifecycle.

Inductive Subscription : Type := OnDidDispose | OnDidReceiveMessage.

Definition sub_eqb (a b : Subscription) : bool :=
  match a, b with
  | OnDidDispose, OnDidDispose => true
  | OnDidReceiveMessage, OnDidReceiveMessage => true
  | _, _ => false
  end.

Record Panel : Type := {
  disposed : bool;
  viewColumn : N;
  reveals : nat;
  listening : list Subscription;
  disposables : list Subscription
}.

Record Registry : Type := {
  currentPanel : option nat;
  panels : list Panel;
  faults : nat
}.

Definition VIEW_COLUMN_ONE : N := 1.

Definition update (f : Panel -> Panel) (id : nat) (r : Registry) : Registry :=
  {| currentPanel := currentPanel r;
     panels := alter f id (panels r);
     faults := faults r |}.

(** [vscode.window.createWebviewPanel(viewType, title, column, options)] *)
Definition createWebviewPanel (column : N) (r : Registry) : nat * Registry :=
  (length (panels r),
   {| currentPanel := currentPanel r;
      panels := panels r ++ [{| disposed := false; viewColumn := column;
                                reveals := 0; listening := [];
                                disposables := [] |}];
      faults := faults r |}).

(** [panel.onX(listener, null, this._disposables)]: the listener is
    registered and its disposable pushed on [_disposables]. *)
Definition subscribe (s : Subscription) (id : nat) (r : Registry) : Registry :=
  update (fun p => {| disposed := disposed p; viewColumn := viewColumn p;
                      reveals := reveals p;
                      listening := listening p ++ [s];
                      disposables := disposables p ++ [s] |}) id r.

(** [new CorporateCopilotPanel(panel, extensionUri)] *)
Definition construct (id : nat) (r : Registry) : Registry :=
  subscribe OnDidReceiveMessage id (subscribe OnDidDispose id r).

(** [panel.reveal(column)] *)
Definition reveal (column : option N) (id : nat) (r : Registry) : Registry :=
  match panels r !! id with
  | Some p =>
    if disposed p then
      {| currentPanel := currentPanel r; panels := panels r;
         faults := S (faults r) |}
    else
      update (fun p => {| disposed := disposed p;
                          viewColumn := match column with
                                        | Some c => c
                                        | None => viewColumn p
                                        end;
                          reveals := S (reveals p);
                          listening := listening p;
                          disposables := disposables p |}) id r
  | None =>
    {| currentPanel := currentPanel r; panels := panels r;
       faults := S (faults r) |}
  end.

(** [column] is [activeTextEditor ? activeTextEditor.viewColumn :
    undefined]. *)
Definition createOrShow (column : option N) (r : Registry) : Registry :=
  match currentPanel r with
  | Some id => reveal column id r
  | None =>
    let (id, r1) :=
      createWebviewPanel
        (match column with
         | Some c => if c =? 0 then VIEW_COLUMN_ONE else c
         | None => VIEW_COLUMN_ONE
         end) r in
    let r2 := construct id r1 in
    {| currentPanel := Some id; panels := panels r2; faults := faults r2 |}
  end.

(** [x.dispose()] for a disposable of the panel [id]: the listener is
    removed. *)
Definition unsubscribe (id : nat) (r : Registry) (s : Subscription)
  : Registry :=
  update (fun p => {| disposed := disposed p; viewColumn := viewColumn p;
                      reveals := reveals p;
                      listening :=
                        List.filter (fun s' => negb (sub_eqb s s'))
                                    (listening p);
                      disposables := disposables p |}) id r.

(** [while (this._disposables.length) { const x = this._disposables.pop();
    if (x) { x.dispose(); } }] *)
Definition drain (id : nat) (r : Registry) : Registry :=
  match panels r !! id with
  | Some p =>
    update (fun p => {| disposed := disposed p; viewColumn := viewColumn p;
                        reveals := reveals p; listening := listening p;
                        disposables := [] |}) id
           (fold_left (unsubscribe id) (rev (disposables p)) r)
  | None => r
  end.

Definition clear_current (r : Registry) : Registry :=
  {| currentPanel := None; panels := panels r; faults := faults r |}.

(** [dispose()] of the instance around the panel [id], given the
    editor's [panel.dispose()]:
    [CorporateCopilotPanel.currentPanel = undefined; this._panel.dispose();
    while (this._disposables.length) {...}]. *)
Definition dispose_with (panel_dispose : nat -> Registry -> Registry)
           (id : nat) (r : Registry) : Registry :=
  drain id (panel_dispose id (clear_current r)).

(** [panel.dispose()], the editor's.  When the panel is live it is marked
    disposed and the [onDidDispose] listener runs: [() => this.dispose()],
    whose own call of [panel.dispose()] then finds the panel disposed.
    [depth] bounds this nesting; one level is all that is ever entered
    (see [panel_dispose_depth]). *)
Fixpoint panel_dispose (depth : nat) (id : nat) (r : Registry) : Registry :=
  match panels r !! id with
  | None => r
  | Some p =>
    if disposed p then r
    else
      let r1 :=
        update (fun p => {| disposed := true; viewColumn := viewColumn p;
                            reveals := reveals p; listening := listening p;
                            disposables := disposables p |}) id r in
      if existsb (sub_eqb OnDidDispose) (listening p) then
        match depth with
        | O => r1
        | S depth' => dispose_with (panel_dispose depth') id r1
        end
      else r1
  end.

Definition dispose (id : nat) (r : Registry) : Registry :=
  dispose_with (panel_dispose 1) id r.

(** What happens to the extension: the command
    [m365-corporate-agent.start] is run, or the user closes a panel. *)
Inductive Event : Type :=
| Start (column : option N)
| Close (id : nat).

Definition step (r : Registry) (ev : Event) : Registry :=
  match ev with
  | Start column => createOrShow column r
  | Close id => panel_dispose 1 id r
  end.

Definition run (evs : list Event) (r : Registry) : Registry :=
  fold_left step evs r.

(** Nothing has been opened yet. *)
Definition initial : Registry :=
  {| currentPanel := None; panels := []; faults := 0 |}.

Definition live (r : Registry) (id : nat) : Prop :=
  exists p, panels r !! id = Some p /\ disposed p = false.

(** A live panel has its two listeners, a disposed one none. *)
Definition wired (p : Panel) : Prop :=
  if disposed p then listening p = [] /\ disposables p = []
  else listening p = [OnDidDispose; OnDidReceiveMessage]
       /\ disposables p = [OnDidDispose; OnDidReceiveMessage].

(** Every panel is wired, the live ones are the current one, and no
    [reveal] has failed. *)
Definition consistent (r : Registry) : Prop :=
  (forall id p, panels r !! id = Some p ->
                wired p /\ (disposed p = false -> currentPanel r = Some id))
  /\ (forall id, currentPanel r = Some id -> live r id)
  /\ faults r = 0%nat.

End Lifecycle.

(** *** What a computation leaves alone

    [respects R m]: the world after [m] is related by [R] to the world
    before. *)

Section Respects.
Context {H : Host}.

Definition respects (R : World -> World -> Prop) {A} (m : Eff A) : Prop :=
  forall w, R w (snd (m w)).

(** The file system is the same. *)
Definition same_fs (w w' : World) : Prop := fs w' = fs w.

(** Messages satisfying [P] have been posted, and nothing else. *)
Definition posted_more (P : UiMessage -> bool) (w w' : World) : Prop :=
  exists msgs, posted w' = posted w ++ msgs /\ forallb P msgs = true.

End Respects.

Definition is_notice (m : UiMessage) : bool :=
  match m with
  | AddSystemMessage _ | ShowError _ => true
  | _ => false
  end.

(** *** Outcomes of the remote call *)

Section Outcomes.
Context {H : Host}.

(** A response is in hand: the session is open, the call succeeds, and the
    body is an object whose [value] is the truthy [v]. *)
Definition answered (env : Env) (userPrompt agent : text) (v : Json) : Prop :=
  exists accessToken status result,
    session env = Some accessToken
    /\ fetch env (copilot_request accessToken agent userPrompt)
       = Response true status (BodyJson result)
    /\ result <> JNull
    /\ get_prop result (utf16 "value") = Some v
    /\ truthy (Some v) = true.

(** The notice of [getAccessToken]. *)
Definition LOGIN_NOTICE : text := utf16 "Falha na autenticação com a conta Microsoft. Verifique se você está logado e tem as permissões necessárias.".

(** The request failed with the detail [detail] of the server. *)
Definition api_error (status : Z) (detail : text) : text :=
  ERROR_PREFIX ++ utf16 "API Error " ++ decimal status ++ utf16 ": " ++ detail.

End Outcomes.

(** *** What the loop takes from a response

    An intent as [processAndWriteFiles] makes them: trimmed, the path on
    one line, the content without a line that begins with a fence. *)
Definition sound (i : FileWriteIntent) : Prop :=
  trimmed i
  /\ forallb is_dot (relativePath i) = true
  /\ occurs (LF :: FENCE) (content i) = false.

(** *** Cases

    Concrete requests, pages and responses on the POSIX host, in the
    workspace of [Examples]. *)

Module Cases.
Import Posix Examples Webview.

(** A successful reply whose [value] is [v]. *)
Definition answer (v : Json) : FetchOutcome :=
  Response true 200 (BodyJson (JObj [(utf16 "value", v)])).

Definition env_with (folders : option (list (list text)))
           (reply : FetchOutcome) : Env :=
  {| session := Some TOKEN;
     fetch := fun _ => reply;
     workspaceFolders := folders |}.

Definition logged_out : Env :=
  {| session := None;
     fetch := fun _ => FetchRejected [];
     workspaceFolders := Some [workspace] |}.

Definition DONE : text := utf16 "Tudo pronto.".

Definition OLA : Json := JStr DONE.

Definition ARCHITECT : text := utf16 "architect".

(** The agent that the demonstration of the repository speaks of; the
    extension has no prompt for it. *)
Definition EXPLORER : text := utf16 "explorer".

Definition server_error : FetchOutcome :=
  Response false 500 (BodyJson (JObj [])).

Definition bad_gateway : FetchOutcome :=
  Response false 502 (BodyRejected (utf16 "Unexpected token < in JSON")).

Definition SECOND_PROMPT : text := utf16 "e os testes?".

(** A page with one request under way. *)
Definition waiting : Session.State :=
  {| Session.ui :=
       {| promptValue := []; agentValue := CODER; sendDisabled := true;
          currentBotMessageElement := Some 1%nat;
          messages := [(user, PROMPT); (bot, [])];
          outbox := [{| sub_text := PROMPT; sub_agent := CODER |}] |};
     Session.pending := [{| sub_text := PROMPT; sub_agent := CODER |}];
     Session.world := empty_world |}.


Definition PROSE : text := utf16 "Veja: ".
Definition TAG : text := utf16 "js".
Definition CODE : text := utf16 "if (a < b) { go(); }".
Definition REST : text := utf16 " Fim.".

(** A location outside the workspace. *)
Definition outside : list text := [utf16 "etc"; utf16 "passwd"].

(** The command is run, and the panel closed. *)
Definition opened_and_closed : list Lifecycle.Event :=
  [Lifecycle.Start None; Lifecycle.Close 0].

Definition closed_panel : Lifecycle.Panel :=
  {| Lifecycle.disposed := true; Lifecycle.viewColumn := 1;
     Lifecycle.reveals := 0; Lifecycle.listening := [];
     Lifecycle.disposables := [] |}.

End Cases.

(** * Properties *)

(** ** Text *)

Lemma FENCE_units : FENCE = [96; 96; 96].
Proof. reflexivity. Qed.

Lemma MARKER_units : MARKER = [47; 47; 32; 70; 73; 76; 69; 58; 32].
Proof. reflexivity. Qed.

Lemma strip_prefix_app (l x : text) : strip_prefix l (l ++ x) = Some x.
Proof.
  induction l as [|a l IH]; simpl; [reflexivity|].
  rewrite N.eqb_refl. exact IH.
Qed.

Lemma strip_prefix_Some (l x y : text) :
  strip_prefix l x = Some y -> x = l ++ y.
Proof.
  revert x. induction l as [|a l IH]; intros x Hx; simpl in *.
  - congruence.
  - destruct x as [|b x]; [discriminate|].
    destruct (N.eqb_spec a b) as [->|]; [|discriminate].
    f_equal. apply IH. exact Hx.
Qed.

Lemma text_eqb_eq (x y : text) : text_eqb x y = true <-> x = y.
Proof.
  revert y. induction x as [|a x IH]; intros [|b y]; simpl; split;
    try congruence; try discriminate.
  - intros Hab. apply andb_true_iff in Hab as [Ha Hx].
    apply N.eqb_eq in Ha. apply IH in Hx. congruence.
  - intros [= -> ->]. rewrite N.eqb_refl. simpl. apply IH. reflexivity.
Qed.

(** Literals of the source hold their accented letters as one code unit
    each. *)
Example utf16_accents : utf16 "código à" = [99; 243; 100; 105; 103; 111; 32; 224].
Proof. reflexivity. Qed.

Lemma trimStart_all_space (x : text) :
  forallb is_space x = true -> trimStart x = [].
Proof.
  induction x as [|a x IH]; simpl; [reflexivity|].
  intros Hx. apply andb_true_iff in Hx as [Ha Hx]. rewrite Ha. auto.
Qed.

Lemma trim_all_space (x : text) : forallb is_space x = true -> trim x = [].
Proof.
  intros Hx. unfold trim, trimEnd. rewrite (trimStart_all_space x Hx).
  reflexivity.
Qed.

(** ** The matcher *)

Section MatcherFacts.
Context {R : Type}.
Implicit Types (k : text -> option R) (p : N -> bool).

Lemma star_greedy_run p w x k r :
  forallb p w = true ->
  star_greedy p x k = Some r ->
  star_greedy p (w ++ x) k = Some r.
Proof.
  intros Hw Hx. induction w as [|a w IH]; simpl in *; [exact Hx|].
  apply andb_true_iff in Hw as [Ha Hw]. rewrite Ha, (IH Hw). reflexivity.
Qed.

Lemma star_greedy_stop p a y k :
  p a = false -> star_greedy p (a :: y) k = k (a :: y).
Proof. intros Ha. simpl. rewrite Ha. reflexivity. Qed.

Lemma star_lazy_here p x k r : k x = Some r -> star_lazy p x k = Some r.
Proof. intros Hk. destruct x; simpl; rewrite Hk; reflexivity. Qed.

Lemma star_lazy_skip p w x k :
  forallb p w = true ->
  (forall w1 w2, w = w1 ++ w2 -> w2 <> [] -> k (w2 ++ x) = None) ->
  star_lazy p (w ++ x) k = star_lazy p x k.
Proof.
  induction w as [|a w IH]; intros Hw Hk; [reflexivity|].
  simpl in Hw. apply andb_true_iff in Hw as [Ha Hw].
  change ((a :: w) ++ x) with (a :: (w ++ x)). simpl.
  assert (H0 : k (a :: w ++ x) = None)
    by (apply (Hk [] (a :: w)); [reflexivity|discriminate]).
  rewrite H0, Ha.
  apply IH; [exact Hw|].
  intros w1 w2 -> Hne. apply (Hk (a :: w1) w2); [reflexivity|exact Hne].
Qed.

(** Whatever a star hands to its continuation is a suffix of its input. *)
Lemma star_greedy_suffix p x k r :
  star_greedy p x k = Some r ->
  exists y, k y = Some r /\ (length y <= length x)%nat.
Proof.
  induction x as [|a x IH]; simpl; intros Hr.
  - exists []. auto.
  - destruct (p a).
    + destruct (star_greedy p x k) as [r'|] eqn:E.
      * inversion Hr; subst. destruct (IH eq_refl) as (y & Hy & Hl).
        exists y. split; [exact Hy|lia].
      * exists (a :: x). auto.
    + exists (a :: x). auto.
Qed.

Lemma star_lazy_suffix p x k r :
  star_lazy p x k = Some r ->
  exists y, k y = Some r /\ (length y <= length x)%nat.
Proof.
  induction x as [|a x IH]; simpl; intros Hr.
  - destruct (k []) eqn:E; [|discriminate]. exists []. split; [congruence|reflexivity].
  - destruct (k (a :: x)) eqn:E.
    + exists (a :: x). split; [congruence|reflexivity].
    + destruct (p a); [|discriminate].
      destruct (IH Hr) as (y & Hy & Hl). exists y. split; [exact Hy|simpl; lia].
Qed.

Lemma rmatch_suffix (r : regex) x c (k : text -> caps -> option R) res :
  rmatch r x c k = Some res ->
  exists y c', k y c' = Some res /\ (length y <= length x)%nat.
Proof.
  revert x c k. induction r as [l|p|g p|r1 IH1 r2 IH2|i r IH];
    intros x c k Hm; simpl in Hm.
  - destruct (strip_prefix l x) as [y|] eqn:E; [|discriminate].
    apply strip_prefix_Some in E. subst x. exists y, c. split; [exact Hm|].
    rewrite length_app. lia.
  - destruct x as [|a y]; [discriminate|]. destruct (p a); [|discriminate].
    exists y, c. split; [exact Hm|simpl; lia].
  - destruct g.
    + apply star_greedy_suffix in Hm as (y & Hy & Hl). eauto.
    + apply star_lazy_suffix in Hm as (y & Hy & Hl). eauto.
  - apply IH1 in Hm as (y & c1 & Hy & Hl).
    apply IH2 in Hy as (z & c2 & Hz & Hl2). exists z, c2. split; [exact Hz|lia].
  - apply IH in Hm as (y & c1 & Hy & Hl). eauto.
Qed.

End MatcherFacts.

(** A match of [codeBlockRegex] starts with the fence, so it is not empty
    and begins at a backtick. *)
Lemma match_here_shorter x m rest :
  match_here codeBlockRegex x = Some (m, rest) ->
  (length rest < length x)%nat.
Proof.
  unfold match_here, codeBlockRegex.
  match goal with
  | |- rmatch (Seq _ ?t) _ _ _ = _ -> _ => remember t as tl
  end.
  cbn [rmatch].
  destruct (strip_prefix (utf16 "```") x) as [x1|] eqn:E; [|discriminate].
  apply strip_prefix_Some in E. subst x. intros Hm.
  apply rmatch_suffix in Hm as (y & c' & Hy & L).
  inversion Hy; subst. rewrite length_app.
  change (length (utf16 "```")) with 3%nat. lia.
Qed.

Lemma match_here_not_backtick a x :
  a <> BACKTICK -> match_here codeBlockRegex (a :: x) = None.
Proof.
  intros Ha. unfold match_here, codeBlockRegex. cbn [rmatch].
  change (utf16 "```") with [BACKTICK; BACKTICK; BACKTICK].
  cbn [strip_prefix]. destruct (N.eqb_spec BACKTICK a); [congruence|reflexivity].
Qed.

Lemma exec_shorter x m rest :
  exec codeBlockRegex x = Some (m, rest) -> (length rest < length x)%nat.
Proof.
  induction x as [|a x IH]; cbn [exec].
  - destruct (match_here codeBlockRegex []) as [[m' r']|] eqn:E; [|discriminate].
    intros [= -> ->]. apply match_here_shorter in E. exact E.
  - destruct (match_here codeBlockRegex (a :: x)) as [[m' r']|] eqn:E.
    + intros [= -> ->]. apply match_here_shorter in E. exact E.
    + intros Hx. apply IH in Hx. simpl. lia.
Qed.

Lemma exec_skip_prose prose x :
  no_backtick prose ->
  exec codeBlockRegex (prose ++ x) = exec codeBlockRegex x.
Proof.
  unfold no_backtick. induction prose as [|a prose IH]; [reflexivity|].
  simpl forallb. intros Hp. apply andb_true_iff in Hp as [Ha Hp].
  change ((a :: prose) ++ x) with (a :: (prose ++ x)).
  cbn [exec]. rewrite match_here_not_backtick.
  - apply IH. exact Hp.
  - intros ->. discriminate.
Qed.

Lemma exec_here x m :
  match_here codeBlockRegex x = Some m -> exec codeBlockRegex x = Some m.
Proof. intros Hm. destruct x; cbn [exec]; rewrite Hm; reflexivity. Qed.

Lemma fence_not_in_tail (w2 rest : text) :
  w2 <> [] ->
  strip_prefix (LF :: FENCE) w2 = None ->
  strip_prefix (LF :: FENCE) (w2 ++ LF :: FENCE ++ rest) = None.
Proof.
  rewrite FENCE_units. unfold LF.
  destruct w2 as [|a [|b [|c [|d w]]]]; intros Hne; [congruence|..];
    cbn [strip_prefix app];
    repeat match goal with
           | |- context [N.eqb ?u ?v] => destruct (N.eqb_spec u v); subst
           end; try discriminate; try reflexivity; try congruence.
Qed.

Lemma occurs_suffix (p w1 w2 : text) :
  occurs p (w1 ++ w2) = false -> strip_prefix p w2 = None.
Proof.
  induction w1 as [|a w1 IH]; simpl app; intros Ho.
  - destruct w2; cbn [occurs] in Ho; destruct (strip_prefix p _); congruence.
  - cbn [occurs] in Ho. destruct (strip_prefix p (a :: w1 ++ w2)); [discriminate|].
    apply IH. exact Ho.
Qed.

Section Pieces.
Context {R : Type}.
Implicit Types (k : text -> caps -> option R).

Lemma rmatch_seq r1 r2 x c k :
  rmatch (r1 +++ r2)%re x c k = rmatch r1 x c (fun y c' => rmatch r2 y c' k).
Proof. reflexivity. Qed.

Lemma rmatch_greedy p x c k :
  rmatch (Star true p) x c k = star_greedy p x (fun y => k y c).
Proof. reflexivity. Qed.

Lemma rmatch_lit l x c k : rmatch (Lit l) (l ++ x) c k = k x c.
Proof. cbn [rmatch]. rewrite strip_prefix_app. reflexivity. Qed.

Lemma rmatch_lit_mismatch a l b y c k :
  a <> b -> rmatch (Lit (a :: l)) (b :: y) c k = None.
Proof.
  intros Hab. cbn [rmatch strip_prefix].
  destruct (N.eqb_spec a b); [contradiction|reflexivity].
Qed.

Lemma rmatch_lit1 a x c k : rmatch (Lit [a]) (a :: x) c k = k x c.
Proof. apply (rmatch_lit [a]). Qed.

(** The white space before the marker line: the greedy run takes the line
    feed, the marker cannot follow, and the run gives the line feed back. *)
Lemma greedy_space_then_marker r y c k :
  rmatch (Star true is_space +++ Lit [LF] +++ r)%re (LF :: MARKER ++ y) c k
  = rmatch r (MARKER ++ y) c k.
Proof.
  rewrite rmatch_seq, rmatch_greedy. cbn [star_greedy].
  change (is_space LF) with true. cbv iota.
  assert (E : star_greedy is_space (MARKER ++ y)
                (fun y0 => rmatch (Lit [LF] +++ r)%re y0 c k) = None).
  { rewrite MARKER_units. cbn [app].
    rewrite star_greedy_stop by reflexivity.
    rewrite rmatch_seq. apply rmatch_lit_mismatch. discriminate. }
  rewrite E. rewrite rmatch_seq. apply rmatch_lit1.
Qed.

(** A lazy star inside a group stops at the first place where the rest of
    the pattern matches. *)
Lemma rmatch_lazy_group i p w x c k res :
  forallb p w = true ->
  (forall w1 w2, w = w1 ++ w2 -> w2 <> [] -> forall c', k (w2 ++ x) c' = None) ->
  k x ((i, w) :: c) = Some res ->
  rmatch (Group i (Star false p)) (w ++ x) c k = Some res.
Proof.
  intros Hw Hfail Hx. cbn [rmatch].
  assert (G : forall w1 w2, w = w1 ++ w2 ->
            star_lazy p (w2 ++ x)
              (fun y => k y ((i, take (length (w ++ x) - length y) (w ++ x)) :: c))
            = Some res).
  { intros w1 w2. revert w1. induction w2 as [|a w2 IH]; intros w1 Hsplit.
    - apply star_lazy_here. simpl app.
      replace (length (w ++ x) - length x)%nat with (length w)
        by (rewrite length_app; lia).
      rewrite take_app_length. exact Hx.
    - change ((a :: w2) ++ x) with (a :: (w2 ++ x)). cbn [star_lazy].
      change (a :: w2 ++ x) with ((a :: w2) ++ x).
      rewrite (Hfail w1 (a :: w2) Hsplit) by discriminate.
      assert (Ha : p a = true).
      { subst w. rewrite forallb_app in Hw. apply andb_true_iff in Hw as [_ Hw].
        simpl in Hw. apply andb_true_iff in Hw as [Ha _]. exact Ha. }
      rewrite Ha. apply (IH (w1 ++ [a])). rewrite <- app_assoc. exact Hsplit. }
  apply (G [] w). reflexivity.
Qed.

Lemma rmatch_closing z c k :
  rmatch (Lit [LF] +++ Lit FENCE)%re z c k
  = match strip_prefix (LF :: FENCE) z with
    | Some y => k y c
    | None => None
    end.
Proof.
  cbn [rmatch strip_prefix]. destruct z as [|a z]; [reflexivity|].
  destruct (LF =? a); reflexivity.
Qed.

End Pieces.

Lemma forallb_is_any (x : text) : forallb is_any x = true.
Proof.
  induction x as [|a x IH]; [reflexivity|]. simpl. rewrite IH.
  unfold is_any. destruct (is_space a); reflexivity.
Qed.

Lemma forallb_suffix_head (p : N -> bool) (w w1 : text) a w2 :
  forallb p w = true -> w = w1 ++ a :: w2 -> p a = true.
Proof.
  intros Hw ->. rewrite forallb_app in Hw. apply andb_true_iff in Hw as [_ Hw].
  simpl in Hw. apply andb_true_iff in Hw as [Ha _]. exact Ha.
Qed.

Lemma match_block (b : Block) (rest : text) :
  well_formed b ->
  match_here codeBlockRegex (render_block b ++ rest)
  = Some ([(2%nat, body b); (1%nat, marker_arg b)], rest).
Proof.
  intros (Hlang & Harg & Hbody).
  unfold match_here, codeBlockRegex, render_block.
  change (utf16 "```") with FENCE. change (utf16 "// FILE: ") with MARKER.
  rewrite <- !app_assoc.
  rewrite rmatch_seq, rmatch_lit.
  (* the language tag *)
  rewrite rmatch_seq, rmatch_greedy.
  apply star_greedy_run; [exact Hlang|].
  cbn [app]. rewrite star_greedy_stop by reflexivity.
  (* the white space before the marker *)
  rewrite greedy_space_then_marker.
  rewrite rmatch_seq, rmatch_lit.
  (* the marker argument *)
  rewrite rmatch_seq. apply rmatch_lazy_group; [exact Harg| |].
  { intros w1 [|a w2] Hsplit Hne c'; [congruence|].
    rewrite rmatch_seq. apply rmatch_lit_mismatch.
    pose proof (forallb_suffix_head _ _ _ _ _ Harg Hsplit) as Ha.
    intros <-. discriminate. }
  rewrite rmatch_seq, rmatch_lit1.
  (* the body, up to the first closing fence *)
  rewrite rmatch_seq. apply rmatch_lazy_group; [apply forallb_is_any| |].
  { intros w1 w2 Hsplit Hne c'. rewrite rmatch_closing.
    rewrite fence_not_in_tail; [reflexivity|exact Hne|].
    apply (occurs_suffix _ w1). rewrite <- Hsplit. exact Hbody. }
  rewrite rmatch_closing.
  change (LF :: FENCE ++ rest) with ((LF :: FENCE) ++ rest).
  rewrite strip_prefix_app. reflexivity.
Qed.

(** *** What a match is

    Every match of [codeBlockRegex] has the shape of a block: fence, tag,
    white space ending in a line feed, marker, argument, line feed, body,
    line feed, fence; the groups are the argument and the body. *)

Section Inversion.
Context {R : Type}.
Implicit Types (k : text -> option R) (p : N -> bool).

Lemma star_greedy_inv p x k r :
  star_greedy p x k = Some r ->
  exists w y, x = w ++ y /\ forallb p w = true /\ k y = Some r.
Proof.
  induction x as [|a x IH]; cbn [star_greedy]; intros Hr.
  - exists [], []. auto.
  - destruct (p a) eqn:Ha; [|exists [], (a :: x); auto].
    destruct (star_greedy p x k) as [r'|] eqn:E; [|exists [], (a :: x); auto].
    destruct (IH Hr) as (w & y & -> & Hw & Hy).
    exists (a :: w), y. cbn [forallb]. rewrite Ha, Hw. auto.
Qed.

Lemma star_lazy_inv p x k r :
  star_lazy p x k = Some r ->
  exists w y, x = w ++ y /\ forallb p w = true /\ k y = Some r.
Proof.
  induction x as [|a x IH]; cbn [star_lazy]; intros Hr.
  - destruct (k []) eqn:E; [|discriminate]. exists [], []. split; [reflexivity|].
    split; [reflexivity|congruence].
  - destruct (k (a :: x)) eqn:E.
    + exists [], (a :: x). split; [reflexivity|]. split; [reflexivity|congruence].
    + destruct (p a) eqn:Ha; [|discriminate].
      destruct (IH Hr) as (w & y & -> & Hw & Hy).
      exists (a :: w), y. cbn [forallb]. rewrite Ha, Hw. auto.
Qed.

End Inversion.

Lemma take_captured (w y : text) :
  take (length (w ++ y) - length y) (w ++ y) = w.
Proof.
  replace (length (w ++ y) - length y)%nat with (length w)
    by (rewrite length_app; lia).
  apply take_app_length.
Qed.

Lemma match_here_shape (x : text) (c : caps) (rest : text) :
  match_here codeBlockRegex x = Some (c, rest) ->
  exists tag space arg body,
    x = FENCE ++ tag ++ space ++ LF :: MARKER ++ arg ++ LF :: body
        ++ LF :: FENCE ++ rest
    /\ forallb is_word tag = true
    /\ forallb is_space space = true
    /\ forallb is_dot arg = true
    /\ c = [(2%nat, body); (1%nat, arg)].
Proof.
  unfold match_here, codeBlockRegex.
  change (utf16 "```") with FENCE. change (utf16 "// FILE: ") with MARKER.
  cbn [rmatch]. intros Hm.
  destruct (strip_prefix FENCE x) as [x1|] eqn:E1; [|discriminate].
  apply strip_prefix_Some in E1. subst x.
  apply star_greedy_inv in Hm as (tag & x2 & -> & Htag & Hm).
  apply star_greedy_inv in Hm as (space & x3 & -> & Hspace & Hm).
  destruct (strip_prefix [LF] x3) as [x4|] eqn:E3; [|discriminate].
  apply strip_prefix_Some in E3. subst x3.
  destruct (strip_prefix MARKER x4) as [x5|] eqn:E4; [|discriminate].
  apply strip_prefix_Some in E4. subst x4.
  apply star_lazy_inv in Hm as (arg & x6 & -> & Harg & Hm).
  destruct (strip_prefix [LF] x6) as [x7|] eqn:E6; [|discriminate].
  apply strip_prefix_Some in E6. subst x6.
  apply star_lazy_inv in Hm as (body & x8 & -> & _ & Hm).
  destruct (strip_prefix [LF] x8) as [x9|] eqn:E8; [|discriminate].
  apply strip_prefix_Some in E8. subst x8.
  destruct (strip_prefix FENCE x9) as [x10|] eqn:E9; [|discriminate].
  apply strip_prefix_Some in E9. subst x9.
  inversion Hm; subst. rewrite !take_captured.
  exists tag, space, arg, body. cbn [app]. auto.
Qed.

(** ** Extraction *)

Lemma extract_loop_fuel (f1 f2 : nat) (x : text) :
  (length x < f1)%nat -> (length x < f2)%nat ->
  extract_loop f1 x = extract_loop f2 x.
Proof.
  revert f2 x. induction f1 as [|f1 IH]; intros f2 x H1 H2; [lia|].
  destruct f2 as [|f2]; [lia|]. cbn [extract_loop].
  destruct (exec codeBlockRegex x) as [[m rest]|] eqn:E; [|reflexivity].
  apply exec_shorter in E. f_equal. apply IH; lia.
Qed.

Lemma extract_match (x : text) m rest :
  exec codeBlockRegex x = Some (m, rest) ->
  extract x = intent_of m :: extract rest.
Proof.
  intros E. unfold extract at 1. cbn [extract_loop]. rewrite E. f_equal.
  apply exec_shorter in E. unfold extract. apply extract_loop_fuel; lia.
Qed.

Lemma extract_none (x : text) :
  exec codeBlockRegex x = None -> extract x = [].
Proof. intros E. unfold extract. cbn [extract_loop]. rewrite E. reflexivity. Qed.

Lemma exec_no_backtick (x : text) :
  no_backtick x -> exec codeBlockRegex x = None.
Proof.
  intros Hx. rewrite <- (app_nil_r x). rewrite exec_skip_prose by exact Hx.
  reflexivity.
Qed.

Lemma extract_render (parts : list (text * Block)) (closing : text) :
  Forall (fun pb => no_backtick (fst pb) /\ well_formed (snd pb)) parts ->
  no_backtick closing ->
  extract (render parts closing) = map (fun pb => intent_of_block (snd pb)) parts.
Proof.
  intros Hparts Hclosing. induction Hparts as [|[prose b] parts [Hp Hb] _ IH].
  - simpl. apply extract_none, exec_no_backtick, Hclosing.
  - cbn [render map]. simpl in Hp, Hb.
    rewrite (extract_match _ [(2%nat, body b); (1%nat, marker_arg b)]
               (render parts closing)).
    + rewrite IH. reflexivity.
    + rewrite exec_skip_prose by exact Hp. apply exec_here, match_block, Hb.
Qed.

(** ** The loop of [processAndWriteFiles] *)

Section LoopFacts.
Context {H : Host}.

Lemma write_match_spec (rootPath : Uri) (m : caps) (n : N) (w : World) :
  write_match rootPath m n w
  = let (f', o) := write_intent rootPath (intent_of m) (fs w) in
    (Normal (if succeeded o then n + 1 else n),
     {| fs := f'; posted := posted w;
        shown := shown w ++ [notification_of o] |}).
Proof.
  unfold write_match, write_intent, try_catch, bind, fs_call, show, ret,
    notification_of, succeeded, intent_of.
  cbn [fs posted shown relativePath content path error].
  destruct (createDirectory _ (fs w)) as [f1 [e|]];
    cbn [fs posted shown path error]; [reflexivity|].
  destruct (writeFile _ _ f1) as [f2 [e|]];
    cbn [fs posted shown path error]; reflexivity.
Qed.

Lemma write_loop_spec (fuel : nat) (rootPath : Uri) (x : text) (n : N)
      (w : World) :
  (length x < fuel)%nat ->
  write_loop fuel rootPath x n w
  = let (f', os) := apply_intents rootPath (extract x) (fs w) in
    (Normal (n + count_succeeded os),
     {| fs := f'; posted := posted w;
        shown := shown w ++ map notification_of os |}).
Proof.
  revert x n w. induction fuel as [|fuel IH]; intros x n w Hfuel; [lia|].
  cbn [write_loop].
  destruct (exec codeBlockRegex x) as [[m rest]|] eqn:E.
  - rewrite (extract_match _ _ _ E). cbn [apply_intents].
    unfold bind. rewrite write_match_spec.
    destruct (write_intent rootPath (intent_of m) (fs w)) as [f1 o].
    apply exec_shorter in E. rewrite IH by lia. cbn [fs posted shown].
    destruct (apply_intents rootPath (extract rest) f1) as [f2 os].
    cbn [count_succeeded map]. rewrite <- app_assoc. cbn [app].
    f_equal. f_equal. destruct (succeeded o); lia.
  - rewrite (extract_none _ E). cbn [apply_intents count_succeeded map].
    unfold ret. rewrite N.add_0_r, app_nil_r. destruct w; reflexivity.
Qed.

(** More fuel than the length of the subject changes nothing: the loop
    always ends by a failed [exec], never by lack of fuel. *)
Lemma write_loop_fuel (fuel : nat) (rootPath : Uri) (x : text) (n : N)
      (w : World) :
  (length x < fuel)%nat ->
  write_loop fuel rootPath x n w = write_loop (S (length x)) rootPath x n w.
Proof.
  intros Hfuel. rewrite !write_loop_spec by lia. reflexivity.
Qed.

Lemma processAndWriteFiles_spec (env : Env) (rootPath : Uri)
      (others : list Uri) (responseText : Json) (w : World) :
  workspaceFolders env = Some (rootPath :: others) ->
  processAndWriteFiles env responseText w
  = let (f', os) :=
        apply_intents rootPath (extract (toString responseText)) (fs w) in
    (Normal tt,
     {| fs := f';
        posted := posted w ++ files_notice (count_succeeded os);
        shown := shown w ++ map notification_of os |}).
Proof.
  intros Hws. unfold processAndWriteFiles. rewrite Hws.
  unfold bind. rewrite write_loop_spec by lia.
  destruct (apply_intents rootPath _ (fs w)) as [f' os].
  rewrite N.add_0_l. unfold files_notice.
  destruct (0 <? count_succeeded os); unfold postMessage, ret;
    cbn [fs posted shown].
  - reflexivity.
  - rewrite app_nil_r. reflexivity.
Qed.

End LoopFacts.

(** ** The request handler *)

Section HandlerFacts.
Context {H : Host}.
Local Open Scope eff_scope.

Lemma posts_no_end_ret {A} (a : A) : posts_no_end (ret a).
Proof. intros w. exists []. rewrite app_nil_r. auto. Qed.

Lemma posts_no_end_throw {A} (e : text) : posts_no_end (throw (A := A) e).
Proof. intros w. exists []. rewrite app_nil_r. auto. Qed.

Lemma posts_no_end_show (n : Notification) : posts_no_end (show n).
Proof. intros w. exists []. simpl. rewrite app_nil_r. auto. Qed.

Lemma posts_no_end_fs_call op : posts_no_end (fs_call op).
Proof.
  intros w. exists []. unfold fs_call. destruct (op (fs w)) as [f r].
  simpl. rewrite app_nil_r. auto.
Qed.

Lemma posts_no_end_postMessage (m : UiMessage) :
  is_end m = false -> posts_no_end (postMessage m).
Proof. intros Hm w. exists [m]. simpl. rewrite Hm. auto. Qed.

Lemma posts_no_end_bind {A B} (m : Eff A) (k : A -> Eff B) :
  posts_no_end m -> (forall a, posts_no_end (k a)) -> posts_no_end (bind m k).
Proof.
  intros Hm Hk w. unfold bind. destruct (Hm w) as (l1 & E1 & N1).
  destruct (m w) as [[a|e] w1]; simpl in E1.
  - destruct (Hk a w1) as (l2 & E2 & N2). exists (l1 ++ l2).
    rewrite E2, E1, app_assoc, existsb_app, N1, N2. auto.
  - exists l1. simpl. auto.
Qed.

Lemma posts_no_end_try_catch {A} (m : Eff A) (h : text -> Eff A) :
  posts_no_end m -> (forall e, posts_no_end (h e)) ->
  posts_no_end (try_catch m h).
Proof.
  intros Hm Hh w. unfold try_catch. destruct (Hm w) as (l1 & E1 & N1).
  destruct (m w) as [[a|e] w1]; simpl in E1.
  - exists l1. simpl. auto.
  - destruct (Hh e w1) as (l2 & E2 & N2). exists (l1 ++ l2).
    rewrite E2, E1, app_assoc, existsb_app, N1, N2. auto.
Qed.

Lemma posts_no_end_write_loop fuel rootPath x n :
  posts_no_end (write_loop fuel rootPath x n).
Proof.
  revert x n. induction fuel as [|fuel IH]; intros x n; cbn [write_loop].
  - apply posts_no_end_ret.
  - destruct (exec codeBlockRegex x) as [[m rest]|]; [|apply posts_no_end_ret].
    apply posts_no_end_bind; [|intros a; apply IH].
    unfold write_match. apply posts_no_end_try_catch.
    + repeat (apply posts_no_end_bind; [|intros _]);
        auto using posts_no_end_fs_call, posts_no_end_show, posts_no_end_ret.
    + intros e. apply posts_no_end_bind; [apply posts_no_end_show|].
      intros _. apply posts_no_end_ret.
Qed.

Lemma posts_no_end_processAndWriteFiles env responseText :
  posts_no_end (processAndWriteFiles env responseText).
Proof.
  unfold processAndWriteFiles.
  destruct (workspaceFolders env) as [[|rootPath others]|].
  - apply posts_no_end_throw.
  - apply posts_no_end_bind; [apply posts_no_end_write_loop|].
    intros n. destruct (0 <? n).
    + apply posts_no_end_postMessage. reflexivity.
    + apply posts_no_end_ret.
  - apply posts_no_end_show.
Qed.

Lemma posts_no_end_json b : posts_no_end (json b).
Proof.
  destruct b; [apply posts_no_end_throw|apply posts_no_end_ret].
Qed.

Lemma posts_no_end_error_message v : posts_no_end (error_message v).
Proof.
  destruct v; first [apply posts_no_end_throw|apply posts_no_end_ret].
Qed.

Lemma posts_no_end_value_or_default v : posts_no_end (value_or_default v).
Proof.
  destruct v; first [apply posts_no_end_throw|apply posts_no_end_ret].
Qed.

Lemma posts_no_end_getAccessToken env : posts_no_end (getAccessToken env).
Proof.
  unfold getAccessToken. destruct (session env).
  - apply posts_no_end_ret.
  - apply posts_no_end_bind; [apply posts_no_end_show|].
    intros _. apply posts_no_end_throw.
Qed.

Lemma posts_no_end_request env userPrompt agent :
  posts_no_end (request env userPrompt agent).
Proof.
  unfold request.
  apply posts_no_end_bind; [apply posts_no_end_getAccessToken|].
  intros accessToken.
  destruct (fetch env _) as [e|ok status body]; [apply posts_no_end_throw|].
  destruct ok; cbn [negb].
  - apply posts_no_end_bind; [apply posts_no_end_json|]. intros result.
    apply posts_no_end_bind; [apply posts_no_end_value_or_default|].
    intros copilotResponse.
    apply posts_no_end_bind; [apply posts_no_end_postMessage; reflexivity|].
    intros _. destruct (text_eqb agent _).
    + apply posts_no_end_processAndWriteFiles.
    + apply posts_no_end_ret.
  - apply posts_no_end_bind; [apply posts_no_end_json|]. intros errorBody.
    apply posts_no_end_bind; [apply posts_no_end_error_message|].
    intros detail. apply posts_no_end_throw.
Qed.

Lemma posts_no_end_report message : posts_no_end (report message).
Proof.
  unfold report. apply posts_no_end_bind; [apply posts_no_end_show|].
  intros _. apply posts_no_end_postMessage. reflexivity.
Qed.

Lemma returns_report message : returns (report message).
Proof. intros w. exists tt. reflexivity. Qed.

(** C4. Whatever the session, the remote call and the workspace give
    (success, an API error, an authentication error, a rejected [fetch],
    an unreadable body), [handleCopilotRequest] completes normally and the
    messages it posts are some messages other than [endStream] followed by
    exactly one [endStream]. *)
Theorem terminal_event_exactly_once (env : Env) (userPrompt agent : text)
        (w : World) :
  let r := handleCopilotRequest env userPrompt agent w in
  fst r = Normal tt
  /\ exists msgs,
      posted (snd r) = posted w ++ msgs ++ [EndStream]
      /\ existsb is_end msgs = false
      /\ length (List.filter is_end (msgs ++ [EndStream])) = 1%nat.
Proof.
  cbv zeta. unfold handleCopilotRequest, finally, try_catch.
  destruct (posts_no_end_request env userPrompt agent w) as (l1 & E1 & N1).
  destruct (request env userPrompt agent w) as [[[]|e] w1]; simpl in E1.
  - cbn [postMessage fst snd posted]. split; [reflexivity|].
    exists l1. rewrite E1, <- app_assoc. repeat split; [exact N1|].
    rewrite List.filter_app, length_app.
    replace (List.filter is_end l1) with (@nil UiMessage); [reflexivity|].
    symmetry. clear E1. induction l1 as [|m l1 IH]; [reflexivity|].
    simpl in *. apply orb_false_iff in N1 as [-> N1]. auto.
  - destruct (posts_no_end_report e w1) as (l2 & E2 & N2).
    destruct (returns_report e w1) as ([] & R2).
    destruct (report e w1) as [c2 w2]. simpl in E2, R2. subst c2.
    cbn [postMessage fst snd posted]. split; [reflexivity|].
    exists (l1 ++ l2). rewrite E2, E1, <- !app_assoc.
    assert (N : existsb is_end (l1 ++ l2) = false)
      by (rewrite existsb_app, N1, N2; reflexivity).
    repeat split; [exact N|].
    rewrite app_assoc, List.filter_app, length_app.
    replace (List.filter is_end (l1 ++ l2)) with (@nil UiMessage);
      [reflexivity|].
    symmetry. clear -N. induction (l1 ++ l2) as [|m l IH]; [reflexivity|].
    simpl in *. apply orb_false_iff in N as [-> N]. auto.
Qed.

Lemma request_throws_on_failure env userPrompt agent accessToken w :
  session env = Some accessToken ->
  remote_call_fails (fetch env (copilot_request accessToken agent userPrompt)) ->
  exists e, request env userPrompt agent w = (Throw e, w).
Proof.
  intros Hs Hf. unfold request, getAccessToken, bind. rewrite Hs.
  unfold ret at 1.
  destruct (fetch env _) as [e|ok status body]; simpl in Hf.
  - exists e. reflexivity.
  - subst ok. cbn [negb]. destruct body as [e|errorBody]; cbn [json].
    + exists e. reflexivity.
    + unfold ret at 1. destruct errorBody; cbn [error_message];
        eexists; unfold throw, ret; reflexivity.
Qed.

(** C5. When the remote call fails, the handler posts one error notice and
    then the terminal event, no response event, and leaves the file system
    as it found it.  The statement holds for every host, whatever its file
    system does when called. *)
Theorem remote_failure_reports_and_writes_nothing
        (env : Env) (userPrompt agent accessToken : text) (w : World) :
  session env = Some accessToken ->
  remote_call_fails (fetch env (copilot_request accessToken agent userPrompt)) ->
  exists e,
    handleCopilotRequest env userPrompt agent w
    = (Normal tt,
       {| fs := fs w;
          posted := posted w ++ [ShowError (ERROR_PREFIX ++ e); EndStream];
          shown := shown w ++ [Error (ERROR_PREFIX ++ e)] |}).
Proof.
  intros Hs Hf.
  destruct (request_throws_on_failure env userPrompt agent accessToken w Hs Hf)
    as (e & He).
  exists e. unfold handleCopilotRequest, finally, try_catch. rewrite He.
  unfold report, bind, show, postMessage. cbn [fs posted shown].
  rewrite <- app_assoc. cbn [app]. reflexivity.
Qed.

(** The same on an authentication failure; the user is also told to log
    in. *)
Lemma authentication_failure_reports_and_writes_nothing
      (env : Env) (userPrompt agent : text) (w : World) :
  session env = None ->
  exists note,
    handleCopilotRequest env userPrompt agent w
    = (Normal tt,
       {| fs := fs w;
          posted := posted w ++ [ShowError (ERROR_PREFIX ++ AUTHENTICATION_FAILED);
                                 EndStream];
          shown := shown w ++ [Error note;
                               Error (ERROR_PREFIX ++ AUTHENTICATION_FAILED)] |}).
Proof.
  intros Hs. eexists.
  unfold handleCopilotRequest, finally, try_catch, request, getAccessToken.
  rewrite Hs. unfold report, bind, show, throw, postMessage.
  cbn [fs posted shown]. rewrite <- !app_assoc. cbn [app]. reflexivity.
Qed.

(** C10. A successful response whose body is not [null] and whose [value]
    is missing or falsy is handled as the fixed text would be: the response
    event carries "Nenhuma resposta recebida.", and for the coder agent
    [processAndWriteFiles] is run on that text. *)
Theorem falsy_value_gives_placeholder
        (env : Env) (userPrompt agent accessToken : text) (status : Z)
        (result : Json) (w : World) :
  session env = Some accessToken ->
  fetch env (copilot_request accessToken agent userPrompt)
    = Response true status (BodyJson result) ->
  result <> JNull ->
  truthy (get_prop result (utf16 "value")) = false ->
  handleCopilotRequest env userPrompt agent w
  = finally
      (try_catch
         (postMessage (StreamResponse (JStr NO_RESPONSE)) ;;
          if text_eqb agent (utf16 "coder")
          then processAndWriteFiles env (JStr NO_RESPONSE)
          else ret tt)
         report)
      (postMessage EndStream) w
  /\ exists rest,
      posted (snd (handleCopilotRequest env userPrompt agent w))
      = posted w ++ StreamResponse (JStr NO_RESPONSE) :: rest.
Proof.
  intros Hs Hf Hnull Hfalsy.
  assert (E : request env userPrompt agent w
              = (postMessage (StreamResponse (JStr NO_RESPONSE)) ;;
                 if text_eqb agent (utf16 "coder")
                 then processAndWriteFiles env (JStr NO_RESPONSE)
                 else ret tt) w).
  { unfold request, getAccessToken, bind at 1. rewrite Hs. unfold ret at 1.
    rewrite Hf. cbn [negb json]. unfold bind at 1. unfold ret at 1.
    assert (V : value_or_default result = ret (JStr NO_RESPONSE)).
    { destruct result; try congruence; cbn [value_or_default];
        destruct (get_prop _ _); try rewrite Hfalsy; reflexivity. }
    rewrite V. reflexivity. }
  split.
  - unfold handleCopilotRequest, finally, try_catch. rewrite E. reflexivity.
  - unfold handleCopilotRequest, finally, try_catch. rewrite E.
    unfold bind at 1. unfold postMessage at 1.
    set (w1 := {| fs := fs w;
                  posted := posted w ++ [StreamResponse (JStr NO_RESPONSE)];
                  shown := shown w |}).
    assert (P : posts_no_end
                  (if text_eqb agent (utf16 "coder")
                   then processAndWriteFiles env (JStr NO_RESPONSE)
                   else ret tt)).
    { destruct (text_eqb agent _);
        [apply posts_no_end_processAndWriteFiles|apply posts_no_end_ret]. }
    destruct (P w1) as (l1 & E1 & _).
    destruct ((if text_eqb agent (utf16 "coder")
               then processAndWriteFiles env (JStr NO_RESPONSE)
               else ret tt) w1) as [[[]|e] w2]; simpl in E1.
    + exists (l1 ++ [EndStream]). cbn [postMessage snd posted].
      rewrite E1. subst w1. cbn [posted]. rewrite <- !app_assoc. reflexivity.
    + destruct (posts_no_end_report e w2) as (l2 & E2 & _).
      destruct (report e w2) as [[[]|e2] w3]; simpl in E2;
        exists (l1 ++ l2 ++ [EndStream]); cbn [postMessage snd posted];
        rewrite E2, E1; subst w1; cbn [posted]; rewrite <- !app_assoc;
        reflexivity.
Qed.

End HandlerFacts.

(** ** Application of the intents *)

Section ApplyFacts.
Context {H : Host}.

Lemma apply_intents_app (rootPath : Uri) (before after : list FileWriteIntent)
      (f : FS) :
  apply_intents rootPath (before ++ after) f
  = let (f1, os1) := apply_intents rootPath before f in
    let (f2, os2) := apply_intents rootPath after f1 in
    (f2, os1 ++ os2).
Proof.
  revert f. induction before as [|i before IH]; intros f; cbn [app apply_intents].
  - destruct (apply_intents rootPath after f). reflexivity.
  - destruct (write_intent rootPath i f) as [f1 o]. rewrite IH.
    destruct (apply_intents rootPath before f1) as [f2 os1].
    destruct (apply_intents rootPath after f2) as [f3 os2]. reflexivity.
Qed.

Lemma apply_intents_paths (rootPath : Uri) (intents : list FileWriteIntent)
      (f : FS) :
  map path (snd (apply_intents rootPath intents f)) = map relativePath intents.
Proof.
  revert f. induction intents as [|i intents IH]; intros f; [reflexivity|].
  cbn [apply_intents]. destruct (write_intent rootPath i f) as [f1 o] eqn:E.
  specialize (IH f1). destruct (apply_intents rootPath intents f1) as [f2 os].
  cbn [snd map] in *. rewrite IH. f_equal.
  unfold write_intent in E.
  destruct (createDirectory _ f) as [g [e|]]; [inversion E; reflexivity|].
  destruct (writeFile _ _ g) as [g' r]. inversion E. reflexivity.
Qed.

(** C9, amended.  With a workspace open, [processAndWriteFiles] gives every
    intent of the response text an outcome of its own, in document order,
    whatever became of the intents before it: an intent that follows a
    failure is applied to the file system the failure left, nothing is
    rolled back.  Each outcome is notified.  The number of writes that
    succeeded is posted to the panel only when it is not zero: when no
    write succeeded, nothing is posted. *)
Theorem partial_failure_semantics
        (env : Env) (rootPath : Uri) (others : list Uri)
        (responseText : text) (w : World) :
  workspaceFolders env = Some (rootPath :: others) ->
  let intents := extract responseText in
  let r := processAndWriteFiles env (JStr responseText) w in
  let os := snd (apply_intents rootPath intents (fs w)) in
  fst r = Normal tt
  /\ fs (snd r) = fst (apply_intents rootPath intents (fs w))
  /\ map path os = map relativePath intents
  /\ shown (snd r) = shown w ++ map notification_of os
  /\ posted (snd r) = posted w ++ files_notice (count_succeeded os)
  /\ (count_succeeded os = 0%N -> posted (snd r) = posted w)
  /\ forall before i after,
      intents = before ++ i :: after ->
      let f1 := fst (apply_intents rootPath before (fs w)) in
      let f2 := fst (write_intent rootPath i f1) in
      os = snd (apply_intents rootPath before (fs w))
           ++ snd (write_intent rootPath i f1)
           :: snd (apply_intents rootPath after f2).
Proof.
  intros Hws intents r os. subst r os.
  rewrite (processAndWriteFiles_spec env rootPath others _ w Hws).
  cbn [toString]. fold intents.
  split; [destruct (apply_intents rootPath intents (fs w)); reflexivity|].
  split; [destruct (apply_intents rootPath intents (fs w)); reflexivity|].
  split; [apply apply_intents_paths|].
  split; [destruct (apply_intents rootPath intents (fs w)); reflexivity|].
  split; [destruct (apply_intents rootPath intents (fs w)); reflexivity|].
  split.
  { destruct (apply_intents rootPath intents (fs w)) as [f' os].
    cbn [fst snd posted]. intros ->. apply app_nil_r. }
  intros before i after Hsplit.
  rewrite Hsplit, apply_intents_app.
  destruct (apply_intents rootPath before (fs w)) as [f1 os1].
  cbn [apply_intents fst snd].
  destruct (write_intent rootPath i f1) as [f2 o]. cbn [fst snd].
  destruct (apply_intents rootPath after f2) as [f3 os2]. reflexivity.
Qed.

End ApplyFacts.

(** ** Several intents for one file *)

Section LastWins.
Context {H : Host} {L : HostLaws H}.


Lemma write_intent_read_other (rootPath : Uri) (j : FileWriteIntent) (f : FS)
      (u : Uri) :
  joinPath rootPath (relativePath j) <> u ->
  readFile (fst (write_intent rootPath j f)) u = readFile f u.
Proof.
  intros Hne. unfold write_intent.
  pose proof (createDirectory_read
                (joinPath (joinPath rootPath (relativePath j)) (utf16 ".."))
                f u) as D.
  destruct (createDirectory _ f) as [f1 [e|]]; cbn [fst] in *; [exact D|].
  pose proof (writeFile_read_other (joinPath rootPath (relativePath j))
                (content j) f1 u) as W.
  destruct (writeFile _ _ f1) as [f2 r]. cbn [fst] in *.
  rewrite W by congruence. exact D.
Qed.

Lemma apply_intents_read_other (rootPath : Uri) (after : list FileWriteIntent)
      (f : FS) (u : Uri) :
  Forall (fun j => joinPath rootPath (relativePath j) <> u) after ->
  readFile (fst (apply_intents rootPath after f)) u = readFile f u.
Proof.
  intros Hafter. revert f.
  induction Hafter as [|j after Hj _ IH]; intros f; [reflexivity|].
  cbn [apply_intents].
  pose proof (write_intent_read_other rootPath j f u Hj) as W.
  destruct (write_intent rootPath j f) as [f1 o]. cbn [fst] in W.
  specialize (IH f1). destruct (apply_intents rootPath after f1) as [f2 os].
  cbn [fst] in *. congruence.
Qed.


End LastWins.

(** ** The POSIX host *)

Module PosixFacts.
Import Posix.

Lemma lookup_mkdirs (l : list (list text)) (m : Files) (u : list text) :
  foldr (fun p m => <[p := Dir]> m) m l !! u
  = if decide (u ∈ l) then Some Dir else m !! u.
Proof.
  induction l as [|p l IH]; cbn [foldr].
  - rewrite decide_False by apply not_elem_of_nil. reflexivity.
  - rewrite lookup_insert. destruct (decide (p = u)) as [->|Hne].
    + rewrite decide_True by (apply elem_of_cons; auto). reflexivity.
    + rewrite IH. destruct (decide (u ∈ l)) as [Hin|Hnin].
      * rewrite decide_True by (apply elem_of_cons; auto). reflexivity.
      * rewrite decide_False; [reflexivity|].
        intros Hin. apply elem_of_cons in Hin as [->|Hin]; contradiction.
Qed.

Lemma mkdirp_read (d : list text) (m : Files) (u : list text) :
  read (fst (mkdirp d m)) u = read m u.
Proof.
  unfold mkdirp.
  destruct (existsb _ (ancestors d)) eqn:E; cbn [fst]; [reflexivity|].
  unfold read. rewrite lookup_mkdirs.
  destruct (decide (u ∈ ancestors d)) as [Hin|Hnin]; [|reflexivity].
  assert (F : is_file (m !! u) = false).
  { destruct (is_file (m !! u)) eqn:F; [|reflexivity].
    assert (existsb (fun p => is_file (m !! p)) (ancestors d) = true);
      [|congruence].
    apply existsb_exists. exists u. split; [|exact F].
    apply list_elem_of_In. exact Hin. }
  destruct (m !! u) as [[c|]|]; simpl in F; congruence.
Qed.

Lemma write_read (u : list text) (c : text) (m : Files) :
  snd (write u c m) = None ->
  read (fst (write u c m)) u = Some (toWellFormed c).
Proof.
  unfold write, read.
  destruct (m !! u) as [[c0|]|]; destruct u; cbn [fst snd]; try discriminate;
    intros _; rewrite lookup_insert_eq; reflexivity.
Qed.

Lemma write_read_other (u' : list text) (c : text) (m : Files)
      (u : list text) :
  u <> u' -> read (fst (write u' c m)) u = read m u.
Proof.
  intros Hne. unfold write, read.
  destruct (m !! u') as [[c0|]|]; destruct u'; cbn [fst]; try reflexivity;
    rewrite lookup_insert_ne by congruence; reflexivity.
Qed.

#[export] Instance host_laws : HostLaws host.
Proof.
  split.
  - exact mkdirp_read.
  - exact write_read.
  - exact write_read_other.
Qed.

(** Segments pushed on a path stay above its root unless one of them is
    [..]. *)
Lemma push_segments_above (segs : list text) (stack base : list text) :
  existsb (fun s => text_eqb s DOTDOT) segs = false ->
  base `suffix_of` stack ->
  base `suffix_of` fold_left push_segment segs stack.
Proof.
  revert stack. induction segs as [|s segs IH]; intros stack Hs Hb; [exact Hb|].
  cbn [existsb] in Hs. apply orb_false_iff in Hs as [Hs1 Hs2].
  cbn [fold_left]. apply IH; [exact Hs2|].
  unfold push_segment. rewrite Hs1.
  destruct (text_eqb s [] || text_eqb s DOT); [exact Hb|].
  apply suffix_cons_r. exact Hb.
Qed.

Lemma join_inside (root : list text) (fragment : text) :
  has_parent_segment fragment = false -> inside root (join root fragment).
Proof.
  intros Hp. unfold inside, join.
  pose proof (push_segments_above (split_on SLASH fragment) (rev root)
                (rev root) Hp (reflexivity _)) as [k Hk].
  rewrite Hk, rev_app_distr, rev_involutive. apply prefix_app_r. reflexivity.
Qed.

Lemma split_on_plain (x : text) : no_slash x -> split_on SLASH x = [x].
Proof.
  unfold no_slash. induction x as [|a x IH]; [reflexivity|].
  cbn [forallb split_on]. intros Hx. apply andb_true_iff in Hx as [Ha Hx].
  apply negb_true_iff in Ha. rewrite Ha, (IH Hx). reflexivity.
Qed.

Lemma split_on_slash (a b : text) :
  no_slash a -> split_on SLASH (a ++ SLASH :: b) = a :: split_on SLASH b.
Proof.
  unfold no_slash. induction a as [|c a IH]; cbn [app forallb split_on].
  - intros _. rewrite N.eqb_refl. reflexivity.
  - intros Ha. apply andb_true_iff in Ha as [Hc Ha].
    apply negb_true_iff in Hc. rewrite Hc, (IH Ha). reflexivity.
Qed.

(** The path [../name] always leaves a workspace that is not the top
    directory, unless [name] is the name of the workspace itself. *)
Lemma parent_segment_escapes (above : list text) (dir name : text) :
  plain name -> name <> dir ->
  join (above ++ [dir]) (DOTDOT ++ SLASH :: name) = above ++ [name]
  /\ ~ inside (above ++ [dir]) (above ++ [name]).
Proof.
  intros (Hslash & Hempty & Hdot & Hdotdot) Hne. split.
  - unfold join. rewrite split_on_slash by reflexivity.
    rewrite (split_on_plain name Hslash), rev_app_distr.
    cbn [rev app fold_left]. unfold push_segment at 2.
    change (text_eqb DOTDOT [] || text_eqb DOTDOT DOT) with false.
    change (text_eqb DOTDOT DOTDOT) with true. cbv iota. cbn [tail].
    unfold push_segment. rewrite Hempty, Hdot, Hdotdot. cbn [orb rev].
    rewrite rev_involutive. reflexivity.
  - intros [k Hk]. rewrite <- app_assoc in Hk.
    apply app_inv_head in Hk. cbn [app] in Hk. congruence.
Qed.

End PosixFacts.

(** ** Paths of the intents *)

Module PathSafety.
Import Posix PosixFacts Examples.




End PathSafety.

(** ** Extraction of well-formed blocks *)

Module Blocks.
Import Examples.

(** C2, as the specification states it, fails.  The body of the block is
    one indented line; trimmed of blank lines it is unchanged, but the
    content of the intent has lost the indentation, and the intent with the
    indented content does not come back from its own rendering. *)
Lemma indentation_is_lost :
  well_formed indented_block
  /\ trim_blank_lines (body indented_block) = utf16 "  x = 1"
  /\ map content (extract (render [([], indented_block)] []))
     = [utf16 "x = 1"]
  /\ extract (render [([], render_intent indented_intent)] [])
     <> [indented_intent].
Proof.
  repeat (apply conj); try (vm_compute; reflexivity).
  vm_compute. discriminate.
Qed.

(** C2, amended.  A response made of well-formed blocks (a tag of word
    characters, a marker argument without line terminator, a body without
    a line that begins with a fence), each after prose without backticks,
    yields one intent per block in document order; the path is the marker
    argument and the content the body, both trimmed of all leading and
    trailing white space.  Blocks that render intents already trimmed give
    these intents back. *)
Theorem well_formed_blocks_are_extracted
        (parts : list (text * Block)) (closing : text) :
  Forall (fun pb => no_backtick (fst pb) /\ well_formed (snd pb)) parts ->
  no_backtick closing ->
  extract (render parts closing)
    = map (fun pb => intent_of_block (snd pb)) parts
  /\ forall intents,
      map snd parts = map render_intent intents ->
      Forall trimmed intents ->
      extract (render parts closing) = intents.
Proof.
  intros Hparts Hclosing.
  rewrite (extract_render parts closing Hparts Hclosing).
  split; [reflexivity|].
  intros intents Hblocks Htrimmed.
  rewrite <- (map_map snd intent_of_block), Hblocks, map_map.
  clear Hblocks. induction Htrimmed as [|[p c] intents [Hp Hc] _ IH];
    [reflexivity|].
  cbn [map]. rewrite IH. f_equal.
  unfold intent_of_block, render_intent. cbn in *. rewrite Hp, Hc. reflexivity.
Qed.

Lemma well_formed_blocks_are_extracted_witness :
  Forall (fun pb => no_backtick (fst pb) /\ well_formed (snd pb)) two_blocks
  /\ no_backtick [LF]
  /\ (extract (render two_blocks [LF])
        = map (fun pb => intent_of_block (snd pb)) two_blocks
      /\ forall intents,
          map snd two_blocks = map render_intent intents ->
          Forall trimmed intents ->
          extract (render two_blocks [LF]) = intents).
Proof.
  assert (Hparts : Forall (fun pb => no_backtick (fst pb)
                                     /\ well_formed (snd pb)) two_blocks).
  { repeat constructor. }
  split; [exact Hparts|]. split; [reflexivity|].
  exact (well_formed_blocks_are_extracted two_blocks [LF] Hparts eq_refl).
Defined.

(** C7, as the specification states it, fails: the closing fence right
    after the marker line gives no intent at all. *)
Lemma bodiless_block_is_not_extracted :
  render_bodiless (utf16 "txt") (utf16 "empty.txt")
    = utf16 "```txt
// FILE: empty.txt
```"
  /\ extract (render_bodiless (utf16 "txt") (utf16 "empty.txt")) = [].
Proof. split; vm_compute; reflexivity. Qed.

Lemma space_is_no_backtick (x : text) :
  forallb is_space x = true -> no_backtick x.
Proof.
  unfold no_backtick. induction x as [|a x IH]; [reflexivity|].
  cbn [forallb]. intros Hx. apply andb_true_iff in Hx as [Ha Hx].
  rewrite (IH Hx), andb_true_r.
  destruct (N.eqb_spec a BACKTICK) as [->|]; [discriminate|reflexivity].
Qed.

Lemma no_backtick_no_fence (x : text) :
  no_backtick x -> occurs (LF :: FENCE) x = false.
Proof.
  unfold no_backtick. rewrite FENCE_units.
  induction x as [|a x IH]; [reflexivity|].
  cbn [forallb]. intros Hx. apply andb_true_iff in Hx as [Ha Hx].
  cbn [occurs]. rewrite (IH Hx).
  destruct x as [|b x]; cbn [strip_prefix].
  - destruct (LF =? a); reflexivity.
  - cbn [forallb] in Hx. apply andb_true_iff in Hx as [Hb _].
    destruct (LF =? a); [|reflexivity].
    destruct (N.eqb_spec 96 b) as [<-|]; [discriminate|reflexivity].
Qed.

(** C7, amended.  When the body of a well-formed block is white space only
    (the empty body included: the closing fence then stands on the second
    line after the marker), the block yields an intent whose content is the
    empty string. *)
Theorem blank_body_gives_empty_content
        (b : Block) (prose closing : text) :
  forallb is_word (lang b) = true ->
  forallb is_dot (marker_arg b) = true ->
  forallb is_space (body b) = true ->
  no_backtick prose ->
  no_backtick closing ->
  extract (prose ++ render_block b ++ closing)
  = [{| relativePath := trim (marker_arg b); content := [] |}].
Proof.
  intros Hlang Harg Hbody Hprose Hclosing.
  change (prose ++ render_block b ++ closing)
    with (render [(prose, b)] closing).
  rewrite extract_render.
  - cbn [map snd]. unfold intent_of_block.
    rewrite (trim_all_space _ Hbody). reflexivity.
  - repeat constructor; cbn [fst snd]; [exact Hprose|exact Hlang|exact Harg|].
    apply no_backtick_no_fence, space_is_no_backtick, Hbody.
  - exact Hclosing.
Qed.

Lemma blank_body_gives_empty_content_witness :
  forallb is_word (lang blank_block) = true
  /\ forallb is_dot (marker_arg blank_block) = true
  /\ forallb is_space (body blank_block) = true
  /\ no_backtick []
  /\ no_backtick [LF]
  /\ extract ([] ++ render_block blank_block ++ [LF])
     = [{| relativePath := trim (marker_arg blank_block); content := [] |}].
Proof.
  repeat (split; [reflexivity|]).
  exact (blank_body_gives_empty_content blank_block [] [LF]
           eq_refl eq_refl eq_refl eq_refl eq_refl).
Defined.

End Blocks.

(** ** At most one request in flight *)

Module InFlight.
Import Webview Session Guard.

Section InFlight.
Context {H : Host}.

(** C3 fails on the code.  The click disabled the button, but the Enter key
    reaches [sendMessage] all the same, the panel starts a second
    [handleCopilotRequest], and two remote calls are pending at once. *)
Theorem enter_starts_a_second_request (w : World) :
  let s := run second_submission_by_enter (start w) in
  sendDisabled (ui s) = true
  /\ pending s
     = [{| sub_text := utf16 "first"; sub_agent := utf16 "coder" |};
        {| sub_text := utf16 "second"; sub_agent := utf16 "coder" |}]
  /\ length (pending s) = 2%nat.
Proof. cbv zeta. repeat (apply conj); vm_compute; reflexivity. Qed.

Lemma sendMessage_cases (u : Ui) :
  sendMessage u = u
  \/ exists sub,
      outbox (sendMessage u) = outbox u ++ [sub]
      /\ sendDisabled (sendMessage u) = true.
Proof.
  unfold sendMessage. destruct (text_eqb (trim (promptValue u)) []);
    [left; reflexivity|].
  right. eexists. cbn [addMessage fst snd outbox sendDisabled].
  split; reflexivity.
Qed.

Lemma sent_since_same (u u' : Ui) :
  outbox u' = outbox u -> sent_since u u' = [].
Proof. intros E. unfold sent_since. rewrite E. apply drop_all. Qed.

Lemma step_guarded (ev : Event) (s : State) :
  no_keydown ev -> guarded s -> guarded (step ev s).
Proof.
  intros Hev [Hlen Hidle]. destruct ev as [[v|a| |key shift]|env];
    cbn [step on_dom]; try contradiction.
  - rewrite sent_since_same, app_nil_r by reflexivity. split; assumption.
  - rewrite sent_since_same, app_nil_r by reflexivity. split; assumption.
  - destruct (sendDisabled (ui s)) eqn:D.
    + rewrite sent_since_same, app_nil_r by reflexivity.
      split; [exact Hlen|]. cbn [ui]. congruence.
    + destruct (sendMessage_cases (ui s)) as [E|(sub & E & D')].
      * rewrite E, sent_since_same, app_nil_r by reflexivity.
        split; [exact Hlen|]. cbn [ui]. intros _. apply Hidle. reflexivity.
      * unfold sent_since. rewrite E, drop_app_length, (Hidle eq_refl).
        split; [cbn; lia|]. cbn [ui]. congruence.
  - destruct s as [u p wd]. cbn [pending ui world] in *.
    destruct p as [|r [|r' rest]]; cbn [length] in Hlen; [| |lia].
    + split; [exact Hlen|exact Hidle].
    + split; [cbn; lia|reflexivity].
Qed.

Lemma clicks_keep_one_in_flight (evs : list Event) (w : World) :
  Forall no_keydown evs -> guarded (run evs (start w)).
Proof.
  intros Hevs. unfold run.
  assert (G : guarded (start w)) by (split; [cbn; lia|reflexivity]).
  revert G. generalize (start w).
  induction Hevs as [|ev evs Hev _ IH]; intros s G; [exact G|].
  cbn [fold_left]. apply IH. apply step_guarded; assumption.
Qed.

End InFlight.
End InFlight.

(** ** Prose and fences without a marker *)

Module Skipping.
Import Examples.

Lemma is_word_facts (a : N) :
  is_word a = true -> is_space a = false /\ a <> LF /\ a <> BACKTICK.
Proof.
  unfold is_word, is_space, LF, BACKTICK. intros Hw.
  rewrite !orb_true_iff, !andb_true_iff, !N.leb_le, !N.eqb_eq in Hw.
  split; [|lia].
  apply not_true_is_false.
  rewrite !orb_true_iff, !andb_true_iff, !N.leb_le, !N.eqb_eq. lia.
Qed.

Lemma strip_prefix_none_app (p w t0 : text) :
  strip_prefix p w = None ->
  match t0 with
  | [] => True
  | c :: _ => forallb (fun a => negb (a =? c)) p = true
  end ->
  strip_prefix p (w ++ t0) = None.
Proof.
  revert w. induction p as [|a p IH]; intros w Hw Ht; [discriminate|].
  destruct w as [|b w]; cbn [app].
  - destruct t0 as [|c y]; [reflexivity|]. cbn [strip_prefix forallb] in *.
    apply andb_true_iff in Ht as [Hac _]. destruct (a =? c); [discriminate|].
    reflexivity.
  - cbn [strip_prefix] in *. destruct (a =? b); [|reflexivity].
    apply IH; [exact Hw|]. destruct t0 as [|c y]; [exact I|].
    cbn [forallb] in Ht. apply andb_true_iff in Ht as [_ Ht]. exact Ht.
Qed.

Lemma occurs_cons (p : text) a x :
  occurs p (a :: x) = false ->
  strip_prefix p (a :: x) = None /\ occurs p x = false.
Proof.
  cbn [occurs]. destruct (strip_prefix p (a :: x)); [discriminate|]. auto.
Qed.

Lemma marker_not_after_space (z : text) :
  strip_prefix MARKER (trimStart z) = None -> strip_prefix MARKER z = None.
Proof.
  destruct z as [|a z]; [auto|]. cbn [trimStart].
  destruct (is_space a) eqn:Ha; [|auto]. intros _.
  rewrite MARKER_units. cbn [strip_prefix].
  destruct (N.eqb_spec 47 a) as [<-|]; [discriminate|reflexivity].
Qed.

(** The marker does not follow the white space at the head of
    [body ++ t0]. *)
Lemma no_marker_after_space (body t0 : text) :
  occurs MARKER body = false ->
  strip_prefix MARKER (trimStart t0) = None ->
  match t0 with
  | [] => True
  | c :: _ => forallb (fun a => negb (a =? c)) MARKER = true
  end ->
  strip_prefix MARKER (trimStart (body ++ t0)) = None.
Proof.
  intros Hb Ht Hc. induction body as [|a body IH]; [exact Ht|].
  apply occurs_cons in Hb as [Hhere Hb]. cbn [app trimStart].
  destruct (is_space a); [apply IH, Hb|].
  change (a :: body ++ t0) with ((a :: body) ++ t0).
  apply strip_prefix_none_app; assumption.
Qed.

Section Attempts.
Context {R : Type}.
Implicit Types (k : text -> caps -> option R).

Lemma star_greedy_none (p : N -> bool) (w x : text) (k : text -> option R) :
  forallb p w = true ->
  match x with [] => True | a :: _ => p a = false end ->
  (forall w1 w2, w = w1 ++ w2 -> k (w2 ++ x) = None) ->
  star_greedy p (w ++ x) k = None.
Proof.
  intros Hw Hx Hk. induction w as [|a w IH]; cbn [app].
  - specialize (Hk [] [] eq_refl). cbn [app] in Hk.
    destruct x as [|b x]; cbn [star_greedy]; [exact Hk|]. rewrite Hx. exact Hk.
  - cbn [forallb] in Hw. apply andb_true_iff in Hw as [Ha Hw].
    cbn [star_greedy]. rewrite Ha, IH.
    + apply (Hk [] (a :: w)). reflexivity.
    + exact Hw.
    + intros w1 w2 ->. apply (Hk (a :: w1) w2). reflexivity.
Qed.

(** After the white space at the head of [z] the marker does not come: the
    part of the pattern from [\s*] on fails, however much the greedy run
    gives back. *)
Lemma greedy_space_no_marker (z : text) r c k :
  strip_prefix MARKER (trimStart z) = None ->
  rmatch (Star true is_space +++ Lit [LF] +++ Lit MARKER +++ r)%re z c k = None.
Proof.
  rewrite rmatch_seq, rmatch_greedy. induction z as [|a z IH]; intros Hz.
  - reflexivity.
  - cbn [star_greedy]. cbn [trimStart] in Hz.
    assert (K : rmatch (Lit [LF] +++ Lit MARKER +++ r)%re (a :: z) c k = None).
    { rewrite rmatch_seq. destruct (N.eqb_spec LF a) as [<-|Hne].
      - rewrite rmatch_lit1, rmatch_seq. cbn [rmatch].
        change (is_space LF) with true in Hz. cbv iota in Hz.
        rewrite (marker_not_after_space z Hz). reflexivity.
      - apply rmatch_lit_mismatch. exact Hne. }
    destruct (is_space a); [|exact K].
    rewrite (IH Hz). exact K.
Qed.

End Attempts.

Lemma match_here_needs_fence (z : text) :
  strip_prefix FENCE z = None -> match_here codeBlockRegex z = None.
Proof.
  intros Hz. unfold match_here, codeBlockRegex.
  change (utf16 "```") with FENCE. rewrite rmatch_seq. cbn [rmatch].
  rewrite Hz. reflexivity.
Qed.

(** The attempt at a fence fails when a tag, then white space without the
    marker after it, follow. *)
Lemma match_here_no_marker (tag z : text) :
  forallb is_word tag = true ->
  match z with [] => True | a :: _ => is_word a = false end ->
  strip_prefix MARKER (trimStart z) = None ->
  match_here codeBlockRegex (FENCE ++ tag ++ z) = None.
Proof.
  intros Htag Hz Hm. unfold match_here, codeBlockRegex.
  change (utf16 "```") with FENCE. change (utf16 "// FILE: ") with MARKER.
  rewrite rmatch_seq, rmatch_lit, rmatch_seq, rmatch_greedy.
  apply star_greedy_none; [exact Htag|exact Hz|].
  intros w1 [|a w2] Hsplit.
  - cbn [app]. apply greedy_space_no_marker. exact Hm.
  - cbn [app]. apply greedy_space_no_marker. cbn [trimStart].
    assert (Ha : is_word a = true).
    { subst tag. rewrite forallb_app in Htag.
      apply andb_true_iff in Htag as [_ Htag]. cbn [forallb] in Htag.
      apply andb_true_iff in Htag as [Ha _]. exact Ha. }
    destruct (is_word_facts a Ha) as (Hs & _ & _). rewrite Hs.
    rewrite MARKER_units. cbn [strip_prefix].
    destruct (N.eqb_spec 47 a) as [<-|]; [discriminate|reflexivity].
Qed.

(** [exec] moves past a fence at which the attempt fails. *)
Lemma exec_past_fence (y : text) :
  match_here codeBlockRegex (FENCE ++ y) = None ->
  match y with [] => True | a :: _ => a <> BACKTICK end ->
  exec codeBlockRegex (FENCE ++ y) = exec codeBlockRegex y.
Proof.
  intros Hm Hy. rewrite FENCE_units in *. cbn [app] in *.
  cbn [exec]. rewrite Hm.
  rewrite (match_here_needs_fence (96 :: 96 :: y)),
          (match_here_needs_fence (96 :: y)); [reflexivity| |].
  - rewrite FENCE_units. cbn [strip_prefix]. rewrite !N.eqb_refl.
    destruct y as [|a y]; [reflexivity|].
    destruct (N.eqb_spec 96 a) as [<-|]; [|reflexivity].
    exfalso. apply Hy. reflexivity.
  - rewrite FENCE_units. cbn [strip_prefix]. rewrite !N.eqb_refl.
    destruct y as [|a y]; [reflexivity|].
    destruct (N.eqb_spec 96 a) as [<-|]; [|reflexivity].
    exfalso. apply Hy. reflexivity.
Qed.

Lemma no_backtick_app (x y : text) :
  no_backtick x -> no_backtick y -> no_backtick (x ++ y).
Proof.
  unfold no_backtick. intros Hx Hy. rewrite forallb_app, Hx, Hy. reflexivity.
Qed.

Lemma word_is_no_backtick (x : text) :
  forallb is_word x = true -> no_backtick x.
Proof.
  unfold no_backtick. induction x as [|a x IH]; [reflexivity|].
  cbn [forallb]. intros Hx. apply andb_true_iff in Hx as [Ha Hx].
  rewrite (IH Hx), andb_true_r. destruct (is_word_facts a Ha) as (_ & _ & Hb).
  destruct (N.eqb_spec a BACKTICK); [contradiction|reflexivity].
Qed.

Lemma marker_not_at_fence (y : text) :
  strip_prefix MARKER (trimStart (FENCE ++ y)) = None.
Proof. reflexivity. Qed.

(** A fenced block without marker, and the prose after it, are passed
    over. *)
Lemma exec_unmarked (tag body prose x : text) :
  forallb is_word tag = true ->
  no_backtick body ->
  occurs MARKER body = false ->
  no_backtick prose ->
  starts_with_LF prose = true ->
  occurs MARKER prose = false ->
  match x with [] => True | a :: _ => a = BACKTICK end ->
  exec codeBlockRegex (render_fenced (Unmarked tag body) ++ prose ++ x)
  = exec codeBlockRegex x.
Proof.
  intros Htag Hbody Hmb Hprose Hlf Hmp Hx.
  cbn [render_fenced]. rewrite <- !app_assoc.
  (* the opening fence *)
  rewrite exec_past_fence.
  2:{ apply match_here_no_marker; [exact Htag|reflexivity|].
      cbn [app trimStart]. change (is_space LF) with true. cbv iota.
      apply no_marker_after_space; [exact Hmb| |reflexivity].
      cbn [trimStart]. change (is_space LF) with true. cbv iota.
      apply marker_not_at_fence. }
  2:{ destruct tag as [|a tag]; [discriminate|].
      cbn [forallb] in Htag. apply andb_true_iff in Htag as [Ha _].
      apply (is_word_facts a Ha). }
  (* the tag and the body *)
  rewrite (app_assoc tag), (app_assoc (tag ++ [LF])),
          (app_assoc ((tag ++ [LF]) ++ body)).
  rewrite exec_skip_prose.
  2:{ repeat apply no_backtick_app;
        [apply word_is_no_backtick, Htag|reflexivity|exact Hbody|reflexivity]. }
  (* the closing fence *)
  destruct prose as [|c prose']; [discriminate|].
  cbn [starts_with_LF] in Hlf. apply N.eqb_eq in Hlf. subst c.
  rewrite exec_past_fence.
  2:{ apply (match_here_no_marker []); [reflexivity|reflexivity|].
      apply no_marker_after_space; [exact Hmp| |].
      - destruct x as [|a x]; [reflexivity|]. subst a. reflexivity.
      - destruct x as [|a x]; [exact I|]. subst a. reflexivity. }
  2:{ discriminate. }
  apply exec_skip_prose. exact Hprose.
Qed.

Lemma extract_exec_eq (x y : text) :
  exec codeBlockRegex x = exec codeBlockRegex y -> extract x = extract y.
Proof.
  intros E. destruct (exec codeBlockRegex y) as [[m rest]|] eqn:Ey.
  - rewrite (extract_match x m rest E), (extract_match y m rest Ey).
    reflexivity.
  - rewrite (extract_none x E), (extract_none y Ey). reflexivity.
Qed.

Lemma render_items_head (items : list (Fenced * text)) :
  match render_items items with [] => True | a :: _ => a = BACKTICK end.
Proof.
  destruct items as [|[[b|tag body] prose] items]; [exact I| |];
    cbn [render_items render_fenced]; unfold render_block;
    rewrite FENCE_units; reflexivity.
Qed.

Lemma extract_items (opening : text) (items : list (Fenced * text)) :
  no_backtick opening ->
  Forall item_ok items ->
  extract (opening ++ render_items items) = intents_of items.
Proof.
  intros Hopening Hitems. revert opening Hopening.
  induction Hitems as [|[[b|tag body] prose] items [Hprose Hf] _ IH];
    intros opening Hopening; cbn [fst snd] in *.
  - rewrite app_nil_r. apply extract_none, exec_no_backtick, Hopening.
  - cbn [render_items render_fenced intents_of].
    rewrite (extract_match _ [(2%nat, body b); (1%nat, marker_arg b)]
               (prose ++ render_items items)).
    + rewrite (IH prose Hprose). reflexivity.
    + rewrite exec_skip_prose by exact Hopening.
      apply exec_here, match_block, Hf.
  - destruct Hf as (Htag & Hbody & Hmb & Hlf & Hmp).
    cbn [render_items intents_of].
    rewrite <- (IH [] eq_refl). cbn [app]. apply extract_exec_eq.
    rewrite exec_skip_prose by exact Hopening.
    apply exec_unmarked; try assumption. apply render_items_head.
Qed.

(** C6, as the specification states it, fails.  A block whose closing fence
    is missing stands before a well-formed block.  The unterminated block
    is not skipped: it takes the opening fence of its neighbour for its own
    closing fence, and the neighbour's intent is lost. *)
Lemma unterminated_block_takes_the_next_fence :
  well_formed following_block
  /\ extract (render_block following_block)
     = [{| relativePath := utf16 "b.py"; content := utf16 "print(1)" |}]
  /\ extract (unterminated_block ++ render_block following_block)
     = [{| relativePath := utf16 "a.js"; content := utf16 "let a = 1" |}].
Proof. repeat (apply conj); vm_compute; reflexivity. Qed.

(** C6, amended.  Extraction is defined on every text, and it ends by a
    failed match, not for want of fuel.  In a text made of prose, of
    well-formed blocks and of fenced blocks that lack the marker line, the
    prose and the blocks without marker are passed over, and the
    well-formed blocks yield their intents, in order, as if the others were
    not there.  A block with a marker line ends at the first line that
    begins with a fence, whatever follows that fence: one whose own closing
    fence is missing is closed by the next fence of the text. *)
Theorem unmarked_fences_are_skipped
        (opening : text) (items : list (Fenced * text)) :
  no_backtick opening ->
  Forall item_ok items ->
  let response := opening ++ render_items items in
  extract response = intents_of items
  /\ (forall fuel, (length response < fuel)%nat ->
        extract_loop fuel response = extract response)
  /\ (forall b rest,
        well_formed b ->
        extract (render_block b ++ rest) = intent_of_block b :: extract rest).
Proof.
  intros Hopening Hitems response. split; [|split].
  - apply extract_items; assumption.
  - intros fuel Hfuel. apply extract_loop_fuel; lia.
  - intros b rest Hb.
    apply (extract_match _ [(2%nat, body b); (1%nat, marker_arg b)] rest).
    apply exec_here, match_block, Hb.
Qed.

Lemma unmarked_fences_are_skipped_witness :
  no_backtick opening_prose
  /\ Forall item_ok mixed_response
  /\ let response := opening_prose ++ render_items mixed_response in
     extract response = intents_of mixed_response
     /\ (forall fuel, (length response < fuel)%nat ->
           extract_loop fuel response = extract response)
     /\ (forall b rest,
           well_formed b ->
           extract (render_block b ++ rest)
           = intent_of_block b :: extract rest).
Proof.
  assert (Hitems : Forall item_ok mixed_response).
  { repeat constructor. }
  split; [reflexivity|]. split; [exact Hitems|].
  exact (unmarked_fences_are_skipped opening_prose mixed_response
           eq_refl Hitems).
Defined.

End Skipping.

(** ** The theorems at concrete requests *)

Module Scenarios.
Import Posix PosixFacts Examples.

Lemma remote_failure_reports_and_writes_nothing_witness :
  session (coder_env unauthorized) = Some TOKEN
  /\ remote_call_fails
       (fetch (coder_env unauthorized) (copilot_request TOKEN CODER PROMPT))
  /\ exists e,
      handleCopilotRequest (coder_env unauthorized) PROMPT CODER empty_world
      = (Normal tt,
         {| fs := fs empty_world;
            posted := posted empty_world
                      ++ [ShowError (ERROR_PREFIX ++ e); EndStream];
            shown := shown empty_world ++ [Error (ERROR_PREFIX ++ e)] |}).
Proof.
  split; [reflexivity|]. split; [reflexivity|].
  exact (remote_failure_reports_and_writes_nothing (coder_env unauthorized)
           PROMPT CODER TOKEN empty_world eq_refl eq_refl).
Defined.

(** The scenario of the specification: HTTP 401. *)
Example unauthorized_request :
  handleCopilotRequest (coder_env unauthorized) PROMPT CODER empty_world
  = (Normal tt,
     {| fs := ∅;
        posted := [ShowError (ERROR_PREFIX ++ utf16 "API Error 401: Unauthorized");
                   EndStream];
        shown := [Error (ERROR_PREFIX ++ utf16 "API Error 401: Unauthorized")] |}).
Proof. vm_compute. reflexivity. Qed.

Lemma empty_value_not_null : empty_value <> JNull.
Proof. discriminate. Qed.

Lemma falsy_value_gives_placeholder_witness :
  session (coder_env (Response true 200 (BodyJson empty_value))) = Some TOKEN
  /\ fetch (coder_env (Response true 200 (BodyJson empty_value)))
       (copilot_request TOKEN CODER PROMPT)
     = Response true 200 (BodyJson empty_value)
  /\ empty_value <> JNull
  /\ truthy (get_prop empty_value (utf16 "value")) = false
  /\ (handleCopilotRequest
        (coder_env (Response true 200 (BodyJson empty_value)))
        PROMPT CODER empty_world
      = finally
          (try_catch
             (bind (postMessage (StreamResponse (JStr NO_RESPONSE)))
                (fun _ =>
                   if text_eqb CODER (utf16 "coder")
                   then processAndWriteFiles
                          (coder_env (Response true 200 (BodyJson empty_value)))
                          (JStr NO_RESPONSE)
                   else ret tt))
             report)
          (postMessage EndStream) empty_world
      /\ exists rest,
          posted (snd (handleCopilotRequest
                         (coder_env (Response true 200 (BodyJson empty_value)))
                         PROMPT CODER empty_world))
          = posted empty_world ++ StreamResponse (JStr NO_RESPONSE) :: rest).
Proof.
  split; [reflexivity|]. split; [reflexivity|].
  split; [exact empty_value_not_null|]. split; [reflexivity|].
  exact (falsy_value_gives_placeholder
           (coder_env (Response true 200 (BodyJson empty_value)))
           PROMPT CODER TOKEN 200 empty_value empty_world
           eq_refl eq_refl empty_value_not_null eq_refl).
Defined.

(** With the coder agent and a workspace open, the placeholder holds no
    block: nothing is written. *)
Example empty_value_request :
  handleCopilotRequest (coder_env (Response true 200 (BodyJson empty_value)))
    PROMPT CODER empty_world
  = (Normal tt,
     {| fs := ∅;
        posted := [StreamResponse (JStr NO_RESPONSE); EndStream];
        shown := [] |}).
Proof. vm_compute. reflexivity. Qed.

Example scenario_one_file :
  extract scenario_response
    = [{| relativePath := utf16 "a/b.js"; content := utf16 "console.log(1)" |}]
  /\ let r := processAndWriteFiles (coder_env (FetchRejected []))
               (JStr scenario_response) empty_world in
     read (fs (snd r)) (workspace ++ [utf16 "a"; utf16 "b.js"])
       = Some (utf16 "console.log(1)")
     /\ posted (snd r)
        = [AddSystemMessage
             (utf16 "1 arquivo(s) foram criados/modificados no seu projeto.")].
Proof. cbv zeta. repeat (apply conj); vm_compute; reflexivity. Qed.



Example failure_in_the_middle :
  let r := processAndWriteFiles (coder_env (FetchRejected []))
             (JStr blocked_response) empty_world in
  shown (snd r)
    = [Information (utf16 "Arquivo salvo: a");
       Error (utf16 "Falha ao salvar o arquivo a/b: EEXIST: file already exists");
       Information (utf16 "Arquivo salvo: c")]
  /\ posted (snd r)
     = [AddSystemMessage
          (utf16 "2 arquivo(s) foram criados/modificados no seu projeto.")]
  /\ read (fs (snd r)) (workspace ++ [utf16 "c"]) = Some (utf16 "three").
Proof. cbv zeta. repeat (apply conj); vm_compute; reflexivity. Qed.

Lemma partial_failure_semantics_witness :
  workspaceFolders (coder_env (FetchRejected [])) = Some [workspace]
  /\ let intents := extract blocked_response in
     let r := processAndWriteFiles (coder_env (FetchRejected []))
                (JStr blocked_response) empty_world in
     let os := snd (apply_intents (workspace : Uri) intents (fs empty_world)) in
     fst r = Normal tt
     /\ fs (snd r) = fst (apply_intents (workspace : Uri) intents (fs empty_world))
     /\ map path os = map relativePath intents
     /\ shown (snd r) = shown empty_world ++ map notification_of os
     /\ posted (snd r)
        = posted empty_world ++ files_notice (count_succeeded os)
     /\ (count_succeeded os = 0%N -> posted (snd r) = posted empty_world)
     /\ forall before i after,
         intents = before ++ i :: after ->
         let f1 := fst (apply_intents (workspace : Uri) before (fs empty_world)) in
         let f2 := fst (write_intent (workspace : Uri) i f1) in
         os = snd (apply_intents (workspace : Uri) before (fs empty_world))
              ++ snd (write_intent (workspace : Uri) i f1)
              :: snd (apply_intents (workspace : Uri) after f2).
Proof.
  split; [reflexivity|].
  exact (partial_failure_semantics (coder_env (FetchRejected [])) workspace []
           blocked_response empty_world eq_refl).
Defined.

(** C9, as the specification states it, fails.  In a workspace where [a]
    is a file, the response asks for [a/b] and for [a/c]: both writes are
    attempted, both are rejected and reported one by one, and no count is
    posted to the panel; the aggregate that would say that no write
    succeeded does not exist. *)
Lemma failed_batch_posts_no_count :
  let r := processAndWriteFiles (coder_env (FetchRejected []))
             (JStr beneath_a_file) occupied_world in
  map relativePath (extract beneath_a_file) = [utf16 "a/b"; utf16 "a/c"]
  /\ fst r = Normal tt
  /\ shown (snd r)
     = [Error (utf16 "Falha ao salvar o arquivo a/b: EEXIST: file already exists");
        Error (utf16 "Falha ao salvar o arquivo a/c: EEXIST: file already exists")]
  /\ count_succeeded
       (snd (apply_intents (workspace : Uri) (extract beneath_a_file)
               (fs occupied_world))) = 0%N
  /\ posted (snd r) = []
  /\ fs (snd r) = fs occupied_world.
Proof. cbv zeta. repeat (apply conj); vm_compute; reflexivity. Qed.

End Scenarios.

(** * Further properties of the code *)

(** ** What a computation leaves alone *)

Section RespectsFacts.
Context {H : Host}.
Context (R : World -> World -> Prop) {PR : PreOrder R}.
Local Open Scope eff_scope.

Lemma respects_ret {A} (a : A) : respects R (ret a).
Proof. intros w. reflexivity. Qed.

Lemma respects_throw {A} (e : text) : respects R (throw (A := A) e).
Proof. intros w. reflexivity. Qed.

Lemma respects_bind {A B} (m : Eff A) (k : A -> Eff B) :
  respects R m -> (forall a, respects R (k a)) -> respects R (bind m k).
Proof.
  intros Hm Hk w. unfold bind. specialize (Hm w).
  destruct (m w) as [[a|e] w1]; cbn [snd] in *; [|exact Hm].
  transitivity w1; [exact Hm|apply Hk].
Qed.

Lemma respects_try_catch {A} (m : Eff A) (h : text -> Eff A) :
  respects R m -> (forall e, respects R (h e)) -> respects R (try_catch m h).
Proof.
  intros Hm Hh w. unfold try_catch. specialize (Hm w).
  destruct (m w) as [[a|e] w1]; cbn [snd] in *; [exact Hm|].
  transitivity w1; [exact Hm|apply Hh].
Qed.

Lemma respects_finally {A} (m : Eff A) (f : Eff unit) :
  respects R m -> respects R f -> respects R (finally m f).
Proof.
  intros Hm Hf w. unfold finally. specialize (Hm w).
  destruct (m w) as [c w1]. specialize (Hf w1).
  destruct (f w1) as [[[]|e] w2]; cbn [snd] in *;
    (transitivity w1; [exact Hm|exact Hf]).
Qed.

Lemma respects_json (b : Body) : respects R (json b).
Proof. destruct b; [apply respects_throw|apply respects_ret]. Qed.

Lemma respects_error_message (v : Json) : respects R (error_message v).
Proof. destruct v; first [apply respects_throw|apply respects_ret]. Qed.

Lemma respects_value_or_default (v : Json) : respects R (value_or_default v).
Proof. destruct v; first [apply respects_throw|apply respects_ret]. Qed.

End RespectsFacts.

Section Relations.
Context {H : Host}.

#[global] Instance same_fs_preorder : PreOrder same_fs.
Proof.
  split; [intros w; reflexivity|].
  intros w1 w2 w3 H12 H23. unfold same_fs in *. congruence.
Qed.

#[global] Instance posted_more_preorder (P : UiMessage -> bool) :
  PreOrder (posted_more P).
Proof.
  split.
  - intros w. exists []. rewrite app_nil_r. auto.
  - intros w1 w2 w3 (l1 & E1 & P1) (l2 & E2 & P2). exists (l1 ++ l2).
    rewrite E2, E1, app_assoc, forallb_app, P1, P2. auto.
Qed.

Lemma same_fs_show n : respects same_fs (show n).
Proof. intros w. reflexivity. Qed.

Lemma same_fs_postMessage m : respects same_fs (postMessage m).
Proof. intros w. reflexivity. Qed.

Lemma same_fs_getAccessToken env : respects same_fs (getAccessToken env).
Proof.
  unfold getAccessToken. destruct (session env).
  - apply respects_ret; apply _.
  - apply respects_bind; [apply _|apply same_fs_show|].
    intros _. apply respects_throw; apply _.
Qed.

Lemma posted_more_show P n : respects (posted_more P) (show n).
Proof. intros w. exists []. cbn. rewrite app_nil_r. auto. Qed.

Lemma posted_more_fs_call P op : respects (posted_more P) (fs_call op).
Proof.
  intros w. exists []. unfold fs_call. destruct (op (fs w)) as [f r].
  cbn. rewrite app_nil_r. auto.
Qed.

Lemma posted_more_postMessage (P : UiMessage -> bool) m :
  P m = true -> respects (posted_more P) (postMessage m).
Proof. intros Hm w. exists [m]. cbn. rewrite Hm. auto. Qed.

Lemma posted_more_write_loop P fuel rootPath x n :
  respects (posted_more P) (write_loop fuel rootPath x n).
Proof.
  revert x n. induction fuel as [|fuel IH]; intros x n; cbn [write_loop].
  - apply respects_ret; apply _.
  - destruct (exec codeBlockRegex x) as [[m rest]|];
      [|apply respects_ret; apply _].
    apply respects_bind; [apply _| |intros a; apply IH].
    unfold write_match. apply respects_try_catch; [apply _| |].
    + repeat (apply respects_bind; [apply _| |intros _]);
        first [apply posted_more_fs_call|apply posted_more_show
              |apply respects_ret; apply _].
    + intros e. apply respects_bind; [apply _|apply posted_more_show|].
      intros _. apply respects_ret; apply _.
Qed.

Lemma posted_more_processAndWriteFiles env responseText :
  respects (posted_more is_notice) (processAndWriteFiles env responseText).
Proof.
  unfold processAndWriteFiles.
  destruct (workspaceFolders env) as [[|rootPath others]|].
  - apply respects_throw; apply _.
  - apply respects_bind; [apply _|apply posted_more_write_loop|].
    intros n. destruct (0 <? n).
    + apply posted_more_postMessage. reflexivity.
    + apply respects_ret; apply _.
  - apply posted_more_show.
Qed.

End Relations.

(** ** Requests: who may write, and what the user is told *)

Section RequestFacts.
Context {H : Host}.
Local Open Scope eff_scope.

Lemma request_answered env userPrompt agent v w :
  answered env userPrompt agent v ->
  request env userPrompt agent w
  = (postMessage (StreamResponse v) ;;
     if text_eqb agent (utf16 "coder")
     then processAndWriteFiles env v
     else ret tt) w.
Proof.
  intros (accessToken & status & result & Hs & Hf & Hnull & Hv & Ht).
  unfold request, getAccessToken, bind at 1. rewrite Hs. unfold ret at 1.
  rewrite Hf. cbn [negb json]. unfold bind at 1. unfold ret at 1.
  assert (V : value_or_default result = ret v).
  { destruct result; try congruence; cbn [value_or_default];
      rewrite Hv, Ht; reflexivity. }
  rewrite V. reflexivity.
Qed.

Lemma same_fs_request env userPrompt agent :
  text_eqb agent (utf16 "coder") = false ->
  respects same_fs (request env userPrompt agent).
Proof.
  intros Hagent. unfold request. rewrite Hagent.
  apply respects_bind; [apply _|apply same_fs_getAccessToken|].
  intros accessToken.
  destruct (fetch env _) as [e|ok status body];
    [apply respects_throw; apply _|].
  destruct ok; cbn [negb].
  - apply respects_bind; [apply _|apply respects_json; apply _|].
    intros result.
    apply respects_bind; [apply _|apply respects_value_or_default; apply _|].
    intros copilotResponse.
    apply respects_bind; [apply _|apply same_fs_postMessage|].
    intros _. apply respects_ret; apply _.
  - apply respects_bind; [apply _|apply respects_json; apply _|].
    intros errorBody.
    apply respects_bind; [apply _|apply respects_error_message; apply _|].
    intros detail. apply respects_throw; apply _.
Qed.

Lemma same_fs_report message : respects same_fs (report message).
Proof.
  unfold report. apply respects_bind; [apply _|apply same_fs_show|].
  intros _. apply same_fs_postMessage.
Qed.

(** X1. Only the agent [coder] reaches the file system: for any other
    agent, [architect] or one the extension does not know, the workspace is
    after the request what it was before, whatever the session, the remote
    call and the response are. *)
Theorem other_agents_write_nothing
        (env : Env) (userPrompt agent : text) (w : World) :
  text_eqb agent (utf16 "coder") = false ->
  fs (snd (handleCopilotRequest env userPrompt agent w)) = fs w.
Proof.
  intros Hagent. unfold handleCopilotRequest.
  apply (respects_finally same_fs).
  - apply respects_try_catch; [apply _| |].
    + apply same_fs_request. exact Hagent.
    + apply same_fs_report.
  - apply same_fs_postMessage.
Qed.

Lemma handle_answered_not_coder env userPrompt agent v w :
  text_eqb agent (utf16 "coder") = false ->
  answered env userPrompt agent v ->
  handleCopilotRequest env userPrompt agent w
  = (Normal tt,
     {| fs := fs w;
        posted := posted w ++ [StreamResponse v; EndStream];
        shown := shown w |}).
Proof.
  intros Hcoder Hans. unfold handleCopilotRequest, finally, try_catch.
  rewrite (request_answered _ _ _ _ _ Hans), Hcoder.
  unfold bind, postMessage, ret. cbn [fs posted shown].
  rewrite <- app_assoc. reflexivity.
Qed.

(** X2. An agent that is neither [architect] nor [coder] is given the
    coder's system prompt, yet its answer is only shown: the request goes
    out with [CODER_PROMPT] before the user's text, and a truthy answer is
    posted as the response event followed by the terminal event, nothing
    else. *)
Theorem unknown_agent_gets_coder_prompt
        (env : Env) (userPrompt agent : text) (v : Json) (w : World)
        (accessToken : text) :
  text_eqb agent (utf16 "architect") = false ->
  text_eqb agent (utf16 "coder") = false ->
  answered env userPrompt agent v ->
  prompt (copilot_request accessToken agent userPrompt)
    = CODER_PROMPT ++ [LF; LF] ++ userPrompt
  /\ handleCopilotRequest env userPrompt agent w
     = (Normal tt,
        {| fs := fs w;
           posted := posted w ++ [StreamResponse v; EndStream];
           shown := shown w |}).
Proof.
  intros Harch Hcoder Hans. split.
  - unfold copilot_request. rewrite Harch. reflexivity.
  - apply handle_answered_not_coder; assumption.
Qed.

(** X3. The coder agent with no folder open: the answer is shown, the user
    is warned once to open a project, nothing is written and no error is
    posted. *)
Theorem no_workspace_warns_and_writes_nothing
        (env : Env) (userPrompt : text) (v : Json) (w : World) :
  answered env userPrompt (utf16 "coder") v ->
  workspaceFolders env = None ->
  handleCopilotRequest env userPrompt (utf16 "coder") w
  = (Normal tt,
     {| fs := fs w;
        posted := posted w ++ [StreamResponse v; EndStream];
        shown := shown w ++ [Warning (utf16 "Abra um projeto (pasta) para que o agente possa criar arquivos.")] |}).
Proof.
  intros Hans Hws. unfold handleCopilotRequest, finally, try_catch.
  rewrite (request_answered _ _ _ _ _ Hans).
  change (text_eqb (utf16 "coder") (utf16 "coder")) with true. cbv iota.
  unfold processAndWriteFiles. rewrite Hws.
  unfold bind, postMessage, show. cbn [fs posted shown].
  rewrite <- app_assoc. reflexivity.
Qed.

(** X4. The coder agent in a workspace that has no folder
    ([workspaceFolders] is an empty array, which is truthy): reading
    [workspaceFolders[0].uri] throws after the answer has been posted, so
    the panel receives the response event, then an error notice, then the
    terminal event; nothing is written. *)
Theorem empty_workspace_posts_response_then_error
        (env : Env) (userPrompt : text) (v : Json) (w : World) :
  answered env userPrompt (utf16 "coder") v ->
  workspaceFolders env = Some [] ->
  handleCopilotRequest env userPrompt (utf16 "coder") w
  = (Normal tt,
     {| fs := fs w;
        posted := posted w
                  ++ [StreamResponse v;
                      ShowError (ERROR_PREFIX ++ type_error "undefined" "uri");
                      EndStream];
        shown := shown w
                 ++ [Error (ERROR_PREFIX ++ type_error "undefined" "uri")] |}).
Proof.
  intros Hans Hws. unfold handleCopilotRequest, finally, try_catch.
  rewrite (request_answered _ _ _ _ _ Hans).
  change (text_eqb (utf16 "coder") (utf16 "coder")) with true. cbv iota.
  unfold processAndWriteFiles. rewrite Hws.
  unfold bind, postMessage, throw, report, bind, show, postMessage.
  cbn [fs posted shown]. rewrite <- !app_assoc. reflexivity.
Qed.

Lemma request_not_ok env userPrompt agent accessToken status errorBody w :
  session env = Some accessToken ->
  fetch env (copilot_request accessToken agent userPrompt)
    = Response false status (BodyJson errorBody) ->
  request env userPrompt agent w
  = (detail <- error_message errorBody ;;
     throw (utf16 "API Error " ++ decimal status ++ utf16 ": " ++ detail)) w.
Proof.
  intros Hs Hf. unfold request, getAccessToken, bind at 1. rewrite Hs.
  unfold ret at 1. rewrite Hf. cbn [negb json]. unfold bind at 1.
  unfold ret at 1. reflexivity.
Qed.

(** X5. A response that is not [ok] and whose body is an object with an
    [error.message] that is a string and not empty: the notice posted and
    shown carries the status of the response and that message. *)
Theorem api_error_carries_server_message
        (env : Env) (userPrompt agent accessToken : text) (status : Z)
        (props eprops : list (text * Json)) (m : text) (w : World) :
  session env = Some accessToken ->
  fetch env (copilot_request accessToken agent userPrompt)
    = Response false status (BodyJson (JObj props)) ->
  assoc (utf16 "error") props = Some (JObj eprops) ->
  assoc (utf16 "message") eprops = Some (JStr m) ->
  m <> [] ->
  handleCopilotRequest env userPrompt agent w
  = (Normal tt,
     {| fs := fs w;
        posted := posted w ++ [ShowError (api_error status m); EndStream];
        shown := shown w ++ [Error (api_error status m)] |}).
Proof.
  intros Hs Hf He Hm Hne.
  unfold handleCopilotRequest, finally, try_catch.
  rewrite (request_not_ok _ _ _ _ _ _ _ Hs Hf).
  assert (E : error_message (JObj props) = ret m).
  { cbn [error_message get_prop]. rewrite He. cbn [get_prop]. rewrite Hm.
    destruct m as [|c m]; [congruence|reflexivity]. }
  rewrite E. unfold bind, ret, throw, report, bind, show, postMessage, api_error.
  cbn [fs posted shown]. rewrite <- !app_assoc. reflexivity.
Qed.

(** X6. A response that is not [ok] and whose body is an object without an
    [error] member: the notice carries the status and the words "Erro
    desconhecido". *)
Theorem api_error_without_message
        (env : Env) (userPrompt agent accessToken : text) (status : Z)
        (props : list (text * Json)) (w : World) :
  session env = Some accessToken ->
  fetch env (copilot_request accessToken agent userPrompt)
    = Response false status (BodyJson (JObj props)) ->
  assoc (utf16 "error") props = None ->
  handleCopilotRequest env userPrompt agent w
  = (Normal tt,
     {| fs := fs w;
        posted := posted w
                  ++ [ShowError (api_error status (utf16 "Erro desconhecido"));
                      EndStream];
        shown := shown w
                 ++ [Error (api_error status (utf16 "Erro desconhecido"))] |}).
Proof.
  intros Hs Hf He.
  unfold handleCopilotRequest, finally, try_catch.
  rewrite (request_not_ok _ _ _ _ _ _ _ Hs Hf).
  assert (E : error_message (JObj props) = ret (utf16 "Erro desconhecido")).
  { cbn [error_message get_prop]. rewrite He. reflexivity. }
  rewrite E. unfold bind, ret, throw, report, bind, show, postMessage, api_error.
  cbn [fs posted shown]. rewrite <- !app_assoc. reflexivity.
Qed.

(** X7. A response that is not [ok] and whose body cannot be read as JSON:
    the rejection of [response.json()] is what the user is told; the status
    of the response does not appear in the notice. *)
Theorem unreadable_error_body_hides_status
        (env : Env) (userPrompt agent accessToken : text) (status : Z)
        (e : text) (w : World) :
  session env = Some accessToken ->
  fetch env (copilot_request accessToken agent userPrompt)
    = Response false status (BodyRejected e) ->
  handleCopilotRequest env userPrompt agent w
  = (Normal tt,
     {| fs := fs w;
        posted := posted w ++ [ShowError (ERROR_PREFIX ++ e); EndStream];
        shown := shown w ++ [Error (ERROR_PREFIX ++ e)] |}).
Proof.
  intros Hs Hf. unfold handleCopilotRequest, finally, try_catch.
  unfold request, getAccessToken, bind at 1. rewrite Hs. unfold ret at 1.
  rewrite Hf. cbn [negb json]. unfold bind, throw, report, bind, show,
    postMessage.
  cbn [fs posted shown]. rewrite <- !app_assoc. reflexivity.
Qed.

(** X26. When no session is obtained the remote endpoint is not called:
    whatever [fetch] would answer, the user is told twice, by the notice of
    [getAccessToken] and by the one of the handler, the page receives one
    error and the terminal event, and nothing is written. *)
Theorem failed_login_makes_no_request
        (env : Env) (userPrompt agent : text) (w : World) :
  session env = None ->
  handleCopilotRequest env userPrompt agent w
  = (Normal tt,
     {| fs := fs w;
        posted := posted w
                  ++ [ShowError (ERROR_PREFIX ++ AUTHENTICATION_FAILED);
                      EndStream];
        shown := shown w
                 ++ [Error LOGIN_NOTICE;
                     Error (ERROR_PREFIX ++ AUTHENTICATION_FAILED)] |}).
Proof.
  intros Hs.
  unfold handleCopilotRequest, finally, try_catch, request, getAccessToken.
  rewrite Hs. unfold report, bind, show, throw, postMessage, LOGIN_NOTICE.
  cbn [fs posted shown]. rewrite <- !app_assoc. reflexivity.
Qed.


End RequestFacts.

(** ** The page and the requests it sends *)

Module PageFacts.
Import Webview Session Format Page.

Lemma last_bot_system (l sys : list (Kind * text)) :
  Forall (fun e => fst e = system) sys -> last_bot (l ++ sys) = last_bot l.
Proof.
  intros Hs. induction l as [|[k x] l IH]; cbn [app last_bot].
  - induction Hs as [|[k x] sys Hk _ IH]; [reflexivity|].
    cbn [last_bot fst] in *. rewrite IH, Hk. reflexivity.
  - rewrite IH. reflexivity.
Qed.

Lemma last_bot_end (l : list (Kind * text)) (x : text) :
  last_bot (l ++ [(bot, x)]) = Some (length l).
Proof.
  induction l as [|[k y] l IH]; [reflexivity|].
  cbn [app last_bot length]. rewrite IH. reflexivity.
Qed.

Lemma last_bot_ge (l : list (Kind * text)) (j : nat) (x : text) :
  l !! j = Some (bot, x) -> exists k, last_bot l = Some k /\ (j <= k)%nat.
Proof.
  revert j. induction l as [|[k y] l IH]; intros j Hj; [discriminate|].
  cbn [last_bot]. destruct j as [|j]; cbn in Hj.
  - inversion Hj; subst. destruct (last_bot l) as [i|]; eexists; split;
      first [reflexivity|lia].
  - destruct (IH j Hj) as (i & -> & Hi). exists (S i). split; [reflexivity|lia].
Qed.

Lemma formatLastBotMessage_messages (u : Ui) :
  messages (formatLastBotMessage u)
  = match last_bot (messages u) with
    | Some i => alter (fun e => (fst e, formatContent (snd e))) i (messages u)
    | None => messages u
    end.
Proof. unfold formatLastBotMessage. destruct (last_bot _); reflexivity. Qed.

Lemma formatLastBotMessage_outbox (u : Ui) :
  outbox (formatLastBotMessage u) = outbox u.
Proof. unfold formatLastBotMessage. destruct (last_bot _); reflexivity. Qed.

Lemma formatLastBotMessage_sendDisabled (u : Ui) :
  sendDisabled (formatLastBotMessage u) = sendDisabled u.
Proof. unfold formatLastBotMessage. destruct (last_bot _); reflexivity. Qed.

Lemma formatLastBotMessage_current (u : Ui) :
  currentBotMessageElement (formatLastBotMessage u)
  = currentBotMessageElement u.
Proof. unfold formatLastBotMessage. destruct (last_bot _); reflexivity. Qed.

Lemma formatLastBotMessage_promptValue (u : Ui) :
  promptValue (formatLastBotMessage u) = promptValue u.
Proof. unfold formatLastBotMessage. destruct (last_bot _); reflexivity. Qed.

Lemma on_message_not_end (m : UiMessage) (u : Ui) :
  is_end m = false -> on_message m u = Webview.on_message m u.
Proof. destruct m; [reflexivity..|discriminate|reflexivity]. Qed.

Lemma deliver_not_end (msgs : list UiMessage) (u : Ui) :
  existsb is_end msgs = false ->
  fold_left (fun u m => on_message m u) msgs u
  = fold_left (fun u m => Webview.on_message m u) msgs u.
Proof.
  revert u. induction msgs as [|m msgs IH]; intros u Hm; [reflexivity|].
  cbn [existsb] in Hm. apply orb_false_iff in Hm as [Hm Hms].
  cbn [fold_left]. rewrite on_message_not_end by exact Hm. apply IH, Hms.
Qed.

Lemma notices_not_end (ns : list UiMessage) :
  forallb is_notice ns = true -> existsb is_end ns = false.
Proof.
  induction ns as [|m ns IH]; [reflexivity|]. cbn [forallb existsb].
  intros Hn. apply andb_true_iff in Hn as [Hm Hn]. rewrite (IH Hn).
  destruct m; try discriminate; reflexivity.
Qed.

Lemma sendMessage_outbox (u : Ui) :
  Forall has_text (outbox u) -> Forall has_text (outbox (sendMessage u)).
Proof.
  intros Hu. unfold sendMessage.
  destruct (text_eqb (trim (promptValue u)) []) eqn:E; [exact Hu|].
  cbn [addMessage fst snd outbox]. apply Forall_app. split; [exact Hu|].
  repeat constructor. exact E.
Qed.

Lemma on_dom_outbox (e : DomEvent) (u : Ui) :
  Forall has_text (outbox u) -> Forall has_text (outbox (on_dom e u)).
Proof.
  intros Hu. destruct e as [v|a| |key shift]; cbn [on_dom outbox];
    try exact Hu.
  - destruct (sendDisabled u); [exact Hu|apply sendMessage_outbox, Hu].
  - destruct (text_eqb key ENTER && negb shift);
      [apply sendMessage_outbox, Hu|exact Hu].
Qed.

Lemma on_message_outbox (m : UiMessage) (u : Ui) :
  outbox (on_message m u) = outbox u.
Proof.
  destruct m; cbn [on_message Webview.on_message]; try reflexivity.
  - destruct (currentBotMessageElement u); reflexivity.
  - rewrite formatLastBotMessage_outbox. reflexivity.
Qed.

Lemma deliver_outbox (msgs : list UiMessage) (u : Ui) :
  outbox (fold_left (fun u m => on_message m u) msgs u) = outbox u.
Proof.
  revert u. induction msgs as [|m msgs IH]; intros u; [reflexivity|].
  cbn [fold_left]. rewrite IH. apply on_message_outbox.
Qed.

Lemma sent_since_suffix (u u' : Ui) :
  Forall has_text (outbox u') -> Forall has_text (sent_since u u').
Proof.
  intros Hu. unfold sent_since.
  rewrite <- (take_drop (length (outbox u)) (outbox u')) in Hu.
  apply Forall_app in Hu as [_ Hu]. exact Hu.
Qed.

Lemma deliver_notices (ns : list UiMessage) (u : Ui) :
  forallb is_notice ns = true ->
  let u' := fold_left (fun u m => Webview.on_message m u) ns u in
  promptValue u' = promptValue u
  /\ currentBotMessageElement u' = currentBotMessageElement u
  /\ exists sys,
      messages u' = messages u ++ sys
      /\ Forall (fun e => fst e = system) sys.
Proof.
  revert u. induction ns as [|m ns IH]; intros u Hns; cbv zeta.
  - cbn [fold_left]. repeat split. exists []. rewrite app_nil_r. auto.
  - cbn [forallb] in Hns. apply andb_true_iff in Hns as [Hm Hns].
    cbn [fold_left].
    destruct (IH (Webview.on_message m u) Hns) as (Ep & Ec & sys & Em & Hs).
    rewrite Ep, Ec, Em.
    destruct m as [v|e| |n]; try discriminate;
      cbn [Webview.on_message addMessage fst
           promptValue currentBotMessageElement messages];
      (repeat split; eexists; rewrite <- app_assoc; split;
       [reflexivity|constructor; [reflexivity|exact Hs]]).
Qed.

(** While no bot element is current, whatever the extension posts leaves
    an element alone that has a bot element after it. *)
Lemma deliver_keeps (msgs : list UiMessage) (u : Ui) (i j : nat) :
  currentBotMessageElement u = None ->
  (i < j)%nat ->
  (exists x, messages u !! j = Some (bot, x)) ->
  messages (fold_left (fun u m => on_message m u) msgs u) !! i
  = messages u !! i.
Proof.
  intros Hc Hij. revert u Hc.
  induction msgs as [|m msgs IH]; intros u Hc (x & Hj); [reflexivity|].
  cbn [fold_left].
  assert (Hlen : (j < length (messages u))%nat)
    by (apply lookup_lt_is_Some; eauto).
  destruct m as [v|e| |n]; cbn [on_message Webview.on_message].
  - rewrite Hc. apply IH; eauto.
  - rewrite IH; cbn [addMessage fst currentBotMessageElement messages].
    + apply lookup_app_l. lia.
    + exact Hc.
    + exists x. rewrite lookup_app_l by lia. exact Hj.
  - destruct (last_bot_ge _ _ _ Hj) as (k & Hk & Hjk).
    rewrite IH.
    + rewrite formatLastBotMessage_messages. cbn [messages]. rewrite Hk.
      apply list_lookup_alter_ne. lia.
    + rewrite formatLastBotMessage_current. reflexivity.
    + rewrite formatLastBotMessage_messages. cbn [messages]. rewrite Hk.
      destruct (decide (k = j)) as [->|Hne].
      * rewrite list_lookup_alter_eq, Hj. exists (formatContent x).
        reflexivity.
      * rewrite list_lookup_alter_ne by exact Hne. eauto.
  - rewrite IH; cbn [addMessage fst currentBotMessageElement messages].
    + apply lookup_app_l. lia.
    + exact Hc.
    + exists x. rewrite lookup_app_l by lia. exact Hj.
Qed.

Section PageFacts.
Context {H : Host}.

(** X8. A prompt that is empty or white space only is never sent: whatever
    the user does and whatever the extension answers, every submission the
    page has posted, and every request pending, has a text that [trim] does
    not empty. *)
Theorem blank_prompt_is_never_sent (evs : list Event) (w : World) :
  let s := run evs (start w) in
  Forall has_text (outbox (ui s)) /\ Forall has_text (pending s).
Proof.
  cbv zeta. unfold run.
  assert (G : Forall has_text (outbox (ui (start w)))
              /\ Forall has_text (pending (start w)))
    by (split; constructor).
  revert G. generalize (start w).
  induction evs as [|ev evs IH]; intros s G; [exact G|].
  cbn [fold_left]. apply IH. destruct G as [Go Gp].
  destruct ev as [e|env]; cbn [step].
  - cbn [ui pending]. split; [apply on_dom_outbox, Go|].
    apply Forall_app. split; [exact Gp|].
    apply sent_since_suffix, on_dom_outbox, Go.
  - destruct (pending s) as [|r rest] eqn:P;
      [split; [exact Go|rewrite P; constructor]|].
    cbn [ui pending]. rewrite deliver_outbox. split; [exact Go|].
    inversion Gp; assumption.
Qed.

Lemma handle_posted (env : Env) (userPrompt agent : text) (w : World) :
  exists msgs,
    posted (snd (handleCopilotRequest env userPrompt agent w))
    = posted w ++ msgs ++ [EndStream].
Proof.
  unfold handleCopilotRequest, finally.
  destruct (posts_no_end_try_catch _ _
              (posts_no_end_request env userPrompt agent)
              posts_no_end_report w) as (msgs & E & _).
  destruct (try_catch _ _ w) as [c w1]. cbn [snd] in E.
  exists msgs. cbn [postMessage snd posted]. rewrite E, app_assoc.
  reflexivity.
Qed.

(** X9. When a pending request comes to its end, however it ends, the
    page is ready for the next one: the send button is enabled again, no
    bot element is current, and the request is no longer pending. *)
Theorem completion_enables_the_button (env : Env) (s : State) :
  pending s <> [] ->
  let s' := step (Complete env) s in
  sendDisabled (ui s') = false
  /\ currentBotMessageElement (ui s') = None
  /\ length (pending s') = pred (length (pending s)).
Proof.
  intros Hp. cbv zeta. cbn [step].
  destruct (pending s) as [|r rest]; [congruence|].
  destruct (handle_posted env (sub_text r) (sub_agent r) (world s))
    as (msgs & E).
  cbn [ui pending]. rewrite E, drop_app_length, fold_left_app.
  cbn [fold_left on_message].
  rewrite formatLastBotMessage_sendDisabled, formatLastBotMessage_current.
  cbn [Webview.on_message sendDisabled currentBotMessageElement length pred].
  auto.
Qed.

Lemma handle_answered_posted env userPrompt agent v w :
  answered env userPrompt agent v ->
  exists notices,
    posted (snd (handleCopilotRequest env userPrompt agent w))
    = posted w ++ StreamResponse v :: notices ++ [EndStream]
    /\ forallb is_notice notices = true.
Proof.
  intros Hans. unfold handleCopilotRequest, finally, try_catch.
  rewrite (request_answered _ _ _ _ _ Hans). unfold bind at 1.
  unfold postMessage at 1.
  set (w1 := {| fs := fs w; posted := posted w ++ [StreamResponse v];
                shown := shown w |}).
  assert (K : respects (posted_more is_notice)
                (if text_eqb agent (utf16 "coder")
                 then processAndWriteFiles env v else ret tt)).
  { destruct (text_eqb agent _);
      [apply posted_more_processAndWriteFiles|apply respects_ret; apply _]. }
  destruct (K w1) as (l1 & E1 & N1).
  destruct ((if text_eqb agent (utf16 "coder")
             then processAndWriteFiles env v else ret tt) w1)
    as [[[]|e] w2]; cbn [snd] in E1.
  - exists l1. cbn [postMessage snd posted]. rewrite E1. subst w1.
    cbn [posted]. rewrite <- !app_assoc. auto.
  - exists (l1 ++ [ShowError (ERROR_PREFIX ++ e)]).
    unfold report, bind, show, postMessage. cbn [snd posted].
    rewrite E1. subst w1. cbn [posted]. rewrite <- !app_assoc.
    split; [reflexivity|]. rewrite forallb_app, N1. reflexivity.
Qed.

(** What the page is after [Input t] and a click from an idle state. *)
Lemma click_sends (u : Ui) (t : text) :
  sendDisabled u = false ->
  text_eqb (trim t) [] = false ->
  on_dom Click (on_dom (Input t) u)
  = {| promptValue := []; agentValue := agentValue u; sendDisabled := true;
       currentBotMessageElement := Some (S (length (messages u)));
       messages := messages u ++ [(user, t); (bot, [])];
       outbox := outbox u ++ [{| sub_text := t; sub_agent := agentValue u |}] |}.
Proof.
  intros Hd Ht. cbn [on_dom sendDisabled]. rewrite Hd.
  unfold sendMessage. cbn [promptValue]. rewrite Ht.
  cbn [addMessage fst snd agentValue sendDisabled currentBotMessageElement
       messages outbox promptValue].
  rewrite length_app, <- app_assoc, Nat.add_1_r. reflexivity.
Qed.

(** The same for the Enter key, whatever the state of the button. *)
Lemma enter_sends (u : Ui) (t : text) :
  text_eqb (trim t) [] = false ->
  on_dom (Keydown ENTER false) (on_dom (Input t) u)
  = {| promptValue := []; agentValue := agentValue u; sendDisabled := true;
       currentBotMessageElement := Some (S (length (messages u)));
       messages := messages u ++ [(user, t); (bot, [])];
       outbox := outbox u ++ [{| sub_text := t; sub_agent := agentValue u |}] |}.
Proof.
  intros Ht.
  assert (HE : text_eqb ENTER ENTER && negb false = true)
    by (vm_compute; reflexivity).
  cbn [on_dom]. rewrite HE.
  unfold sendMessage. cbn [promptValue]. rewrite Ht.
  cbn [addMessage fst snd agentValue sendDisabled currentBotMessageElement
       messages outbox promptValue].
  rewrite length_app, <- app_assoc, Nat.add_1_r. reflexivity.
Qed.

(** The answer [v] and the notices after it, delivered to a page whose
    current bot element is the last bot element of the log, at [el]. *)
Lemma deliver_answer (u : Ui) (l : list (Kind * text)) (v : Json)
      (notices : list UiMessage) :
  messages u = l ++ [(bot, [])] ->
  currentBotMessageElement u = Some (length l) ->
  forallb is_notice notices = true ->
  let u' := fold_left (fun u m => on_message m u)
                      (StreamResponse v :: notices ++ [EndStream]) u in
  promptValue u' = promptValue u
  /\ currentBotMessageElement u' = None
  /\ exists sys,
      messages u' = l ++ [(bot, formatContent (toString v))] ++ sys
      /\ Forall (fun e => fst e = system) sys.
Proof.
  intros Hm Hc N. cbv zeta. cbn [fold_left]. rewrite fold_left_app.
  cbn [fold_left]. rewrite deliver_not_end by (apply notices_not_end, N).
  cbn [on_message].
  match goal with
  | |- context [fold_left _ notices ?u0] =>
    destruct (deliver_notices notices u0 N) as (Ep & _ & sys & Em & Hs);
    set (u1 := fold_left _ notices u0) in *
  end.
  rewrite formatLastBotMessage_promptValue, formatLastBotMessage_current,
    formatLastBotMessage_messages.
  cbn [Webview.on_message promptValue currentBotMessageElement messages] in *.
  rewrite Hc in *. cbn [promptValue messages] in *.
  rewrite Hm in Em. rewrite <- (Nat.add_0_r (length l)) in Em.
  rewrite alter_app_r in Em. cbn [alter list_alter fst snd app] in Em.
  rewrite Ep, Em. split; [reflexivity|]. split; [reflexivity|].
  exists sys. split; [|exact Hs].
  rewrite (last_bot_system (l ++ [(bot, toString v)]) sys Hs), last_bot_end.
  rewrite alter_app_l by (rewrite length_app; cbn [length]; lia).
  rewrite <- (Nat.add_0_r (length l)), alter_app_r.
  cbn [alter list_alter fst snd]. rewrite <- !app_assoc. reflexivity.
Qed.

(** X10. One request from an idle page, answered by a text without
    markup ([plain_text]): the user's text and a bot element are appended
    to the log, the answer is written into that bot element and formatted
    when the request ends, and whatever else the request reports follows
    as system messages; the prompt is left empty and nothing is
    pending. *)
Theorem answer_fills_its_bot_element
        (s : State) (t : text) (env : Env) (a : text) :
  pending s = [] ->
  sendDisabled (ui s) = false ->
  text_eqb (trim t) [] = false ->
  answered env t (agentValue (ui s)) (JStr a) ->
  plain_text a ->
  let s' := run [Dom (Input t); Dom Click; Complete env] s in
  pending s' = []
  /\ promptValue (ui s') = []
  /\ exists sys,
      messages (ui s')
      = messages (ui s) ++ [(user, t); (bot, formatContent a)] ++ sys
      /\ Forall (fun e => fst e = system) sys.
Proof.
  intros Hp Hd Ht Hans _. cbv zeta. unfold run. cbn [fold_left].
  destruct s as [u p wd]. cbn [pending ui world] in *. subst p.
  cbn [step ui pending world].
  rewrite (click_sends u t Hd Ht).
  unfold sent_since. cbn [outbox on_dom]. rewrite drop_all, drop_app_length.
  cbn [app sub_text sub_agent ui pending world].
  destruct (handle_answered_posted env t (agentValue u) (JStr a) wd Hans)
    as (notices & E & N).
  rewrite E, drop_app_length.
  match goal with
  | |- context [fold_left _ _ ?u0] =>
    destruct (deliver_answer u0 (messages u ++ [(user, t)]) (JStr a) notices)
      as (Ep & _ & sys & Em & Hs)
  end.
  { cbn [messages]. rewrite <- app_assoc. reflexivity. }
  { cbn [currentBotMessageElement]. rewrite length_app, Nat.add_1_r.
    reflexivity. }
  { exact N. }
  split; [reflexivity|]. rewrite Ep, Em. split; [reflexivity|].
  exists sys. split; [|exact Hs]. cbn [toString].
  rewrite <- !app_assoc. reflexivity.
Qed.

(** X11. Answers go to the bot element created last, not to the one of
    their question.  When a second prompt is sent with the Enter key while
    the first request is pending, the answer to the first question, a text
    without markup ([plain_text]), is written into the bot element of the
    second question; the bot element of the first question is empty then,
    and it stays empty when the second request has ended, however that
    request ends. *)
Theorem overlapping_answer_is_misplaced
        (s : State) (t1 t2 : text) (env1 : Env) (a1 : text) :
  pending s = [] ->
  sendDisabled (ui s) = false ->
  text_eqb (trim t1) [] = false ->
  text_eqb (trim t2) [] = false ->
  answered env1 t1 (agentValue (ui s)) (JStr a1) ->
  plain_text a1 ->
  let n := length (messages (ui s)) in
  let s1 := run [Dom (Input t1); Dom Click;
                 Dom (Input t2); Dom (Keydown ENTER false);
                 Complete env1] s in
  pending s1 = [{| sub_text := t2; sub_agent := agentValue (ui s) |}]
  /\ messages (ui s1) !! S n = Some (bot, [])
  /\ messages (ui s1) !! S (S (S n)) = Some (bot, formatContent a1)
  /\ forall env2,
      let s2 := step (Complete env2) s1 in
      pending s2 = [] /\ messages (ui s2) !! S n = Some (bot, []).
Proof.
  intros Hp Hd Ht1 Ht2 Hans _. cbv zeta. unfold run. cbn [fold_left].
  destruct s as [u p wd]. cbn [pending ui world] in *. subst p.
  cbn [step ui pending world].
  rewrite (click_sends u t1 Hd Ht1), enter_sends by exact Ht2.
  unfold sent_since. cbn [outbox on_dom agentValue messages].
  rewrite !drop_all, !drop_app_length.
  cbn [app sub_text sub_agent ui pending world].
  destruct (handle_answered_posted env1 t1 (agentValue u) (JStr a1) wd Hans)
    as (notices & E & N).
  rewrite E, drop_app_length.
  match goal with
  | |- context [fold_left _ _ ?u0] =>
    destruct (deliver_answer u0
                (messages u ++ [(user, t1); (bot, []); (user, t2)])
                (JStr a1) notices)
      as (_ & Ec & sys & Em & Hs);
    [| |exact N|set (u1 := fold_left _ _ u0) in *]
  end.
  { cbn [messages]. rewrite <- !app_assoc. reflexivity. }
  { cbn [currentBotMessageElement]. rewrite !length_app. cbn [length].
    f_equal. lia. }
  assert (L1 : messages u1 !! S (length (messages u)) = Some (bot, [])).
  { rewrite Em, <- app_assoc.
    rewrite lookup_app_r by lia.
    replace (S (length (messages u)) - length (messages u))%nat with 1%nat
      by lia.
    reflexivity. }
  assert (L3 : messages u1 !! S (S (S (length (messages u))))
               = Some (bot, formatContent a1)).
  { rewrite Em, <- app_assoc.
    rewrite lookup_app_r by lia.
    replace (S (S (S (length (messages u)))) - length (messages u))%nat
      with 3%nat by lia.
    reflexivity. }
  split; [reflexivity|]. split; [exact L1|]. split; [exact L3|].
  intros env2. cbn [pending world ui].
  split; [reflexivity|].
  rewrite (deliver_keeps _ u1 (S (length (messages u)))
             (S (S (S (length (messages u)))))); eauto.
Qed.




End PageFacts.
End PageFacts.

(** ** The formatting of an answer *)

Module FormatFacts.
Import Format.

Lemma formatRegex_fence :
  formatRegex
  = (Lit FENCE +++ Group 1 (Star true is_word) +++ Lit [LF]
     +++ Group 2 (Star false is_any) +++ Lit [LF] +++ Lit FENCE)%re.
Proof. reflexivity. Qed.

Lemma match_format_nil : match_here formatRegex [] = None.
Proof. reflexivity. Qed.

Lemma match_format_not_backtick (a : N) (x : text) :
  a <> BACKTICK -> match_here formatRegex (a :: x) = None.
Proof.
  intros Ha. unfold match_here. rewrite formatRegex_fence, FENCE_units.
  cbn [rmatch strip_prefix].
  destruct (N.eqb_spec 96 a); [|reflexivity]. subst a. contradiction.
Qed.

Lemma match_format_shorter (x : text) (c : caps) (rest : text) :
  match_here formatRegex x = Some (c, rest) -> (length rest < length x)%nat.
Proof.
  unfold match_here. rewrite formatRegex_fence.
  match goal with
  | |- rmatch (Seq _ ?t) _ _ _ = _ -> _ => remember t as tl
  end.
  cbn [rmatch].
  destruct (strip_prefix FENCE x) as [x1|] eqn:E; [|discriminate].
  apply strip_prefix_Some in E. subst x. intros Hm.
  apply rmatch_suffix in Hm as (y & c' & Hy & L).
  inversion Hy; subst. rewrite length_app, FENCE_units. cbn [length]. lia.
Qed.

Lemma search_shorter (x skipped : text) (c : caps) (rest : text) :
  search formatRegex x = Some (skipped, c, rest) ->
  (length rest < length x)%nat.
Proof.
  revert skipped. induction x as [|a x IH]; intros skipped; cbn [search].
  - rewrite match_format_nil. discriminate.
  - destruct (match_here formatRegex (a :: x)) as [[c' r']|] eqn:E.
    + intros [= _ -> ->]. apply match_format_shorter in E. exact E.
    + destruct (search formatRegex x) as [[[sk c'] r']|]; [|discriminate].
      intros [= _ -> ->]. specialize (IH sk eq_refl). cbn [length]. lia.
Qed.

Lemma search_prose (prose x : text) :
  no_backtick prose ->
  search formatRegex (prose ++ x)
  = match search formatRegex x with
    | Some (skipped, c, rest) => Some (prose ++ skipped, c, rest)
    | None => None
    end.
Proof.
  unfold no_backtick. induction prose as [|a prose IH]; intros Hp.
  - cbn [app]. destruct (search formatRegex x) as [[[sk c] r]|]; reflexivity.
  - cbn [forallb] in Hp. apply andb_true_iff in Hp as [Ha Hp].
    cbn [app search]. rewrite match_format_not_backtick
      by (intros ->; discriminate).
    rewrite (IH Hp).
    destruct (search formatRegex x) as [[[sk c] r]|]; reflexivity.
Qed.

Lemma search_here (x : text) (c : caps) (rest : text) :
  match_here formatRegex x = Some (c, rest) ->
  search formatRegex x = Some ([], c, rest).
Proof. intros Hm. destruct x; cbn [search]; rewrite Hm; reflexivity. Qed.

Lemma search_no_backtick (x : text) :
  no_backtick x -> search formatRegex x = None.
Proof.
  intros Hx. rewrite <- (app_nil_r x), (search_prose x [] Hx). reflexivity.
Qed.

Lemma replace_loop_fuel (f1 f2 : nat) (x : text) :
  (length x < f1)%nat -> (length x < f2)%nat ->
  replace_loop f1 formatRegex replacer x
  = replace_loop f2 formatRegex replacer x.
Proof.
  revert f2 x. induction f1 as [|f1 IH]; intros f2 x H1 H2; [lia|].
  destruct f2 as [|f2]; [lia|]. cbn [replace_loop].
  destruct (search formatRegex x) as [[[sk c] rest]|] eqn:E; [|reflexivity].
  apply search_shorter in E. do 2 f_equal. apply IH; lia.
Qed.

Lemma formatContent_match (x skipped : text) (c : caps) (rest : text) :
  search formatRegex x = Some (skipped, c, rest) ->
  formatContent x = skipped ++ replacer c ++ formatContent rest.
Proof.
  intros E. unfold formatContent, replace at 1. cbn [replace_loop].
  rewrite E. do 2 f_equal. apply search_shorter in E.
  unfold replace. apply replace_loop_fuel; lia.
Qed.

Lemma formatContent_none (x : text) :
  search formatRegex x = None -> formatContent x = x.
Proof.
  intros E. unfold formatContent, replace. cbn [replace_loop]. rewrite E.
  reflexivity.
Qed.

(** A greedy star inside a group takes the whole run when the rest of
    the pattern matches after it. *)
Lemma rmatch_greedy_group {R : Type} i p w a x c
      (k : text -> caps -> option R) res :
  forallb p w = true ->
  p a = false ->
  k (a :: x) ((i, w) :: c) = Some res ->
  rmatch (Group i (Star true p)) (w ++ a :: x) c k = Some res.
Proof.
  intros Hw Ha Hk. cbn [rmatch]. apply star_greedy_run; [exact Hw|].
  rewrite star_greedy_stop by exact Ha. rewrite take_captured. exact Hk.
Qed.

(** A fenced block at the head of the text is matched as a whole. *)
Lemma match_format_block (tag body rest : text) :
  forallb is_word tag = true ->
  occurs (LF :: FENCE) body = false ->
  match_here formatRegex (FENCE ++ tag ++ LF :: body ++ LF :: FENCE ++ rest)
  = Some ([(2%nat, body); (1%nat, tag)], rest).
Proof.
  intros Htag Hbody. unfold match_here. rewrite formatRegex_fence.
  rewrite rmatch_seq, rmatch_lit.
  (* the language tag *)
  rewrite rmatch_seq. apply rmatch_greedy_group; [exact Htag|reflexivity|].
  rewrite rmatch_seq, rmatch_lit1.
  (* the code, up to the first closing fence *)
  rewrite rmatch_seq. apply rmatch_lazy_group; [apply forallb_is_any| |].
  { intros w1 w2 Hsplit Hne c'. rewrite rmatch_closing.
    rewrite fence_not_in_tail; [reflexivity|exact Hne|].
    apply (occurs_suffix _ w1). rewrite <- Hsplit. exact Hbody. }
  rewrite rmatch_closing.
  change (LF :: FENCE ++ rest) with ((LF :: FENCE) ++ rest).
  rewrite strip_prefix_app. reflexivity.
Qed.

Lemma replace_unit_app (c : N) (by_ x y : text) :
  replace_unit c by_ (x ++ y) = replace_unit c by_ x ++ replace_unit c by_ y.
Proof. unfold replace_unit. apply flat_map_app. Qed.

Lemma escapeCode_app (x y : text) :
  escapeCode (x ++ y) = escapeCode x ++ escapeCode y.
Proof. unfold escapeCode. rewrite !replace_unit_app. reflexivity. Qed.

(** X12. A text without a backtick is given to the element as it is: no
    fence is found, and nothing of the text is escaped. *)
Theorem text_without_fence_is_unchanged (x : text) :
  no_backtick x -> formatContent x = x.
Proof. intros Hx. apply formatContent_none, search_no_backtick, Hx. Qed.

(** X13. A fenced block after prose without backticks is replaced by a
    [pre] and [code] element: the prose is kept, the class of the element
    carries the tag of the fence, its text is the code, escaped and
    trimmed, and the formatting goes on after the closing fence. *)
Theorem block_becomes_pre_code (prose tag body rest : text) :
  no_backtick prose ->
  forallb is_word tag = true ->
  occurs (LF :: FENCE) body = false ->
  formatContent (prose ++ FENCE ++ tag ++ LF :: body ++ LF :: FENCE ++ rest)
  = prose ++ pre_code tag (trim (escapeCode body)) ++ formatContent rest.
Proof.
  intros Hp Htag Hbody.
  rewrite (formatContent_match _ prose [(2%nat, body); (1%nat, tag)] rest).
  - reflexivity.
  - rewrite (search_prose _ _ Hp).
    rewrite (search_here _ _ _ (match_format_block tag body rest Htag Hbody)).
    rewrite app_nil_r. reflexivity.
Qed.

(** X14. The escaped code holds neither [<] nor [>], and a code without
    them is left as it is, an ampersand included: [&] is not escaped, so
    the code [&lt;] and the code [<] are escaped to the same text. *)
Theorem escaped_code_has_no_angle (code : text) :
  forallb no_angle (escapeCode code) = true
  /\ (forallb no_angle code = true -> escapeCode code = code)
  /\ (forall x y,
        code = x ++ [LESS] ++ y ->
        escapeCode code = escapeCode (x ++ utf16 "&lt;" ++ y)).
Proof.
  split; [|split].
  - induction code as [|a code IH]; [reflexivity|].
    change (a :: code) with ([a] ++ code).
    rewrite escapeCode_app, forallb_app, IH, andb_true_r.
    unfold escapeCode, replace_unit. cbn [flat_map app].
    destruct (N.eqb_spec a LESS) as [->|H1]; [reflexivity|].
    cbn [flat_map app].
    destruct (N.eqb_spec a GREATER) as [->|H2]; [reflexivity|].
    cbn [forallb app]. unfold no_angle.
    apply N.eqb_neq in H1, H2. rewrite H1, H2. reflexivity.
  - induction code as [|a code IH]; [reflexivity|].
    cbn [forallb]. intros Hc. apply andb_true_iff in Hc as [Ha Hc].
    change (a :: code) with ([a] ++ code).
    rewrite escapeCode_app, (IH Hc). f_equal.
    unfold no_angle in Ha. apply andb_true_iff in Ha as [H1 H2].
    apply negb_true_iff in H1, H2.
    unfold escapeCode, replace_unit. cbn [flat_map app]. rewrite H1.
    cbn [flat_map app]. rewrite H2. reflexivity.
  - intros x y ->. rewrite !escapeCode_app. reflexivity.
Qed.

End FormatFacts.

(** ** What [trim] returns *)

Lemma trimStart_split (x : text) :
  exists s, x = s ++ trimStart x /\ forallb is_space s = true.
Proof.
  induction x as [|a x (s & E & Hs)]; [exists []; auto|].
  cbn [trimStart]. destruct (is_space a) eqn:Ha.
  - exists (a :: s). cbn [app forallb]. rewrite Ha, Hs, <- E. auto.
  - exists []. auto.
Qed.

Lemma trimStart_head (x : text) :
  match trimStart x with
  | [] => True
  | a :: _ => is_space a = false
  end.
Proof.
  induction x as [|a x IH]; [exact I|]. cbn [trimStart].
  destruct (is_space a) eqn:Ha; [exact IH|exact Ha].
Qed.

Lemma trimStart_idem (x : text) : trimStart (trimStart x) = trimStart x.
Proof.
  pose proof (trimStart_head x) as Hh. destruct (trimStart x) as [|a y];
    [reflexivity|]. cbn [trimStart]. rewrite Hh. reflexivity.
Qed.

Lemma trimStart_snoc (x : text) (a : N) :
  is_space a = false -> trimStart (x ++ [a]) = trimStart x ++ [a].
Proof.
  intros Ha. induction x as [|b x IH]; cbn [app trimStart].
  - rewrite Ha. reflexivity.
  - destruct (is_space b); [exact IH|reflexivity].
Qed.

Lemma trimEnd_cons (a : N) (y : text) :
  is_space a = false -> trimEnd (a :: y) = a :: trimEnd y.
Proof.
  intros Ha. unfold trimEnd. cbn [rev].
  rewrite (trimStart_snoc _ _ Ha), rev_app_distr. reflexivity.
Qed.

Lemma trimEnd_split (x : text) : exists s, x = trimEnd x ++ s.
Proof.
  unfold trimEnd. destruct (trimStart_split (rev x)) as (s & E & _).
  exists (rev s). rewrite <- rev_app_distr, <- E, rev_involutive.
  reflexivity.
Qed.

Lemma trimEnd_idem (x : text) : trimEnd (trimEnd x) = trimEnd x.
Proof.
  unfold trimEnd. rewrite rev_involutive, trimStart_idem. reflexivity.
Qed.

Lemma trim_idem (x : text) : trim (trim x) = trim x.
Proof.
  unfold trim. pose proof (trimStart_head x) as Hh.
  destruct (trimStart x) as [|a y]; [reflexivity|].
  rewrite (trimEnd_cons a y Hh). cbn [trimStart]. rewrite Hh.
  rewrite (trimEnd_cons a _ Hh), trimEnd_idem. reflexivity.
Qed.

Lemma trim_split (x : text) : exists s1 s2, x = s1 ++ trim x ++ s2.
Proof.
  unfold trim. destruct (trimStart_split x) as (s1 & E1 & _).
  destruct (trimEnd_split (trimStart x)) as (s2 & E2).
  exists s1, s2. rewrite <- E2. exact E1.
Qed.

Lemma forallb_trim (p : N -> bool) (x : text) :
  forallb p x = true -> forallb p (trim x) = true.
Proof.
  destruct (trim_split x) as (s1 & s2 & E). rewrite E at 1.
  rewrite !forallb_app. intros Hx.
  apply andb_true_iff in Hx as [_ Hx]. apply andb_true_iff in Hx as [Hx _].
  exact Hx.
Qed.

(** ** Occurrences *)

Lemma occurs_inv (p x : text) :
  occurs p x = true -> exists w1 w3, x = w1 ++ p ++ w3.
Proof.
  induction x as [|a x IH]; cbn [occurs].
  - destruct (strip_prefix p []) as [y|] eqn:E; [|discriminate].
    intros _. apply strip_prefix_Some in E. exists [], y. exact E.
  - destruct (strip_prefix p (a :: x)) as [y|] eqn:E.
    + intros _. apply strip_prefix_Some in E. exists [], y. exact E.
    + intros Ho. destruct (IH Ho) as (w1 & w3 & ->).
      exists (a :: w1), w3. reflexivity.
Qed.

Lemma occurs_intro (p w1 w3 : text) : occurs p (w1 ++ p ++ w3) = true.
Proof.
  induction w1 as [|a w1 IH].
  - cbn [app]. destruct (p ++ w3) eqn:E; cbn [occurs]; rewrite <- E;
      rewrite strip_prefix_app; reflexivity.
  - cbn [app occurs]. rewrite IH. destruct (strip_prefix p _); reflexivity.
Qed.

Lemma occurs_sub (p s1 y s2 : text) :
  occurs p (s1 ++ y ++ s2) = false -> occurs p y = false.
Proof.
  intros Ho. destruct (occurs p y) eqn:E; [|reflexivity].
  apply occurs_inv in E as (w1 & w3 & ->).
  rewrite <- Ho. symmetry.
  replace (s1 ++ (w1 ++ p ++ w3) ++ s2) with ((s1 ++ w1) ++ p ++ (w3 ++ s2))
    by (rewrite <- !app_assoc; reflexivity).
  apply occurs_intro.
Qed.

(** ** What a match is, continued *)

(** A lazy star stops at the first place where its continuation
    succeeds. *)
Lemma star_lazy_first {R : Type} (p : N -> bool) (x : text)
      (k : text -> option R) (r : R) :
  star_lazy p x k = Some r ->
  exists w y,
    x = w ++ y /\ forallb p w = true /\ k y = Some r
    /\ forall w1 w2, w = w1 ++ w2 -> w2 <> [] -> k (w2 ++ y) = None.
Proof.
  induction x as [|a x IH]; cbn [star_lazy]; intros Hr.
  - destruct (k []) eqn:E; [|discriminate]. exists [], [].
    repeat split; [congruence|].
    intros [|? ?] w2 Hs Hne; destruct w2; try discriminate; congruence.
  - destruct (k (a :: x)) eqn:E.
    + exists [], (a :: x). repeat split; [congruence|].
      intros [|? ?] w2 Hs Hne; destruct w2; try discriminate; congruence.
    + destruct (p a) eqn:Ha; [|discriminate].
      destruct (IH Hr) as (w & y & -> & Hw & Hy & Hfirst).
      exists (a :: w), y. cbn [forallb]. rewrite Ha, Hw.
      repeat split; [exact Hy|].
      intros [|b w1] w2 Hs Hne; cbn [app] in Hs.
      * subst w2. exact E.
      * inversion Hs; subst. apply (Hfirst w1 w2); auto.
Qed.

Lemma exec_inv (r : regex) (x : text) (c : caps) (rest : text) :
  exec r x = Some (c, rest) ->
  exists skipped y, x = skipped ++ y /\ match_here r y = Some (c, rest).
Proof.
  induction x as [|a x IH]; cbn [exec].
  - destruct (match_here r []) as [m|] eqn:E; [|discriminate].
    intros [= ->]. exists [], []. auto.
  - destruct (match_here r (a :: x)) as [m|] eqn:E.
    + intros [= ->]. exists [], (a :: x). auto.
    + intros Hx. destruct (IH Hx) as (sk & y & -> & Hy).
      exists (a :: sk), y. auto.
Qed.

(** The groups of a match of [codeBlockRegex]: an argument on one line, a
    body without closing fence; the match takes eighteen code units at
    least. *)
Lemma match_here_groups (x : text) (c : caps) (rest : text) :
  match_here codeBlockRegex x = Some (c, rest) ->
  exists arg body,
    c = [(2%nat, body); (1%nat, arg)]
    /\ forallb is_dot arg = true
    /\ occurs (LF :: FENCE) body = false
    /\ (18 + length rest <= length x)%nat.
Proof.
  unfold match_here, codeBlockRegex.
  change (utf16 "```") with FENCE. change (utf16 "// FILE: ") with MARKER.
  cbn [rmatch]. intros Hm.
  destruct (strip_prefix FENCE x) as [x1|] eqn:E1; [|discriminate].
  apply strip_prefix_Some in E1. subst x.
  apply star_greedy_inv in Hm as (tag & x2 & -> & Htag & Hm).
  apply star_greedy_inv in Hm as (space & x3 & -> & Hspace & Hm).
  destruct (strip_prefix [LF] x3) as [x4|] eqn:E3; [|discriminate].
  apply strip_prefix_Some in E3. subst x3.
  destruct (strip_prefix MARKER x4) as [x5|] eqn:E4; [|discriminate].
  apply strip_prefix_Some in E4. subst x4.
  apply star_lazy_inv in Hm as (arg & x6 & -> & Harg & Hm).
  destruct (strip_prefix [LF] x6) as [x7|] eqn:E6; [|discriminate].
  apply strip_prefix_Some in E6. subst x6.
  apply star_lazy_first in Hm as (body & x8 & -> & _ & Hm & Hfirst).
  destruct (strip_prefix [LF] x8) as [x9|] eqn:E8; [|discriminate].
  apply strip_prefix_Some in E8. subst x8.
  destruct (strip_prefix FENCE x9) as [x10|] eqn:E9; [|discriminate].
  apply strip_prefix_Some in E9. subst x9.
  inversion Hm; subst. rewrite !take_captured.
  exists arg, body. split; [reflexivity|]. split; [exact Harg|]. split.
  - destruct (occurs (LF :: FENCE) body) eqn:Ho; [|reflexivity].
    apply occurs_inv in Ho as (w1 & w3 & Eb).
    specialize (Hfirst w1 ((LF :: FENCE) ++ w3) Eb).
    rewrite <- app_assoc in Hfirst.
    change (((LF :: FENCE) ++ w3 ++ [LF] ++ FENCE ++ rest))
      with ([LF] ++ FENCE ++ w3 ++ [LF] ++ FENCE ++ rest) in Hfirst.
    rewrite (strip_prefix_app [LF]), (strip_prefix_app FENCE) in Hfirst.
    discriminate Hfirst. discriminate.
  - rewrite !length_app, FENCE_units, MARKER_units. cbn [length]. lia.
Qed.

(** ** Every extracted intent *)

Lemma extract_Forall (P : FileWriteIntent -> Prop) :
  (forall y c rest,
      match_here codeBlockRegex y = Some (c, rest) -> P (intent_of c)) ->
  forall x, Forall P (extract x).
Proof.
  intros HP x. remember (S (length x)) as n eqn:Hn.
  assert (Hlt : (length x < n)%nat) by lia. clear Hn.
  revert x Hlt. induction n as [|n IH]; intros x Hlt; [lia|].
  destruct (exec codeBlockRegex x) as [[c rest]|] eqn:E.
  - rewrite (extract_match _ _ _ E). constructor.
    + apply exec_inv in E as (sk & y & _ & Hy). exact (HP _ _ _ Hy).
    + apply IH. apply exec_shorter in E. lia.
  - rewrite (extract_none _ E). constructor.
Qed.

Lemma extract_sound (x : text) : Forall sound (extract x).
Proof.
  apply extract_Forall. intros y c rest Hm.
  apply match_here_groups in Hm as (arg & body & -> & Harg & Hbody & _).
  unfold sound, trimmed, intent_of. cbn [capture Nat.eqb relativePath content].
  rewrite !trim_idem. repeat (apply conj); try reflexivity.
  - apply forallb_trim, Harg.
  - destruct (trim_split body) as (s1 & s2 & E). rewrite E in Hbody.
    apply (occurs_sub _ _ _ _ Hbody).
Qed.

(** X15. Whatever the response, every path and every content that
    [processAndWriteFiles] takes from it is trimmed, and the path has no
    line terminator in it. *)
Theorem extracted_intents_are_trimmed (responseText : text) :
  Forall (fun i => trimmed i /\ forallb is_dot (relativePath i) = true)
         (extract responseText).
Proof.
  eapply Forall_impl; [apply extract_sound|].
  intros i (Ht & Hp & _). auto.
Qed.

(** X16. No content taken from a response holds a line that begins with a
    fence: the body of a block ends at the first line feed that a fence
    follows, so a file with such a line in it is cut there. *)
Theorem content_holds_no_fence_line (responseText : text) :
  Forall (fun i => occurs (LF :: FENCE) (content i) = false)
         (extract responseText).
Proof.
  eapply Forall_impl; [apply extract_sound|].
  intros i (_ & _ & Hc). exact Hc.
Qed.

(** X17. The intents taken from a response, written again as blocks, are
    read back as they are. *)
Theorem extracted_intents_are_read_back (responseText : text) :
  let intents := extract responseText in
  extract (render (map (fun i => ([], render_intent i)) intents) [])
  = intents.
Proof.
  cbv zeta. rewrite extract_render.
  - rewrite map_map. cbn [snd].
    pose proof (extract_sound responseText) as Hs.
    induction Hs as [|i l ((Hp & Hc) & _) _ IH]; [reflexivity|].
    cbn [map]. rewrite IH. f_equal. destruct i as [p c].
    unfold intent_of_block, render_intent.
    cbn [marker_arg body relativePath content] in *. congruence.
  - apply Forall_map. eapply Forall_impl; [apply extract_sound|].
    intros i (_ & Hp & Hc). cbn [fst snd]. split; [reflexivity|].
    repeat (apply conj); [reflexivity|exact Hp|exact Hc].
  - reflexivity.
Qed.

(** X18. A block takes eighteen code units at least, so the loop of
    [processAndWriteFiles] makes at most one eighteenth as many rounds as
    the response has code units. *)
Theorem extract_is_bounded (responseText : text) :
  (18 * length (extract responseText) <= length responseText)%nat.
Proof.
  remember (S (length responseText)) as n eqn:Hn.
  assert (Hlt : (length responseText < n)%nat) by lia. clear Hn.
  revert responseText Hlt. induction n as [|n IH]; intros x Hlt; [lia|].
  destruct (exec codeBlockRegex x) as [[c rest]|] eqn:E.
  - rewrite (extract_match _ _ _ E). cbn [length].
    pose proof (exec_shorter _ _ _ E) as Hs.
    apply exec_inv in E as (sk & y & -> & Hy).
    apply match_here_groups in Hy as (_ & _ & _ & _ & _ & Hl).
    rewrite length_app in *. specialize (IH rest ltac:(lia)). lia.
  - rewrite (extract_none _ E). cbn [length]. lia.
Qed.

(** ** What [processAndWriteFiles] leaves alone *)

Section WriterFacts.
Context {H : Host}.

(** X19. A response text without a backtick holds no block: in an open
    workspace [processAndWriteFiles] returns without a file-system call, a
    notification or a message to the page. *)
Theorem response_without_fence_changes_nothing
        (env : Env) (rootPath : Uri) (others : list Uri)
        (responseText : text) (w : World) :
  workspaceFolders env = Some (rootPath :: others) ->
  no_backtick responseText ->
  processAndWriteFiles env (JStr responseText) w = (Normal tt, w).
Proof.
  intros Hws Hx.
  rewrite (processAndWriteFiles_spec env rootPath others _ w Hws).
  cbn [toString]. rewrite (extract_none _ (exec_no_backtick _ Hx)).
  cbn [apply_intents count_succeeded map]. unfold files_notice.
  cbn [N.ltb N.compare]. rewrite !app_nil_r. destruct w; reflexivity.
Qed.

Context {L : HostLaws H}.


End WriterFacts.

Module Confinement.
Import Posix PosixFacts.

(** X21. On the POSIX host, when no path of the response has a [..]
    segment, what is read at any location outside the workspace folder is
    the same after [processAndWriteFiles] as before. *)
Theorem without_parent_segments_nothing_outside_changes
        (env : Env) (root : Uri) (others : list Uri)
        (responseText : Json) (w : World) (u : list text) :
  workspaceFolders env = Some (root :: others) ->
  Forall (fun i => has_parent_segment (relativePath i) = false)
         (extract (toString responseText)) ->
  ~ inside root u ->
  read (fs (snd (processAndWriteFiles env responseText w))) u
  = read (fs w) u.
Proof.
  intros Hws Hp Hu.
  rewrite (processAndWriteFiles_spec env root others _ w Hws).
  pose proof (apply_intents_read_other (L := host_laws) root
                (extract (toString responseText)) (fs w) u) as A.
  destruct (apply_intents root _ (fs w)) as [f' os]. apply A.
  eapply Forall_impl; [exact Hp|].
  intros i Hi E. apply Hu. rewrite <- E. apply join_inside, Hi.
Qed.

End Confinement.

(** ** The nonce *)

Module NonceFacts.
Import Nonce.

Lemma possible_alnum : forallb is_alnum possible = true.
Proof. vm_compute. reflexivity. Qed.

Lemma possible_length : length possible = 62%nat.
Proof. vm_compute. reflexivity. Qed.

Lemma charAt_possible (j : nat) :
  forallb is_alnum (charAt j possible) = true
  /\ (length (charAt j possible) <= 1)%nat
  /\ ((j < 62)%nat -> length (charAt j possible) = 1%nat).
Proof.
  unfold charAt. destruct (possible !! j) as [c|] eqn:E.
  - split; [|split; [reflexivity|reflexivity]].
    cbn [forallb]. rewrite andb_true_r.
    pose proof possible_alnum as Hp. rewrite forallb_forall in Hp.
    apply Hp. apply list_elem_of_In. eapply list_elem_of_lookup_2, E.
  - split; [reflexivity|]. split; [cbn [length]; lia|]. intros Hj.
    apply lookup_ge_None in E. rewrite possible_length in E. lia.
Qed.

Lemma nonce_loop_spec (n i : nat) (draw : nat -> nat) (acc : text) :
  forallb is_alnum acc = true ->
  let r := nonce_loop n i draw acc in
  forallb is_alnum r = true
  /\ (length r <= length acc + n)%nat
  /\ ((forall j, (i <= j < i + n)%nat -> (draw j < 62)%nat) ->
      length r = (length acc + n)%nat).
Proof.
  revert i acc. induction n as [|n IH]; intros i acc Hacc; cbv zeta;
    cbn [nonce_loop].
  - repeat split; [exact Hacc|lia|lia].
  - destruct (charAt_possible (draw i)) as (Ha & Hl & He).
    destruct (IH (S i) (acc ++ charAt (draw i) possible)) as (I1 & I2 & I3).
    { rewrite forallb_app, Hacc, Ha. reflexivity. }
    rewrite length_app in I2, I3. split; [exact I1|]. split; [lia|].
    intros Hd. rewrite I3 by (intros j Hj; apply Hd; lia).
    rewrite He by (apply Hd; lia). lia.
Qed.

(** X22. Whatever the random numbers, the nonce is made of letters and
    digits only and has at most thirty-two of them; it has exactly
    thirty-two when every number drawn is an index of [possible], as
    [Math.floor(Math.random() * possible.length)] is. *)
Theorem nonce_is_alphanumeric (draw : nat -> nat) :
  forallb is_alnum (getNonce draw) = true
  /\ (length (getNonce draw) <= 32)%nat
  /\ ((forall i, (i < 32)%nat -> (draw i < length possible)%nat) ->
      length (getNonce draw) = 32%nat).
Proof.
  destruct (nonce_loop_spec 32 0 draw [] eq_refl) as (H1 & H2 & H3).
  split; [exact H1|]. split; [exact H2|].
  intros Hd. apply H3. intros j Hj. rewrite <- possible_length.
  apply Hd. lia.
Qed.

End NonceFacts.

(** ** The panel: one at a time *)

Module LifecycleFacts.
Import Lifecycle.

Lemma alter_end {A} (f : A -> A) (l : list A) (x : A) :
  alter f (length l) (l ++ [x]) = l ++ [f x].
Proof.
  rewrite <- (Nat.add_0_r (length l)), alter_app_r. reflexivity.
Qed.

Lemma panel_dispose_disposed (depth id : nat) (r : Registry) (p : Panel) :
  panels r !! id = Some p -> disposed p = true -> panel_dispose depth id r = r.
Proof.
  intros Hp Hd. destruct depth; cbn [panel_dispose]; rewrite Hp, Hd;
    reflexivity.
Qed.

Lemma panel_dispose_S (depth id : nat) (r : Registry) :
  panel_dispose (S depth) id r
  = match panels r !! id with
    | None => r
    | Some p =>
      if disposed p then r
      else
        let r1 :=
          update (fun p => {| disposed := true; viewColumn := viewColumn p;
                              reveals := reveals p; listening := listening p;
                              disposables := disposables p |}) id r in
        if existsb (sub_eqb OnDidDispose) (listening p) then
          dispose_with (panel_dispose depth) id r1
        else r1
    end.
Proof. reflexivity. Qed.

(** The listener's call of [panel.dispose()] finds the panel disposed: a
    depth of one is as good as any. *)
Lemma panel_dispose_depth (depth id : nat) (r : Registry) :
  panel_dispose (S depth) id r = panel_dispose 1 id r.
Proof.
  rewrite !panel_dispose_S. destruct (panels r !! id) as [p|] eqn:Hp;
    [|reflexivity].
  destruct (disposed p); [reflexivity|].
  destruct (existsb _ (listening p)); [|reflexivity].
  cbv zeta. unfold dispose_with. f_equal.
  match goal with
  | |- panel_dispose _ _ ?r1 = _ =>
    assert (H1 : exists q, panels r1 !! id = Some q /\ disposed q = true)
  end.
  { unfold clear_current, update. cbn [panels].
    rewrite list_lookup_alter_eq, Hp. eexists. split; reflexivity. }
  destruct H1 as (q & Hq & Hd).
  rewrite !(panel_dispose_disposed _ _ _ _ Hq Hd). reflexivity.
Qed.

Lemma consistent_initial : consistent initial.
Proof.
  split; [|split]; [intros id p Hp; discriminate Hp|discriminate|reflexivity].
Qed.

Lemma consistent_createOrShow (column : option N) (r : Registry) :
  consistent r -> consistent (createOrShow column r).
Proof.
  intros (Hw & Hc & Hf). unfold createOrShow.
  destruct (currentPanel r) as [id|] eqn:Ec.
  - destruct (Hc id eq_refl) as (p & Hp & Hd). unfold reveal.
    rewrite Hp, Hd. unfold update. split; [|split]; cbn [panels currentPanel faults].
    + intros j q. rewrite list_lookup_alter. destruct (decide (id = j)) as [<-|Hne].
      * rewrite Hp. intros [= <-]. destruct (Hw id p Hp) as (W & C).
        split; [|intros _; exact Ec].
        unfold wired in *. cbn [disposed listening disposables]. exact W.
      * intros Hq. rewrite Ec. exact (Hw j q Hq).
    + intros j Hj. rewrite Ec in Hj. injection Hj as <-.
      unfold live. cbn [panels]. eexists.
      rewrite list_lookup_alter_eq, Hp. split; [reflexivity|]. exact Hd.
    + exact Hf.
  - unfold createWebviewPanel, construct, subscribe, update.
    cbn [panels currentPanel faults]. rewrite !alter_end.
    cbn [disposed viewColumn reveals listening disposables app].
    split; [|split]; cbn [panels currentPanel faults].
    + intros j q Hq. apply lookup_app_Some in Hq as [Hq|[Hl Hq]].
      * destruct (Hw j q Hq) as (W & C). split; [exact W|].
        intros Hd. specialize (C Hd). congruence.
      * destruct (j - length (panels r))%nat as [|n] eqn:En; [|discriminate].
        cbn in Hq. injection Hq as <-. split; [split; reflexivity|].
        intros _. f_equal. lia.
    + intros j [= <-]. unfold live. cbn [panels]. eexists.
      rewrite lookup_app_r by lia.
      rewrite Nat.sub_diag. split; reflexivity.
    + exact Hf.
Qed.

Lemma consistent_panel_dispose (id : nat) (r : Registry) :
  consistent r -> consistent (panel_dispose 1 id r).
Proof.
  intros (Hw & Hc & Hf). cbn [panel_dispose].
  destruct (panels r !! id) as [p|] eqn:Hp; [|exact (conj Hw (conj Hc Hf))].
  destruct (disposed p) eqn:Hd; [exact (conj Hw (conj Hc Hf))|].
  destruct (Hw id p Hp) as (W & C). unfold wired in W. rewrite Hd in W.
  destruct W as (Wl & Wd). specialize (C Hd).
  rewrite Wl. cbn [existsb sub_eqb orb].
  unfold dispose_with, clear_current, update. cbn [panels currentPanel faults].
  rewrite list_lookup_alter_eq, Hp. cbn [fmap option_fmap option_map disposed].
  unfold drain. cbn [panels currentPanel faults].
  rewrite list_lookup_alter_eq, Hp.
  cbn [fmap option_fmap option_map disposables]. rewrite Wd.
  cbn [rev app fold_left]. unfold unsubscribe, update.
  cbn [panels currentPanel faults].
  split; [|split]; cbn [panels currentPanel faults].
  - intros j q. destruct (decide (id = j)) as [<-|Hne].
    + rewrite !list_lookup_alter_eq, Hp. intros [= <-].
      cbn [disposed listening disposables]. rewrite Wl.
      split; [split; reflexivity|discriminate].
    + rewrite !list_lookup_alter_ne by exact Hne.
      intros Hq. destruct (Hw j q Hq) as (W & C'). split; [exact W|].
      intros Hdq. specialize (C' Hdq). congruence.
  - discriminate.
  - exact Hf.
Qed.

Lemma consistent_run (evs : list Event) (r : Registry) :
  consistent r -> consistent (run evs r).
Proof.
  unfold run. revert r. induction evs as [|ev evs IH]; intros r Hr;
    [exact Hr|].
  cbn [fold_left]. apply IH. destruct ev as [column|id]; cbn [step].
  - apply consistent_createOrShow, Hr.
  - apply consistent_panel_dispose, Hr.
Qed.

(** X23. However the command is run and panels are closed, at most one
    panel is live, the one that [currentPanel] holds, and [createOrShow]
    has never revealed a disposed panel. *)
Theorem one_panel_at_a_time (evs : list Event) (id : nat) :
  let r := run evs initial in
  (live r id <-> currentPanel r = Some id) /\ faults r = 0%nat.
Proof.
  cbv zeta. destruct (consistent_run evs initial consistent_initial)
    as (Hw & Hc & Hf).
  split; [|exact Hf]. split; [|apply Hc].
  intros (p & Hp & Hd). exact (proj2 (Hw id p Hp) Hd).
Qed.

(** X24. A panel that has been closed keeps nothing: its listeners are
    removed and the [_disposables] of its instance are empty. *)
Theorem closed_panel_is_released (evs : list Event) (id : nat) (p : Panel) :
  panels (run evs initial) !! id = Some p ->
  disposed p = true ->
  listening p = [] /\ disposables p = [].
Proof.
  intros Hp Hd.
  destruct (consistent_run evs initial consistent_initial) as (Hw & _).
  destruct (Hw id p Hp) as (W & _). unfold wired in W. rewrite Hd in W.
  exact W.
Qed.

(** X25. Running the command while a panel is open makes no new panel:
    the open one is revealed once more and stays current. *)
Theorem start_reveals_the_open_panel
        (evs : list Event) (column : option N) (id : nat) :
  let r := run evs initial in
  currentPanel r = Some id ->
  let r' := step r (Start column) in
  length (panels r') = length (panels r)
  /\ currentPanel r' = Some id
  /\ exists p,
      panels r !! id = Some p
      /\ (reveals <$> panels r' !! id) = Some (S (reveals p)).
Proof.
  cbv zeta. intros Ec.
  destruct (consistent_run evs initial consistent_initial) as (Hw & Hc & Hf).
  destruct (Hc id Ec) as (p & Hp & Hd).
  cbn [step]. unfold createOrShow. rewrite Ec. unfold reveal.
  rewrite Hp, Hd. unfold update. cbn [panels currentPanel].
  rewrite length_alter. split; [reflexivity|]. split; [exact Ec|].
  exists p. split; [reflexivity|].
  rewrite list_lookup_alter_eq, Hp. reflexivity.
Qed.

(** X29. [dispose()] called on the instance of the open panel does what
    closing the panel does: the listener that the constructor registered
    runs the same [dispose()], and its second pass over [_disposables]
    finds the array empty. *)
Theorem dispose_is_closing (evs : list Event) (id : nat) :
  let r := run evs initial in
  currentPanel r = Some id ->
  dispose id r = step r (Close id).
Proof.
  cbv zeta. intros Ec.
  destruct (consistent_run evs initial consistent_initial) as (Hw & Hc & Hf).
  destruct (Hc id Ec) as (p & Hp & Hd).
  destruct (Hw id p Hp) as (W & _). unfold wired in W. rewrite Hd in W.
  destruct W as (Wl & Wd).
  set (r := run evs initial) in *.
  cbn [step]. unfold dispose, dispose_with.
  rewrite !panel_dispose_S.
  change (panels (clear_current r)) with (panels r).
  rewrite Hp, Hd, Wl. cbn [existsb sub_eqb orb]. cbv zeta.
  unfold dispose_with.
  match goal with
  | |- drain id (drain id (panel_dispose 0 id ?a))
       = drain id (panel_dispose 0 id ?b) =>
    change a with b; set (x := b)
  end.
  assert (Hx : panels x !! id
               = Some {| disposed := true; viewColumn := viewColumn p;
                         reveals := reveals p; listening := listening p;
                         disposables := disposables p |}).
  { subst x. unfold clear_current, update. cbn [panels].
    rewrite list_lookup_alter_eq, Hp. reflexivity. }
  rewrite (panel_dispose_disposed 0 id x _ Hx eq_refl).
  set (y := drain id x).
  assert (Hy : exists q, panels y !! id = Some q /\ disposables q = []).
  { subst y. unfold drain. rewrite Hx. unfold update. cbn [panels].
    rewrite list_lookup_alter_eq.
    destruct (panels (fold_left _ _ x) !! id) as [q|] eqn:Eq.
    - eexists. split; reflexivity.
    - exfalso. revert Eq. cbn [disposables]. rewrite Wd.
      cbn [rev app fold_left]. unfold unsubscribe, update. cbn [panels].
      rewrite !list_lookup_alter_eq, Hx. discriminate. }
  destruct Hy as (q & Hq & Hdq).
  unfold drain at 1. rewrite Hq, Hdq. cbn [rev fold_left].
  unfold update. destruct y as [c ps f]. cbn [panels currentPanel faults] in *.
  f_equal. apply list_eq. intros j.
  destruct (decide (id = j)) as [<-|Hne].
  - rewrite list_lookup_alter_eq, Hq. destruct q. cbn in *. subst.
    reflexivity.
  - rewrite list_lookup_alter_ne by exact Hne. reflexivity.
Qed.

End LifecycleFacts.

(** ** The properties at work *)

Module CaseFacts.
Import Posix PosixFacts Examples Webview Session Format Cases.

Lemma answered_answer (folders : option (list (list text)))
      (userPrompt agent : text) (v : Json) :
  truthy (Some v) = true ->
  answered (env_with folders (answer v)) userPrompt agent v.
Proof.
  intros Hv. exists TOKEN, 200%Z, (JObj [(utf16 "value", v)]).
  split; [reflexivity|]. split; [reflexivity|]. split; [discriminate|].
  split; [|exact Hv]. vm_compute. reflexivity.
Qed.

Lemma other_agents_write_nothing_witness :
  text_eqb ARCHITECT (utf16 "coder") = false
  /\ fs (snd (handleCopilotRequest
                (env_with (Some [workspace]) (answer (JStr scenario_response)))
                PROMPT ARCHITECT empty_world))
     = fs empty_world.
Proof.
  split; [reflexivity|].
  exact (other_agents_write_nothing
           (env_with (Some [workspace]) (answer (JStr scenario_response)))
           PROMPT ARCHITECT empty_world eq_refl).
Defined.

Lemma unknown_agent_gets_coder_prompt_witness :
  text_eqb EXPLORER (utf16 "architect") = false
  /\ text_eqb EXPLORER (utf16 "coder") = false
  /\ answered (env_with (Some [workspace]) (answer OLA)) PROMPT EXPLORER OLA
  /\ prompt (copilot_request TOKEN EXPLORER PROMPT)
     = CODER_PROMPT ++ [LF; LF] ++ PROMPT
  /\ handleCopilotRequest (env_with (Some [workspace]) (answer OLA))
       PROMPT EXPLORER empty_world
     = (Normal tt,
        {| fs := fs empty_world;
           posted := posted empty_world ++ [StreamResponse OLA; EndStream];
           shown := shown empty_world |}).
Proof.
  split; [reflexivity|]. split; [reflexivity|].
  split; [exact (answered_answer _ PROMPT EXPLORER OLA eq_refl)|].
  exact (unknown_agent_gets_coder_prompt
           (env_with (Some [workspace]) (answer OLA)) PROMPT EXPLORER OLA
           empty_world TOKEN eq_refl eq_refl
           (answered_answer _ PROMPT EXPLORER OLA eq_refl)).
Defined.

Lemma no_workspace_warns_and_writes_nothing_witness :
  answered (env_with None (answer OLA)) PROMPT (utf16 "coder") OLA
  /\ workspaceFolders (env_with None (answer OLA)) = None
  /\ handleCopilotRequest (env_with None (answer OLA)) PROMPT (utf16 "coder")
       empty_world
     = (Normal tt,
        {| fs := fs empty_world;
           posted := posted empty_world ++ [StreamResponse OLA; EndStream];
           shown := shown empty_world ++ [Warning (utf16 "Abra um projeto (pasta) para que o agente possa criar arquivos.")] |}).
Proof.
  split; [exact (answered_answer _ PROMPT (utf16 "coder") OLA eq_refl)|].
  split; [reflexivity|].
  exact (no_workspace_warns_and_writes_nothing
           (env_with None (answer OLA)) PROMPT OLA empty_world
           (answered_answer _ PROMPT (utf16 "coder") OLA eq_refl) eq_refl).
Defined.

Lemma empty_workspace_posts_response_then_error_witness :
  answered (env_with (Some []) (answer OLA)) PROMPT (utf16 "coder") OLA
  /\ workspaceFolders (env_with (Some []) (answer OLA)) = Some []
  /\ handleCopilotRequest (env_with (Some []) (answer OLA)) PROMPT
       (utf16 "coder") empty_world
     = (Normal tt,
        {| fs := fs empty_world;
           posted := posted empty_world
                     ++ [StreamResponse OLA;
                         ShowError (ERROR_PREFIX
                                    ++ type_error "undefined" "uri");
                         EndStream];
           shown := shown empty_world
                    ++ [Error (ERROR_PREFIX
                               ++ type_error "undefined" "uri")] |}).
Proof.
  split; [exact (answered_answer _ PROMPT (utf16 "coder") OLA eq_refl)|].
  split; [reflexivity|].
  exact (empty_workspace_posts_response_then_error
           (env_with (Some []) (answer OLA)) PROMPT OLA empty_world
           (answered_answer _ PROMPT (utf16 "coder") OLA eq_refl) eq_refl).
Defined.

Lemma unauthorized_is_not_empty : utf16 "Unauthorized" <> [].
Proof. discriminate. Qed.

Lemma api_error_carries_server_message_witness :
  session (env_with (Some [workspace]) unauthorized) = Some TOKEN
  /\ fetch (env_with (Some [workspace]) unauthorized)
       (copilot_request TOKEN CODER PROMPT)
     = Response false 401
         (BodyJson
            (JObj [(utf16 "error",
                    JObj [(utf16 "message", JStr (utf16 "Unauthorized"))])]))
  /\ assoc (utf16 "error")
       [(utf16 "error",
         JObj [(utf16 "message", JStr (utf16 "Unauthorized"))])]
     = Some (JObj [(utf16 "message", JStr (utf16 "Unauthorized"))])
  /\ assoc (utf16 "message")
       [(utf16 "message", JStr (utf16 "Unauthorized"))]
     = Some (JStr (utf16 "Unauthorized"))
  /\ utf16 "Unauthorized" <> []
  /\ handleCopilotRequest (env_with (Some [workspace]) unauthorized)
       PROMPT CODER empty_world
     = (Normal tt,
        {| fs := fs empty_world;
           posted := posted empty_world
                     ++ [ShowError (api_error 401 (utf16 "Unauthorized"));
                         EndStream];
           shown := shown empty_world
                    ++ [Error (api_error 401 (utf16 "Unauthorized"))] |}).
Proof.
  split; [reflexivity|]. split; [reflexivity|]. split; [reflexivity|].
  split; [reflexivity|]. split; [exact unauthorized_is_not_empty|].
  exact (api_error_carries_server_message
           (env_with (Some [workspace]) unauthorized) PROMPT CODER TOKEN 401
           [(utf16 "error",
             JObj [(utf16 "message", JStr (utf16 "Unauthorized"))])]
           [(utf16 "message", JStr (utf16 "Unauthorized"))]
           (utf16 "Unauthorized") empty_world
           eq_refl eq_refl eq_refl eq_refl unauthorized_is_not_empty).
Defined.

Lemma api_error_without_message_witness :
  session (env_with (Some [workspace]) server_error) = Some TOKEN
  /\ fetch (env_with (Some [workspace]) server_error)
       (copilot_request TOKEN CODER PROMPT)
     = Response false 500 (BodyJson (JObj []))
  /\ assoc (utf16 "error") [] = None
  /\ handleCopilotRequest (env_with (Some [workspace]) server_error)
       PROMPT CODER empty_world
     = (Normal tt,
        {| fs := fs empty_world;
           posted := posted empty_world
                     ++ [ShowError
                           (api_error 500 (utf16 "Erro desconhecido"));
                         EndStream];
           shown := shown empty_world
                    ++ [Error (api_error 500 (utf16 "Erro desconhecido"))] |}).
Proof.
  split; [reflexivity|]. split; [reflexivity|]. split; [reflexivity|].
  exact (api_error_without_message
           (env_with (Some [workspace]) server_error) PROMPT CODER TOKEN 500
           [] empty_world eq_refl eq_refl eq_refl).
Defined.

Lemma unreadable_error_body_hides_status_witness :
  session (env_with (Some [workspace]) bad_gateway) = Some TOKEN
  /\ fetch (env_with (Some [workspace]) bad_gateway)
       (copilot_request TOKEN CODER PROMPT)
     = Response false 502 (BodyRejected (utf16 "Unexpected token < in JSON"))
  /\ handleCopilotRequest (env_with (Some [workspace]) bad_gateway)
       PROMPT CODER empty_world
     = (Normal tt,
        {| fs := fs empty_world;
           posted := posted empty_world
                     ++ [ShowError (ERROR_PREFIX
                                    ++ utf16 "Unexpected token < in JSON");
                         EndStream];
           shown := shown empty_world
                    ++ [Error (ERROR_PREFIX
                               ++ utf16 "Unexpected token < in JSON")] |}).
Proof.
  split; [reflexivity|]. split; [reflexivity|].
  exact (unreadable_error_body_hides_status
           (env_with (Some [workspace]) bad_gateway) PROMPT CODER TOKEN 502
           (utf16 "Unexpected token < in JSON") empty_world eq_refl eq_refl).
Defined.

Lemma failed_login_makes_no_request_witness :
  session logged_out = None
  /\ handleCopilotRequest logged_out PROMPT CODER empty_world
     = (Normal tt,
        {| fs := fs empty_world;
           posted := posted empty_world
                     ++ [ShowError (ERROR_PREFIX ++ AUTHENTICATION_FAILED);
                         EndStream];
           shown := shown empty_world
                    ++ [Error LOGIN_NOTICE;
                        Error (ERROR_PREFIX ++ AUTHENTICATION_FAILED)] |}).
Proof.
  split; [reflexivity|].
  exact (failed_login_makes_no_request logged_out PROMPT CODER empty_world
           eq_refl).
Defined.


Lemma waiting_is_pending : pending waiting <> [].
Proof. discriminate. Qed.

Lemma completion_enables_the_button_witness :
  pending waiting <> []
  /\ let s' := Page.step (Complete logged_out) waiting in
     sendDisabled (ui s') = false
     /\ currentBotMessageElement (ui s') = None
     /\ length (pending s') = pred (length (pending waiting)).
Proof.
  split; [exact waiting_is_pending|].
  exact (PageFacts.completion_enables_the_button logged_out waiting
           waiting_is_pending).
Defined.

Lemma answer_fills_its_bot_element_witness :
  pending (start empty_world) = []
  /\ sendDisabled (ui (start empty_world)) = false
  /\ text_eqb (trim PROMPT) [] = false
  /\ answered (env_with (Some [workspace]) (answer (JStr DONE))) PROMPT
       (agentValue (ui (start empty_world))) (JStr DONE)
  /\ plain_text DONE
  /\ let s' := Page.run [Dom (Input PROMPT); Dom Click;
                         Complete
                           (env_with (Some [workspace]) (answer (JStr DONE)))]
                        (start empty_world) in
     pending s' = []
     /\ promptValue (ui s') = []
     /\ exists sys,
         messages (ui s')
         = messages (ui (start empty_world))
           ++ [(user, PROMPT); (bot, formatContent DONE)] ++ sys
         /\ Forall (fun e => fst e = system) sys.
Proof.
  assert (T : text_eqb (trim PROMPT) [] = false) by (vm_compute; reflexivity).
  assert (P : plain_text DONE) by (vm_compute; reflexivity).
  split; [reflexivity|]. split; [reflexivity|]. split; [exact T|].
  split; [exact (answered_answer _ PROMPT _ (JStr DONE) eq_refl)|].
  split; [exact P|].
  exact (PageFacts.answer_fills_its_bot_element (start empty_world) PROMPT
           (env_with (Some [workspace]) (answer (JStr DONE))) DONE
           eq_refl eq_refl T
           (answered_answer _ PROMPT _ (JStr DONE) eq_refl) P).
Defined.

Lemma overlapping_answer_is_misplaced_witness :
  pending (start empty_world) = []
  /\ sendDisabled (ui (start empty_world)) = false
  /\ text_eqb (trim PROMPT) [] = false
  /\ text_eqb (trim SECOND_PROMPT) [] = false
  /\ answered (env_with (Some [workspace]) (answer (JStr DONE))) PROMPT
       (agentValue (ui (start empty_world))) (JStr DONE)
  /\ plain_text DONE
  /\ let n := length (messages (ui (start empty_world))) in
     let s1 := Page.run [Dom (Input PROMPT); Dom Click;
                         Dom (Input SECOND_PROMPT); Dom (Keydown ENTER false);
                         Complete
                           (env_with (Some [workspace]) (answer (JStr DONE)))]
                        (start empty_world) in
     pending s1
     = [{| sub_text := SECOND_PROMPT;
           sub_agent := agentValue (ui (start empty_world)) |}]
     /\ messages (ui s1) !! S n = Some (bot, [])
     /\ messages (ui s1) !! S (S (S n)) = Some (bot, formatContent DONE)
     /\ forall env2,
         let s2 := Page.step (Complete env2) s1 in
         pending s2 = [] /\ messages (ui s2) !! S n = Some (bot, []).
Proof.
  assert (T1 : text_eqb (trim PROMPT) [] = false)
    by (vm_compute; reflexivity).
  assert (T2 : text_eqb (trim SECOND_PROMPT) [] = false)
    by (vm_compute; reflexivity).
  assert (P : plain_text DONE) by (vm_compute; reflexivity).
  split; [reflexivity|]. split; [reflexivity|]. split; [exact T1|].
  split; [exact T2|].
  split; [exact (answered_answer _ PROMPT _ (JStr DONE) eq_refl)|].
  split; [exact P|].
  exact (PageFacts.overlapping_answer_is_misplaced (start empty_world)
           PROMPT SECOND_PROMPT
           (env_with (Some [workspace]) (answer (JStr DONE))) DONE
           eq_refl eq_refl T1 T2
           (answered_answer _ PROMPT _ (JStr DONE) eq_refl) P).
Defined.

Lemma text_without_fence_is_unchanged_witness :
  no_backtick PROSE /\ formatContent PROSE = PROSE.
Proof.
  assert (P : no_backtick PROSE) by (vm_compute; reflexivity).
  split; [exact P|].
  exact (FormatFacts.text_without_fence_is_unchanged PROSE P).
Defined.

Lemma block_becomes_pre_code_witness :
  no_backtick PROSE
  /\ forallb is_word TAG = true
  /\ occurs (LF :: FENCE) CODE = false
  /\ formatContent (PROSE ++ FENCE ++ TAG ++ LF :: CODE ++ LF :: FENCE ++ REST)
     = PROSE ++ pre_code TAG (trim (escapeCode CODE)) ++ formatContent REST.
Proof.
  assert (P : no_backtick PROSE) by (vm_compute; reflexivity).
  assert (T : forallb is_word TAG = true) by (vm_compute; reflexivity).
  assert (C : occurs (LF :: FENCE) CODE = false) by (vm_compute; reflexivity).
  split; [exact P|]. split; [exact T|]. split; [exact C|].
  exact (FormatFacts.block_becomes_pre_code PROSE TAG CODE REST P T C).
Defined.

Lemma response_without_fence_changes_nothing_witness :
  workspaceFolders (env_with (Some [workspace]) (answer (JStr DONE)))
    = Some [workspace]
  /\ no_backtick DONE
  /\ processAndWriteFiles (env_with (Some [workspace]) (answer (JStr DONE)))
       (JStr DONE) empty_world
     = (Normal tt, empty_world).
Proof.
  assert (P : no_backtick DONE) by (vm_compute; reflexivity).
  split; [reflexivity|]. split; [exact P|].
  exact (response_without_fence_changes_nothing
           (env_with (Some [workspace]) (answer (JStr DONE))) workspace []
           DONE empty_world eq_refl P).
Defined.



Lemma scenario_has_no_parent_segment :
  Forall (fun i => has_parent_segment (relativePath i) = false)
         (extract (toString (JStr scenario_response))).
Proof.
  assert (E : extract (toString (JStr scenario_response))
              = [{| relativePath := utf16 "a/b.js";
                    content := utf16 "console.log(1)" |}])
    by (vm_compute; reflexivity).
  rewrite E. repeat constructor.
Qed.

Lemma outside_is_outside : ~ inside workspace outside.
Proof. intros [k Hk]. vm_compute in Hk. discriminate. Qed.

Lemma without_parent_segments_nothing_outside_changes_witness :
  workspaceFolders
    (env_with (Some [workspace]) (answer (JStr scenario_response)))
    = Some [workspace]
  /\ Forall (fun i => has_parent_segment (relativePath i) = false)
            (extract (toString (JStr scenario_response)))
  /\ ~ inside workspace outside
  /\ read (fs (snd (processAndWriteFiles
                      (env_with (Some [workspace])
                         (answer (JStr scenario_response)))
                      (JStr scenario_response) empty_world)))
          outside
     = read (fs empty_world) outside.
Proof.
  split; [reflexivity|]. split; [exact scenario_has_no_parent_segment|].
  split; [exact outside_is_outside|].
  exact (Confinement.without_parent_segments_nothing_outside_changes
           (env_with (Some [workspace]) (answer (JStr scenario_response)))
           workspace [] (JStr scenario_response) empty_world outside
           eq_refl scenario_has_no_parent_segment outside_is_outside).
Defined.

Lemma closed_panel_is_released_witness :
  Lifecycle.panels (Lifecycle.run opened_and_closed Lifecycle.initial)
    !! 0%nat
  = Some closed_panel
  /\ Lifecycle.disposed closed_panel = true
  /\ Lifecycle.listening closed_panel = []
  /\ Lifecycle.disposables closed_panel = [].
Proof.
  split; [reflexivity|]. split; [reflexivity|].
  exact (LifecycleFacts.closed_panel_is_released opened_and_closed 0
           closed_panel eq_refl eq_refl).
Defined.

Lemma start_reveals_the_open_panel_witness :
  let r := Lifecycle.run [Lifecycle.Start None] Lifecycle.initial in
  Lifecycle.currentPanel r = Some 0%nat
  /\ let r' := Lifecycle.step r (Lifecycle.Start (Some 2%N)) in
     length (Lifecycle.panels r') = length (Lifecycle.panels r)
     /\ Lifecycle.currentPanel r' = Some 0%nat
     /\ exists p,
         Lifecycle.panels r !! 0%nat = Some p
         /\ (Lifecycle.reveals <$> Lifecycle.panels r' !! 0%nat)
            = Some (S (Lifecycle.reveals p)).
Proof.
  split; [reflexivity|].
  exact (LifecycleFacts.start_reveals_the_open_panel
           [Lifecycle.Start None] (Some 2%N) 0 eq_refl).
Defined.



Lemma dispose_is_closing_witness :
  let r := Lifecycle.run [Lifecycle.Start None] Lifecycle.initial in
  Lifecycle.currentPanel r = Some 0%nat
  /\ Lifecycle.dispose 0 r = Lifecycle.step r (Lifecycle.Close 0).
Proof.
  split; [reflexivity|].
  exact (LifecycleFacts.dispose_is_closing [Lifecycle.Start None] 0 eq_refl).
Defined.

End CaseFacts.
